(** * Prospex lead pipeline: scoring, de-duplication, location filter,
      website enrichment and the search handler.

    A shallow embedding of
      - [calculateLeadScore]            (lib/scoring),
      - the search handler [POST] of    app/api/scrape/route.ts, with
        [scrapeGoogleMaps]'s location filter, [enrichFromWebsite] and
        [enrichLeadsBatch],
      - the enrichment handler of       app/api/enrich/route.ts.

    Conventions.  A JavaScript string is a [string] whose characters are
    read as the code units U+0000..U+00FF; [toLowerCase] and [trim] are
    the restriction of the JavaScript functions to such strings.  A
    [string | null] field is an [option string]; a value is "truthy" when
    it is [Some s] with [s] non-empty.  A JavaScript number is a
    [number]: a rational (every finite double is one), NaN or an
    infinity; the sums of points are exact integers and live in [Z]. *)

From Stdlib Require Import ZArith QArith Bool List Ascii String Lia.
From stdpp Require Import base decidable list strings gmap.

Import ListNotations.
Local Open Scope Z_scope.

(* ===================================================================== *)
(** ** JavaScript values *)
(* ===================================================================== *)

Module JS.

(** [number]: the comparisons of the code are against integer literals,
    so only the order and the three special values matter. *)
Inductive number : Type :=
  | Num (q : Q)
  | NaN
  | PosInfinity
  | NegInfinity.

(** [x < c] for a literal [c]. *)
Definition lt (x : number) (c : Q) : bool :=
  match x with
  | Num q => negb (Qle_bool c q)
  | NegInfinity => true
  | NaN | PosInfinity => false
  end.

(** [x >= c] for a literal [c]. *)
Definition ge (x : number) (c : Q) : bool :=
  match x with
  | Num q => Qle_bool c q
  | PosInfinity => true
  | NaN | NegInfinity => false
  end.

(** ToBoolean on a number: 0 and NaN are falsy. *)
Definition truthy_num (x : number) : bool :=
  match x with
  | Num q => negb (Qeq_bool q 0)
  | NaN => false
  | PosInfinity | NegInfinity => true
  end.

(** ToBoolean on a [string | null | undefined] value. *)
Definition truthy (v : option string) : bool :=
  match v with
  | Some s => negb (String.eqb s "")
  | None => false
  end.

(** [Array.prototype.push]. *)
Definition push {A : Type} (l : list A) (x : A) : list A := (l ++ [x])%list.

(** *** Strings *)

Definition code (c : ascii) : N := N_of_ascii c.

Definition inRange (lo hi : N) (c : ascii) : bool :=
  ((lo <=? code c) && (code c <=? hi))%N.

Definition isDigit (c : ascii) : bool := inRange 48 57 c.
Definition isUpper (c : ascii) : bool := inRange 65 90 c.
Definition isLower (c : ascii) : bool := inRange 97 122 c.
Definition isAlpha (c : ascii) : bool := isUpper c || isLower c.
Definition isAlnum (c : ascii) : bool := isAlpha c || isDigit c.

(** [\s], and the characters [trim] strips: TAB, LF, VT, FF, CR, SP and
    NBSP are the white space and line terminators below U+0100. *)
Definition isSpace (c : ascii) : bool :=
  inRange 9 13 c || (code c =? 32)%N || (code c =? 160)%N.

(** Lower-casing of one code unit: A-Z, and the capital letters
    U+00C0..U+00DE except the multiplication sign U+00D7. *)
Definition lowerChar (c : ascii) : ascii :=
  if isUpper c || (inRange 192 222 c && negb (code c =? 215)%N)
  then ascii_of_N (code c + 32)
  else c.

Fixpoint toLowerCase (s : string) : string :=
  match s with
  | EmptyString => EmptyString
  | String c s' => String (lowerChar c) (toLowerCase s')
  end.

Fixpoint trimStart (s : string) : string :=
  match s with
  | EmptyString => EmptyString
  | String c s' => if isSpace c then trimStart s' else s
  end.

Fixpoint trimEnd (s : string) : string :=
  match s with
  | EmptyString => EmptyString
  | String c s' =>
      match trimEnd s' with
      | EmptyString => if isSpace c then EmptyString else String c EmptyString
      | t => String c t
      end
  end.

Definition trim (s : string) : string := trimEnd (trimStart s).

(** [s.startsWith(p)]. *)
Definition startsWith (s p : string) : bool := String.prefix p s.

(** [s.includes(t)]. *)
Fixpoint includes (s t : string) : bool :=
  match s with
  | EmptyString => String.prefix t EmptyString
  | String _ s' => String.prefix t s || includes s' t
  end.

(** [s.endsWith(t)]. *)
Definition endsWith (s t : string) : bool :=
  let n := String.length s in
  let m := String.length t in
  (m <=? n)%nat && String.eqb (String.substring (n - m) m s) t.

(** [s.replace(pat, '')] for a non-empty literal [pat]: the first
    occurrence is removed. *)
Fixpoint removeFirst (pat s : string) : string :=
  if String.prefix pat s then String.substring (String.length pat) (String.length s - String.length pat) s
  else match s with
       | EmptyString => EmptyString
       | String c s' => String c (removeFirst pat s')
       end.

(** [s.replace(/https?:\/\//, '')]: the leftmost "http://" or "https://"
    is removed. *)
Fixpoint removeProtocol (s : string) : string :=
  if String.prefix "https://" s then String.substring 8 (String.length s - 8) s
  else if String.prefix "http://" s then String.substring 7 (String.length s - 7) s
  else match s with
       | EmptyString => EmptyString
       | String c s' => String c (removeProtocol s')
       end.

(** [s.replace(/\/$/, '')]. *)
Fixpoint removeTrailingSlash (s : string) : string :=
  match s with
  | EmptyString => EmptyString
  | String c s' =>
      match s' with
      | EmptyString => if Ascii.eqb c "/" then EmptyString else s
      | _ => String c (removeTrailingSlash s')
      end
  end.

(** [s.replace(/\D/g, '')]. *)
Fixpoint digitsOf (s : string) : string :=
  match s with
  | EmptyString => EmptyString
  | String c s' => if isDigit c then String c (digitsOf s') else digitsOf s'
  end.

(** [a.findIndex(p)], with [-1] when nothing is found. *)
Fixpoint findIndexFrom {A : Type} (i : Z) (p : A -> bool) (l : list A) : Z :=
  match l with
  | [] => -1
  | x :: l' => if p x then i else findIndexFrom (i + 1) p l'
  end.

Definition findIndex {A : Type} (p : A -> bool) (l : list A) : Z :=
  findIndexFrom 0 p l.

(** [a.slice(i, j)] for [0 <= i <= j]. *)
Definition slice {A : Type} (l : list A) (i j : nat) : list A :=
  take (j - i) (drop i l).

(** [v || ''] on a [string | null]. *)
Definition orEmpty (v : option string) : string :=
  match v with
  | Some s => s
  | None => ""
  end.

End JS.

(* ===================================================================== *)
(** ** lib/scoring: [calculateLeadScore] *)
(* ===================================================================== *)

Module Scoring.

Inductive Grade := GradeA | GradeB | GradeC | GradeD | GradeF.
Inductive Priority := hot | warm | cold.

(** [ScoreFactor]; the free-text [description] is not modelled (it
    carries no points and one of them prints a number). *)
Record ScoreFactor := {
  name : string;
  score : Z;
  maxScore : Z
}.

Record LeadScoreResult := {
  total : Z;
  grade : Grade;
  priority : Priority;
  factors : list ScoreFactor;
  recommendation : string
}.

Record LeadInput := {
  email : option string;
  phone : option string;
  website : option string;
  instagram_url : option string;
  google_rating : option JS.number;
  google_review_count : option JS.number;
  audit_score : option JS.number;
  business_name : option string
}.

(** Factor 1: Email (25 pts). *)
Definition emailScore (lead : LeadInput) : Z :=
  if JS.truthy (email lead) then 25 else 0.

(** Factor 2: Phone (15 pts). *)
Definition phoneScore (lead : LeadInput) : Z :=
  if JS.truthy (phone lead) then 15 else 0.

(** Factor 3: Website Opportunity (25 pts, low audit = high opportunity). *)
Definition websiteScore (lead : LeadInput) : Z :=
  match audit_score lead with
  | Some a =>
      if JS.lt a 40 then 25
      else if JS.lt a 60 then 20
      else if JS.lt a 80 then 12
      else 5
  | None =>
      if JS.truthy (website lead) then 12 else 18
  end.

(** Factor 4: Google Reviews (15 pts, low reviews = opportunity). *)
Definition reviewScore (lead : LeadInput) : Z :=
  match google_review_count lead with
  | Some c =>
      if JS.lt c 10 then 15
      else if JS.lt c 30 then 12
      else if JS.lt c 100 then 8
      else 4
  | None => 0
  end.

(** Factor 5: Social Presence (10 pts). *)
Definition socialScore (lead : LeadInput) : Z :=
  let s := 0 in
  let s := if JS.truthy (instagram_url lead) then s + 3 else s in
  let s := if JS.truthy (website lead) then s + 4 else s in
  let s := match google_rating lead with
           | Some r => if JS.truthy_num r && JS.ge r 3 then s + 3 else s
           | None => s
           end in
  s.

(** Factor 6: Data Completeness (10 pts). *)
Definition completeness (lead : LeadInput) : Z :=
  let c := 0 in
  let c := if JS.truthy (business_name lead) then c + 2 else c in
  let c := if JS.truthy (email lead) then c + 3 else c in
  let c := if JS.truthy (phone lead) then c + 2 else c in
  let c := if JS.truthy (website lead) then c + 3 else c in
  c.

(** The [// Grade] cascade. *)
Definition gradeOf (total : Z) : Grade :=
  if total >=? 80 then GradeA
  else if total >=? 65 then GradeB
  else if total >=? 50 then GradeC
  else if total >=? 35 then GradeD
  else GradeF.

(** The [// Priority] cascade. *)
Definition priorityOf (total : Z) : Priority :=
  if total >=? 70 then hot
  else if total >=? 45 then warm
  else cold.

(** The [// Recommendation] cascade. *)
Definition recommendationOf (total : Z) : string :=
  if total >=? 80 then "High-priority lead. Reach out immediately with a personalised pitch."
  else if total >=? 65 then "Strong lead. Send audit report and follow up within 24 hours."
  else if total >=? 50 then "Decent prospect. Enrich data and run website audit before outreach."
  else if total >=? 35 then "Needs more data. Find email or run audit to qualify further."
  else "Low priority. Focus on higher-scoring leads first.".

Definition calculateLeadScore (lead : LeadInput) : LeadScoreResult :=
  let factors := [] in
  let total := 0 in
  let factors := JS.push factors {| name := "Email Available"; score := emailScore lead; maxScore := 25 |} in
  let total := total + emailScore lead in
  let factors := JS.push factors {| name := "Phone Available"; score := phoneScore lead; maxScore := 15 |} in
  let total := total + phoneScore lead in
  let factors := JS.push factors {| name := "Website Opportunity"; score := websiteScore lead; maxScore := 25 |} in
  let total := total + websiteScore lead in
  let factors := JS.push factors {| name := "Review Opportunity"; score := reviewScore lead; maxScore := 15 |} in
  let total := total + reviewScore lead in
  let factors := JS.push factors {| name := "Online Presence"; score := socialScore lead; maxScore := 10 |} in
  let total := total + socialScore lead in
  let factors := JS.push factors {| name := "Data Completeness"; score := completeness lead; maxScore := 10 |} in
  let total := total + completeness lead in
  {| total := total;
     grade := gradeOf total;
     priority := priorityOf total;
     factors := factors;
     recommendation := recommendationOf total |}.

(** Field updates, for "an otherwise-identical lead". *)
Definition with_email (v : option string) (l : LeadInput) : LeadInput :=
  {| email := v; phone := phone l; website := website l;
     instagram_url := instagram_url l; google_rating := google_rating l;
     google_review_count := google_review_count l;
     audit_score := audit_score l; business_name := business_name l |}.

Definition with_phone (v : option string) (l : LeadInput) : LeadInput :=
  {| email := email l; phone := v; website := website l;
     instagram_url := instagram_url l; google_rating := google_rating l;
     google_review_count := google_review_count l;
     audit_score := audit_score l; business_name := business_name l |}.

(** The score of the factor called [n], if the result lists it. *)
Definition factorScore (n : string) (r : LeadScoreResult) : option Z :=
  score <$> List.find (fun f => String.eqb (name f) n) (factors r).

(** A lead about which nothing is known. *)
Definition blankLead : LeadInput :=
  {| email := None; phone := None; website := None; instagram_url := None;
     google_rating := None; google_review_count := None;
     audit_score := None; business_name := None |}.

End Scoring.

(* ===================================================================== *)
(** ** app/api/scrape/route.ts *)
(* ===================================================================== *)

Module Scrape.

Record LeadResult := {
  business_name : string;
  address : option string;
  city : option string;
  country : option string;
  phone : option string;
  email : option string;
  website : option string;
  instagram_url : option string;
  google_rating : option JS.number;
  google_review_count : option JS.number;
  google_maps_url : option string;
  source : string
}.

(** In-place assignments [lead.email = v], [lead.instagram_url = v] and
    [lead.phone = v]. *)
Definition set_email (v : string) (l : LeadResult) : LeadResult :=
  {| business_name := business_name l; address := address l; city := city l;
     country := country l; phone := phone l; email := Some v;
     website := website l; instagram_url := instagram_url l;
     google_rating := google_rating l;
     google_review_count := google_review_count l;
     google_maps_url := google_maps_url l; source := source l |}.

Definition set_instagram_url (v : string) (l : LeadResult) : LeadResult :=
  {| business_name := business_name l; address := address l; city := city l;
     country := country l; phone := phone l; email := email l;
     website := website l; instagram_url := Some v;
     google_rating := google_rating l;
     google_review_count := google_review_count l;
     google_maps_url := google_maps_url l; source := source l |}.

Definition set_phone (v : string) (l : LeadResult) : LeadResult :=
  {| business_name := business_name l; address := address l; city := city l;
     country := country l; phone := Some v; email := email l;
     website := website l; instagram_url := instagram_url l;
     google_rating := google_rating l;
     google_review_count := google_review_count l;
     google_maps_url := google_maps_url l; source := source l |}.

(** *** Exceptions

    A thrown value is an [Error] with its message or something else; an
    awaited call completes normally or throws. *)
Inductive thrown : Type :=
  | ErrorObject (message : string)
  | OtherValue.

Inductive completion (A : Type) : Type :=
  | Normal (a : A)
  | Throw (e : thrown).
Arguments Normal {A} a.
Arguments Throw {A} e.

#[global] Instance completion_ret : MRet completion := fun A a => Normal a.

#[global] Instance completion_bind : MBind completion :=
  fun A B k c =>
    match c with
    | Normal a => k a
    | Throw e => Throw e
    end.

(** [try { body } catch (e) { handler }]. *)
Definition tryCatch {A : Type} (body : completion A) (handler : thrown -> completion A) : completion A :=
  match body with
  | Normal a => Normal a
  | Throw e => handler e
  end.

(** [Promise.all]: all results, or the first rejection. *)
Fixpoint promiseAll {A : Type} (ps : list (completion A)) : completion (list A) :=
  match ps with
  | [] => Normal []
  | p :: ps' => a ← p; l ← promiseAll ps'; Normal (a :: l)
  end.

(** [e instanceof Error ? e.message : fallback]. *)
Definition messageOr (fallback : string) (e : thrown) : string :=
  match e with
  | ErrorObject m => m
  | OtherValue => fallback
  end.

(** *** The location filter at the end of [scrapeGoogleMaps] *)

Definition inLocation (location : string) (r : LeadResult) : bool :=
  let address := JS.toLowerCase (JS.orEmpty (address r)) in
  let city := JS.toLowerCase (JS.orEmpty (city r)) in
  let loc := JS.trim (JS.toLowerCase location) in
  JS.includes address loc || JS.includes city loc || String.eqb city loc.

Definition locationFilter (mapped : list LeadResult) (location : string) : list LeadResult :=
  let filtered := List.filter (inLocation location) mapped in
  if (0 <? length filtered)%nat then JS.slice filtered 0 30 else JS.slice mapped 0 30.

(** *** De-duplication by business name (in [POST]) *)

Definition dedupeKey (r : LeadResult) : string :=
  JS.trim (JS.toLowerCase (business_name r)).

(** The callback of [results.filter], with the [seen] set it closes over:
    whether [r] is kept, and the set afterwards. *)
Definition dedupeStep (seen : gset string) (r : LeadResult) : bool * gset string :=
  if negb (JS.truthy (Some (business_name r))) then (false, seen)
  else
    let key := dedupeKey r in
    if negb (JS.truthy (Some key)) || (String.length key <? 2)%nat || bool_decide (key ∈ seen)
    then (false, seen)
    else (true, {[ key ]} ∪ seen).

(** [Array.prototype.filter] with a callback that updates a state. *)
Fixpoint filterWith {A S : Type} (f : S -> A -> bool * S) (s : S) (l : list A) : list A * S :=
  match l with
  | [] => ([], s)
  | x :: l' =>
      let '(keep, s') := f s x in
      let '(kept, s'') := filterWith f s' l' in
      (if keep then x :: kept else kept, s'')
  end.

Definition dedupe (results : list LeadResult) : list LeadResult :=
  fst (filterWith dedupeStep ∅ results).

(** The [seen] set once the candidates of [pre] have been visited, and
    whether the candidate visited next is dropped. *)
Definition seenAfter (pre : list LeadResult) : gset string :=
  snd (filterWith dedupeStep ∅ pre).

Definition droppedAfter (pre : list LeadResult) (r : LeadResult) : bool :=
  negb (fst (dedupeStep (seenAfter pre) r)).

(** *** Email extraction (in [enrichFromWebsite]) *)

Fixpoint takeWhile (p : ascii -> bool) (s : string) : string :=
  match s with
  | EmptyString => EmptyString
  | String c s' => if p c then String c (takeWhile p s') else EmptyString
  end.

Fixpoint dropWhile (p : ascii -> bool) (s : string) : string :=
  match s with
  | EmptyString => EmptyString
  | String c s' => if p c then dropWhile p s' else s
  end.

Definition oneOf (cs : string) (c : ascii) : bool :=
  existsb (Ascii.eqb c) (list_ascii_of_string cs).

(** [[a-zA-Z0-9._%+-]] and [[a-zA-Z0-9.-]]. *)
Definition isLocalChar (c : ascii) : bool := JS.isAlnum c || oneOf "._%+-" c.
Definition isDomainChar (c : ascii) : bool := JS.isAlnum c || oneOf ".-" c.

(** Inside a run [d] of domain characters, the last dot that is followed
    by two letters or more: what is before it, and the letters after it.
    This is where the backtracking of [[a-zA-Z0-9.-]+\.[a-zA-Z]{2,}]
    stops, the first group being greedy. *)
Fixpoint lastTld (d : string) : option (string * string) :=
  match d with
  | EmptyString => None
  | String c d' =>
      match lastTld d' with
      | Some (p, t) => Some (String c p, t)
      | None =>
          if Ascii.eqb c "." && (2 <=? String.length (takeWhile JS.isAlpha d'))%nat
          then Some (EmptyString, takeWhile JS.isAlpha d')
          else None
      end
  end.

(** The match of [emailRegex] that starts at the first character of [s]. *)
Definition emailAt (s : string) : option string :=
  match takeWhile isLocalChar s, dropWhile isLocalChar s with
  | String l0 l', String "@" r =>
      match takeWhile isDomainChar r with
      | String d0 d' =>
          match lastTld d' with
          | Some (p, t) => Some (String l0 l' +:+ "@" +:+ String d0 p +:+ "." +:+ t)
          | None => None
          end
      | EmptyString => None
      end
  | _, _ => None
  end.

(** [text.match(emailRegex) || []] with the [g] flag: the matches from
    left to right, each search resuming at the end of the previous
    match ([skip] characters are still inside it). *)
Fixpoint emailMatchesFrom (skip : nat) (s : string) : list string :=
  match s with
  | EmptyString => []
  | String _ s' =>
      match skip with
      | S k => emailMatchesFrom k s'
      | O =>
          match emailAt s with
          | Some m => m :: emailMatchesFrom (String.length m - 1) s'
          | None => emailMatchesFrom 0 s'
          end
      end
  end.

Definition emailMatches (text : string) : list string := emailMatchesFrom 0 text.

(** The callback that rejects image names, script names and known noise. *)
Definition notNoise (e : string) : bool :=
  let lower := JS.toLowerCase e in
  negb (JS.endsWith lower ".png") && negb (JS.endsWith lower ".jpg") && negb (JS.endsWith lower ".gif") &&
  negb (JS.endsWith lower ".svg") && negb (JS.endsWith lower ".webp") && negb (JS.endsWith lower ".css") &&
  negb (JS.endsWith lower ".js") && negb (JS.includes lower "example.com") && negb (JS.includes lower "sentry") &&
  negb (JS.includes lower "webpack") && negb (JS.includes lower "wixpress") && negb (JS.includes lower "schema.org") &&
  negb (JS.includes lower "googleapis") && negb (JS.includes lower "cloudflare") &&
  negb (JS.includes lower "@2x") && negb (JS.includes lower "noreply") && negb (JS.includes lower "no-reply") &&
  (String.length lower <? 60)%nat && (5 <? String.length lower)%nat.

Definition prefOrder : list string :=
  ["info@"; "hello@"; "contact@"; "enquiries@"; "bookings@"; "reception@"].

Definition isDomainRank (domainClean a : string) : Z :=
  if JS.includes a domainClean then 0 else 1.

Definition prefRank (a : string) : Z :=
  let idx := JS.findIndex (fun p => JS.startsWith (JS.toLowerCase a) p) prefOrder in
  if idx =? -1 then 99 else idx.

(** The comparator given to [emails.sort]. *)
Definition compareEmails (domainClean a b : string) : Z :=
  let aIsDomain := isDomainRank domainClean a in
  let bIsDomain := isDomainRank domainClean b in
  if negb (aIsDomain =? bIsDomain) then aIsDomain - bIsDomain
  else prefRank a - prefRank b.

(** [Array.prototype.sort(cmp)]: a stable sort; [x] stays in front of the
    elements it does not compare greater than. *)
Fixpoint insertSorted {A : Type} (cmp : A -> A -> Z) (x : A) (l : list A) : list A :=
  match l with
  | [] => [x]
  | y :: l' => if cmp x y <=? 0 then x :: l else y :: insertSorted cmp x l'
  end.

Fixpoint sort {A : Type} (cmp : A -> A -> Z) (l : list A) : list A :=
  match l with
  | [] => []
  | x :: l' => insertSorted cmp x (sort cmp l')
  end.

(** [sorted[0]] of the email block: the address chosen for a lead whose
    site text is [allText] and whose [domain] was cut from its website. *)
Definition selectEmailAmong (domain : string) (matches : list string) : option string :=
  let emails := List.filter notNoise matches in
  let domainClean := JS.removeFirst "www." domain in
  let sorted := sort (compareEmails domainClean) emails in
  head sorted.

Definition selectEmail (domain allText : string) : option string :=
  selectEmailAmong domain (emailMatches allText).

(** [lead.website.replace(/https?:\/\//, '').replace(/\/$/, '')]. *)
Definition domainOf (website : string) : string :=
  JS.removeTrailingSlash (JS.removeProtocol website).

(** *** The outside world of one request

    What the code reads from the environment and obtains over HTTP or
    from the regular-expression engine is gathered in [Env]. *)
Inductive FetchResult : Type :=
  | FetchRejects (e : thrown)   (* [fetch] or [response.json()] rejects *)
  | NotOk                       (* [response.ok] is false *)
  | Markdown (md : string).     (* [data?.data?.markdown || ''] *)

Record Env := {
  (** [getKey('FIRECRAWL_API_KEY')] *)
  FIRECRAWL_API_KEY : string;
  (** the Firecrawl scrape of a URL *)
  firecrawl : string -> FetchResult;
  (** the handles [match[1]] of the successive [igRegex.exec(allText)] *)
  igRegexExec : string -> list string;
  (** [allText.match(phoneRegex) || []] *)
  phoneRegexMatch : string -> list string;
  (** the source adapters called with niche, location and country *)
  scrapeGoogleMaps : string -> string -> string -> completion (list LeadResult);
  scrapeYelp : string -> string -> string -> completion (list LeadResult);
  scrapeFresha : string -> string -> string -> completion (list LeadResult);
  scrapeYell : string -> string -> completion (list LeadResult);
  scrapeYellowPages : string -> string -> completion (list LeadResult);
  scrapeBark : string -> string -> string -> completion (list LeadResult)
}.

Definition newline : string := String "010"%char EmptyString.

Definition contactPaths : list string :=
  ["/contact"; "/contact-us"; "/about"; "/about-us"].

Definition reservedHandles : list string :=
  ["p"; "reel"; "reels"; "stories"; "explore"; "accounts"; "about";
   "developer"; "legal"; "privacy"; "terms"; "help"].

(** The [replace] that strips a leading tel:, phone: or call prefix (the
    last one with its optional white space and colon), ignoring case. *)
Definition removePhonePrefix (p : string) : string :=
  let lower := JS.toLowerCase p in
  let rest n := String.substring n (String.length p - n) p in
  if String.prefix "tel:" lower then rest 4%nat
  else if String.prefix "phone:" lower then rest 6%nat
  else if String.prefix "call" lower then
    match dropWhile JS.isSpace (rest 4%nat) with
    | String ":" r => dropWhile JS.isSpace r
    | r => r
    end
  else p.

Section Enrichment.

Variable env : Env.

(** The body of one [try { fetch ... }] block: the markdown of the page
    when the response is ok. *)
Definition fetchMarkdown (url : string) : completion (option string) :=
  match firecrawl env url with
  | FetchRejects e => Throw e
  | NotOk => Normal None
  | Markdown md => Normal (Some md)
  end.

(** [for (const targetUrl of urls) { try { ... } catch { } }]. *)
Fixpoint crawlPages (urls : list string) (allText : string) : completion string :=
  match urls with
  | [] => Normal allText
  | targetUrl :: rest =>
      allText ← tryCatch
        (page ← fetchMarkdown targetUrl;
         match page with
         | Some md => Normal (allText +:+ md +:+ newline)
         | None => Normal allText
         end)
        (fun _ => Normal allText);
      crawlPages rest allText
  end.

(** [for (const path of contactPaths) { try { ... break ... } catch { } }]. *)
Fixpoint crawlContact (domain : string) (paths : list string) (allText : string) : completion string :=
  match paths with
  | [] => Normal allText
  | path :: rest =>
      let contactUrl := "https://" +:+ domain +:+ path in
      step ← tryCatch
        (page ← fetchMarkdown contactUrl;
         match page with
         | Some md =>
             if (100 <? String.length md)%nat
             then Normal (allText +:+ md +:+ newline, true)
             else Normal (allText, false)
         | None => Normal (allText, false)
         end)
        (fun _ => Normal (allText, false));
      let '(allText, break) := step in
      if break : bool then Normal allText else crawlContact domain rest allText
  end.

(** The [// Extract emails] block. *)
Definition extractEmail (domain allText : string) (lead : LeadResult) : LeadResult :=
  if negb (JS.truthy (email lead)) then
    match selectEmail domain allText with
    | Some e => set_email e lead
    | None => lead
    end
  else lead.

(** The [// Extract Instagram] block. *)
Definition extractInstagram (allText : string) (lead : LeadResult) : LeadResult :=
  if negb (JS.truthy (instagram_url lead)) then
    let igMatches :=
      map (fun h => "https://instagram.com/" +:+ h)
          (List.filter
             (fun h => negb (existsb (String.eqb (JS.toLowerCase h)) reservedHandles))
             (igRegexExec env allText)) in
    match head igMatches with
    | Some u => set_instagram_url u lead
    | None => lead
    end
  else lead.

(** The [// Extract phone if missing] block. *)
Definition extractPhone (allText : string) (lead : LeadResult) : LeadResult :=
  if negb (JS.truthy (phone lead)) then
    let phones :=
      List.filter
        (fun p =>
           let digits := JS.digitsOf p in
           (10 <=? String.length digits)%nat && (String.length digits <=? 15)%nat)
        (map (fun p => JS.trim (removePhonePrefix p)) (phoneRegexMatch env allText)) in
    match head phones with
    | Some p => set_phone p lead
    | None => lead
    end
  else lead.

(** The body of the outer [try] of [enrichFromWebsite].  What can throw
    in it is inside the inner [try] blocks, which run before any field
    of [lead] is assigned. *)
Definition enrichFromWebsiteBody (site : string) (lead : LeadResult) : completion LeadResult :=
  let urls := [site] in
  let domain := domainOf site in
  allText ← crawlPages urls "";
  allText ← (if negb (JS.truthy (email lead))
             then crawlContact domain contactPaths allText
             else Normal allText);
  if (String.length allText =? 0)%nat then Normal lead
  else
    let lead := extractEmail domain allText lead in
    let lead := extractInstagram allText lead in
    let lead := extractPhone allText lead in
    Normal lead.

Definition enrichFromWebsite (lead : LeadResult) : completion LeadResult :=
  if negb (JS.truthy (website lead)) then Normal lead
  else if JS.truthy (email lead) && JS.truthy (instagram_url lead) then Normal lead
  else
    let firecrawlKey := FIRECRAWL_API_KEY env in
    if negb (JS.truthy (Some firecrawlKey)) then Normal lead
    else
      tryCatch (enrichFromWebsiteBody (JS.orEmpty (website lead)) lead)
               (fun _ => Normal lead).

Definition needsEnrichment (l : LeadResult) : bool :=
  JS.truthy (website l) && (negb (JS.truthy (email l)) || negb (JS.truthy (instagram_url l))).

Definition alreadyComplete (l : LeadResult) : bool :=
  negb (JS.truthy (website l)) || (JS.truthy (email l) && JS.truthy (instagram_url l)).

(** The [for (let i = 0; i < needsEnrichment.length; i += maxConcurrent)]
    loop; [None] when [fuel] iterations did not reach its end. *)
Fixpoint enrichBatches (fuel : nat) (needs : list LeadResult) (maxConcurrent i : nat)
    (enriched : list LeadResult) : option (completion (list LeadResult)) :=
  if (i <? length needs)%nat then
    match fuel with
    | O => None
    | S fuel' =>
        let batch := JS.slice needs i (i + maxConcurrent) in
        match promiseAll (map enrichFromWebsite batch) with
        | Normal results =>
            enrichBatches fuel' needs maxConcurrent (i + maxConcurrent) (enriched ++ results)
        | Throw e => Some (Throw e)
        end
    end
  else Some (Normal enriched).

Definition enrichLeadsBatch (fuel : nat) (leads : list LeadResult) (maxConcurrent : nat)
    : option (completion (list LeadResult)) :=
  let needs := List.filter needsEnrichment leads in
  let complete := List.filter alreadyComplete leads in
  if (length needs =? 0)%nat then Some (Normal leads)
  else
    match enrichBatches fuel needs maxConcurrent 0 [] with
    | Some (Normal enriched) => Some (Normal (complete ++ enriched))
    | Some (Throw e) => Some (Throw e)
    | None => None
    end.

End Enrichment.

(** *** The handler [POST] *)

(** The JSON body of the request. *)
Module Req.
Record t := {
  niche : option string;
  location : option string;
  country : option string;
  source : option string
}.
End Req.

(** The variables [results], [errors] and [sourceStats] of the handler. *)
Module Acc.
Record t := {
  results : list LeadResult;
  errors : list string;
  sourceStats : gmap string nat
}.
Definition init : t := {| results := []; errors := []; sourceStats := ∅ |}.
End Acc.

(** What the handler answers. *)
Module Resp.
Record EnrichmentStats := {
  withEmail : nat;
  withPhone : nat;
  withInstagram : nat
}.
Record Body := {
  results : list LeadResult;
  count : nat;
  sourceStats : gmap string nat;
  enrichmentStats : EnrichmentStats;
  errors : option (list string)
}.
Inductive t : Type :=
  | Json (body : Body)
  | JsonError (error : string) (status : Z).
End Resp.

Section Handler.

Variable env : Env.

(** [source === name]. *)
Definition sourceIs (source : option string) (name : string) : bool :=
  match source with
  | Some s => String.eqb s name
  | None => false
  end.

Definition trySource (source : option string) (name : string)
    (fn : completion (list LeadResult)) (st : Acc.t) : completion Acc.t :=
  tryCatch
    (r ← fn;
     if (0 <? length r)%nat
     then Normal {| Acc.results := Acc.results st ++ r;
                    Acc.errors := Acc.errors st;
                    Acc.sourceStats := <[name := length r]> (Acc.sourceStats st) |}
     else Normal {| Acc.results := Acc.results st;
                    Acc.errors := Acc.errors st;
                    Acc.sourceStats := <[name := 0%nat]> (Acc.sourceStats st) |})
    (fun e =>
       let msg := messageOr (name +:+ " failed") e in
       let st := {| Acc.results := Acc.results st;
                    Acc.errors := JS.push (Acc.errors st) msg;
                    Acc.sourceStats := <[name := 0%nat]> (Acc.sourceStats st) |} in
       if negb (sourceIs source "all") then Throw e else Normal st).

(** The six [if (source === ... || source === 'all') await trySource(...)]
    statements. *)
Definition runSources (source : option string) (niche location country : string)
    (st : Acc.t) : completion Acc.t :=
  st ← (if sourceIs source "google_maps" || sourceIs source "all"
        then trySource source "google_maps" (scrapeGoogleMaps env niche location country) st
        else Normal st);
  st ← (if sourceIs source "yelp" || sourceIs source "all"
        then trySource source "yelp" (scrapeYelp env niche location country) st
        else Normal st);
  st ← (if sourceIs source "fresha" || sourceIs source "all"
        then trySource source "fresha" (scrapeFresha env niche location country) st
        else Normal st);
  st ← (if sourceIs source "yell" || sourceIs source "all"
        then trySource source "yell" (scrapeYell env niche location) st
        else Normal st);
  st ← (if sourceIs source "yellow_pages" || sourceIs source "all"
        then trySource source "yellow_pages" (scrapeYellowPages env niche location) st
        else Normal st);
  st ← (if sourceIs source "bark" || sourceIs source "all"
        then trySource source "bark" (scrapeBark env niche location country) st
        else Normal st);
  Normal st.

(** The [try { ... } catch { enrichedResults = unique }] around the call
    of [enrichLeadsBatch], as a function of how the call ends ([None]:
    it does not end). *)
Definition enrichedOrUnique (unique remaining : list LeadResult)
    (call : option (completion (list LeadResult))) : option (list LeadResult) :=
  match call with
  | Some (Normal enriched) => Some (enriched ++ remaining)
  | Some (Throw _) => Some unique
  | None => None
  end.

(** The [AUTO-ENRICH] block, for a callee [enrichLeadsBatch] given as
    the function of its two arguments that says how the call ends. *)
Definition autoEnrichWith
    (enrichLeadsBatch : list LeadResult -> nat -> option (completion (list LeadResult)))
    (unique : list LeadResult) : option (list LeadResult) :=
  let firecrawlKey := FIRECRAWL_API_KEY env in
  if JS.truthy (Some firecrawlKey) then
    let toEnrich := JS.slice unique 0 15 in
    let remaining := drop 15 unique in
    enrichedOrUnique unique remaining (enrichLeadsBatch toEnrich 3%nat)
  else Some unique.

(** The block with the [enrichLeadsBatch] of this file.  The fuel handed
    to it bounds its loop and is enough (see [enrichLeadsBatch_returns]). *)
Definition autoEnrich (unique : list LeadResult) : option (list LeadResult) :=
  autoEnrichWith
    (fun leads maxConcurrent => enrichLeadsBatch env (S (length leads)) leads maxConcurrent)
    unique.

Definition respond (st : Acc.t) (enrichedResults : list LeadResult) : Resp.t :=
  let withEmail := length (List.filter (fun r => JS.truthy (email r)) enrichedResults) in
  let withPhone := length (List.filter (fun r => JS.truthy (phone r)) enrichedResults) in
  let withInstagram := length (List.filter (fun r => JS.truthy (instagram_url r)) enrichedResults) in
  Resp.Json
    {| Resp.results := enrichedResults;
       Resp.count := length enrichedResults;
       Resp.sourceStats := Acc.sourceStats st;
       Resp.enrichmentStats :=
         {| Resp.withEmail := withEmail; Resp.withPhone := withPhone;
            Resp.withInstagram := withInstagram |};
       Resp.errors := if (0 <? length (Acc.errors st))%nat then Some (Acc.errors st) else None |}.

(** [POST]; [None] when the handler does not return. *)
Definition POST (req : Req.t) : option Resp.t :=
  let country := default "United Kingdom" (Req.country req) in
  let source := Req.source req in
  if negb (JS.truthy (Req.niche req)) || negb (JS.truthy (Req.location req))
  then Some (Resp.JsonError "Niche and location are required" 400)
  else
    let niche := JS.orEmpty (Req.niche req) in
    let location := JS.orEmpty (Req.location req) in
    match runSources source niche location country Acc.init with
    | Normal st =>
        let unique := dedupe (Acc.results st) in
        match autoEnrich unique with
        | Some enrichedResults => Some (respond st enrichedResults)
        | None => None
        end
    | Throw err => Some (Resp.JsonError (messageOr "Scraping failed" err) 500)
    end.

End Handler.

End Scrape.

(* ===================================================================== *)
(** ** app/api/enrich/route.ts *)
(* ===================================================================== *)

Module Enrich.

(** A row of the [leads] table, as far as the handler reads or writes it
    (the [updated_at] stamp is left out); rows are found by their id. *)
Record Lead := {
  business_name : option string;
  website : option string;
  email : option string;
  phone : option string;
  instagram_url : option string
}.

(** The [updates] object: a field is [Some v] when the key is set. *)
Module Upd.
Record t := {
  email : option string;
  phone : option string;
  instagram_url : option string
}.
Definition none : t := {| email := None; phone := None; instagram_url := None |}.
End Upd.

Record Env := {
  (** [process.env.FIRECRAWL_API_KEY] *)
  FIRECRAWL_API_KEY : option string;
  (** the Firecrawl scrape of a URL *)
  firecrawl : string -> Scrape.FetchResult;
  (** [match[1]] of the first [igRegex.exec(text)], if it matches *)
  igRegexExec : string -> option string;
  (** [text.match(phoneRegex) || []] *)
  phoneRegexMatch : string -> list string
}.

(** [Array.from(new Set(l))]: first occurrences, in order. *)
Fixpoint fromSet (seen : gset string) (l : list string) : list string :=
  match l with
  | [] => []
  | x :: l' =>
      if bool_decide (x ∈ seen) then fromSet seen l'
      else x :: fromSet ({[ x ]} ∪ seen) l'
  end.

Definition keepEmail (e : string) : bool :=
  let lower := JS.toLowerCase e in
  negb (JS.endsWith lower ".png") && negb (JS.endsWith lower ".jpg") && negb (JS.endsWith lower ".gif") &&
  negb (JS.endsWith lower ".svg") && negb (JS.includes lower "example.com") && negb (JS.includes lower "sentry") &&
  negb (JS.includes lower "webpack") && negb (JS.includes lower "wixpress") && negb (JS.includes lower "schema.org") &&
  negb (JS.includes lower "@2x") && (String.length lower <? 60)%nat.

(** The email pattern is the one of the search handler. *)
Definition extractEmails (text : string) : list string :=
  let matches := Scrape.emailMatches text in
  let filtered := List.filter keepEmail matches in
  fromSet ∅ filtered.

(** [p.replace(/[^0-9+]/g, '')]. *)
Fixpoint digitsAndPlus (s : string) : string :=
  match s with
  | EmptyString => EmptyString
  | String c s' =>
      if JS.isDigit c || Ascii.eqb c "+" then String c (digitsAndPlus s') else digitsAndPlus s'
  end.

Section Handler.

Variable env : Env.

Definition extractInstagram (text : string) : option string :=
  match igRegexExec env text with
  | Some h =>
      if JS.truthy (Some h) &&
         negb (existsb (String.eqb h) ["p"; "reel"; "stories"; "explore"; "accounts"])
      then Some ("https://instagram.com/" +:+ h)
      else None
  | None => None
  end.

Definition extractPhones (text : string) : option string :=
  let matches := phoneRegexMatch env text in
  let cleaned :=
    List.filter (fun p => (10 <=? String.length p)%nat && (String.length p <=? 15)%nat)
                (map digitsAndPlus matches) in
  match head cleaned with
  | Some p => if JS.truthy (Some p) then Some p else None
  | None => None
  end.

Definition crawlWithFirecrawl (url : string) : option string :=
  if negb (JS.truthy (FIRECRAWL_API_KEY env)) then None
  else
    match firecrawl env url with
    | Scrape.FetchRejects _ => None
    | Scrape.NotOk => None
    | Scrape.Markdown md => Some md
    end.

(** The three [if (!lead.x) { ... updates.x = ... }] blocks. *)
Definition computeUpdates (lead : Lead) (text : string) : Upd.t :=
  let updates := Upd.none in
  let updates :=
    if negb (JS.truthy (email lead)) then
      match head (extractEmails text) with
      | Some e => {| Upd.email := Some e; Upd.phone := Upd.phone updates;
                     Upd.instagram_url := Upd.instagram_url updates |}
      | None => updates
      end
    else updates in
  let updates :=
    if negb (JS.truthy (phone lead)) then
      match extractPhones text with
      | Some p => {| Upd.email := Upd.email updates; Upd.phone := Some p;
                     Upd.instagram_url := Upd.instagram_url updates |}
      | None => updates
      end
    else updates in
  let updates :=
    if negb (JS.truthy (instagram_url lead)) then
      match extractInstagram text with
      | Some ig => {| Upd.email := Upd.email updates; Upd.phone := Upd.phone updates;
                      Upd.instagram_url := Some ig |}
      | None => updates
      end
    else updates in
  updates.

(** [Object.keys(updates).length > 0]. *)
Definition hasKeys (u : Upd.t) : bool :=
  bool_decide (is_Some (Upd.email u)) || bool_decide (is_Some (Upd.phone u)) ||
  bool_decide (is_Some (Upd.instagram_url u)).

(** [supabase.from('leads').update(updates).eq('id', leadId)] on one row:
    the keys that are set replace the columns. *)
Definition applyUpdates (u : Upd.t) (l : Lead) : Lead :=
  {| business_name := business_name l;
     website := website l;
     email := match Upd.email u with Some v => Some v | None => email l end;
     phone := match Upd.phone u with Some v => Some v | None => phone l end;
     instagram_url := match Upd.instagram_url u with Some v => Some v | None => instagram_url l end |}.

(** One turn of [for (const leadId of leadIds)]: the table and the
    [enriched] list afterwards. *)
Definition enrichLead (st : gmap string Lead * list (string * Upd.t)) (leadId : string)
    : gmap string Lead * list (string * Upd.t) :=
  let '(leads, enriched) := st in
  match leads !! leadId with
  | None => st
  | Some lead =>
      if negb (JS.truthy (website lead)) then st
      else if JS.truthy (email lead) && JS.truthy (phone lead) && JS.truthy (instagram_url lead) then st
      else
        match crawlWithFirecrawl (JS.orEmpty (website lead)) with
        | None => st
        | Some text =>
            let updates := computeUpdates lead text in
            if hasKeys updates
            then (alter (applyUpdates updates) leadId leads, JS.push enriched (leadId, updates))
            else st
        end
  end.

(** [POST] for a body that carries the array [leadIds]: the table and
    the [results] of the response. *)
Definition POST (leads : gmap string Lead) (leadIds : list string)
    : gmap string Lead * list (string * Upd.t) :=
  foldl enrichLead (leads, []) leadIds.

End Handler.

End Enrich.

(* ===================================================================== *)
(** ** lib/utils.ts *)
(* ===================================================================== *)

Module Utils.

Definition getGradeFromScore (score : JS.number) : string :=
  if JS.ge score 80 then "A"
  else if JS.ge score 65 then "B"
  else if JS.ge score 50 then "C"
  else if JS.ge score 35 then "D"
  else "F".

Definition getPriorityFromScore (score : JS.number) : string :=
  if JS.ge score 70 then "hot"
  else if JS.ge score 45 then "warm"
  else "cold".

(** [phone.replace(/[^0-9+]/g, '')]. *)
Fixpoint cleanPhone (phone : string) : string :=
  match phone with
  | EmptyString => EmptyString
  | String c s =>
      if JS.isDigit c || Ascii.eqb c "+" then String c (cleanPhone s) else cleanPhone s
  end.

(** What is left of [s] after the prefix [p], if [s] starts with it. *)
Definition dropPrefix (p s : string) : option string :=
  if String.prefix p s
  then Some (String.substring (String.length p) (String.length s - String.length p) s)
  else None.

(** The match of the Instagram profile pattern (http, an optional s,
    ://, an optional www., instagram.com, an optional slash) at the
    start of [s]: what follows it. *)
Definition instagramPrefixAt (s : string) : option string :=
  r ← dropPrefix "http" s;
  r ← dropPrefix "://" (default r (dropPrefix "s" r));
  r ← dropPrefix "instagram.com" (default r (dropPrefix "www." r));
  Some (default r (dropPrefix "/" r)).

(** The [replace] of the leftmost match of that pattern by nothing. *)
Fixpoint removeInstagramPrefix (s : string) : string :=
  match instagramPrefixAt s with
  | Some rest => rest
  | None =>
      match s with
      | EmptyString => EmptyString
      | String c s' => String c (removeInstagramPrefix s')
      end
  end.

Definition getInstagramDMUrl (instagramUrl : string) : string :=
  let handle := JS.removeTrailingSlash (removeInstagramPrefix instagramUrl) in
  "https://ig.me/m/" +:+ handle.

End Utils.

(* ===================================================================== *)
(** ** The [leads] table (lib/types.ts, [Lead]) *)
(* ===================================================================== *)

Module Db.

(** A row of [leads] (table public.leads of the schema), with the
    columns that the scoring, audit and import handlers read or write;
    the key [id] is the key of the table below.  Scores are whole
    numbers, [updated_at] is the text of a time stamp. *)
Record Lead := {
  business_name : string;
  address : option string;
  city : option string;
  country : option string;
  phone : option string;
  email : option string;
  website : option string;
  instagram_url : option string;
  google_rating : option JS.number;
  google_review_count : option JS.number;
  source : string;
  lead_score : option Z;
  lead_grade : option string;
  lead_priority : option string;
  audit_score : option Z;
  audit_status : option string;
  updated_at : option string
}.

(** The [description] of an entry of [activity_log]: a template string,
    kept as the template and its arguments (the templates have a
    character outside the code units of this file's strings). *)
Inductive Description : Type :=
  (* Scored <name>: <total>/100 (<grade>) - <priority> *)
  | Scored (business_name : string) (total : Z) (grade priority : string)
  (* CSV import: <i> imported, <d> duplicates, <e> errors from <n> rows *)
  | CsvImport (imported duplicates errors rows : nat).

(** An entry of [activity_log] as a handler inserts it; [id] and
    [created_at] are given by the table. *)
Record Activity := {
  action_type : string;
  description : Description;
  lead_id : option string;
  metadata : option (list Scoring.ScoreFactor * string)
}.

(** The check constraint of the column [source] of [leads]:
    [check (source in ('google_maps', 'yelp', 'fresha'))]. *)
Definition sourceCheck (source : string) : bool :=
  existsb (String.eqb source) ["google_maps"; "yelp"; "fresha"].

(** The check constraint of the column [lead_priority]. *)
Definition priorityCheck (priority : option string) : bool :=
  match priority with
  | Some p => existsb (String.eqb p) ["hot"; "warm"; "cold"]
  | None => true
  end.

(** The row as [calculateLeadScore] reads it. *)
Definition toLeadInput (row : Lead) : Scoring.LeadInput :=
  {| Scoring.email := email row;
     Scoring.phone := phone row;
     Scoring.website := website row;
     Scoring.instagram_url := instagram_url row;
     Scoring.google_rating := google_rating row;
     Scoring.google_review_count := google_review_count row;
     Scoring.audit_score := (fun z => JS.Num (inject_Z z)) <$> audit_score row;
     Scoring.business_name := Some (business_name row) |}.

(** The strings stored for a grade and a priority. *)
Definition gradeString (g : Scoring.Grade) : string :=
  match g with
  | Scoring.GradeA => "A"
  | Scoring.GradeB => "B"
  | Scoring.GradeC => "C"
  | Scoring.GradeD => "D"
  | Scoring.GradeF => "F"
  end.

Definition priorityString (p : Scoring.Priority) : string :=
  match p with
  | Scoring.hot => "hot"
  | Scoring.warm => "warm"
  | Scoring.cold => "cold"
  end.

(** [update({ lead_score, lead_grade, lead_priority, updated_at })] on
    one row; the priority written is one that the check of the column
    admits (see [priorityString_admitted]). *)
Definition setScore (score : Z) (grade priority now : string) (row : Lead) : Lead :=
  {| business_name := business_name row; address := address row; city := city row;
     country := country row; phone := phone row; email := email row;
     website := website row; instagram_url := instagram_url row;
     google_rating := google_rating row;
     google_review_count := google_review_count row; source := source row;
     lead_score := Some score; lead_grade := Some grade;
     lead_priority := Some priority;
     audit_score := audit_score row; audit_status := audit_status row;
     updated_at := Some now |}.

(** [update({ audit_status, audit_score, audit_data, lead_score,
    lead_grade, lead_priority, updated_at })] on one row ([audit_data] is
    not a column of [Lead]). *)
Definition setAudit (status : string) (overall score : Z) (grade priority now : string)
    (row : Lead) : Lead :=
  {| business_name := business_name row; address := address row; city := city row;
     country := country row; phone := phone row; email := email row;
     website := website row; instagram_url := instagram_url row;
     google_rating := google_rating row;
     google_review_count := google_review_count row; source := source row;
     lead_score := Some score; lead_grade := Some grade;
     lead_priority := Some priority;
     audit_score := Some overall; audit_status := Some status;
     updated_at := Some now |}.

End Db.

(* ===================================================================== *)
(** ** app/api/score/route.ts *)
(* ===================================================================== *)

Module ScoreRoute.

Record Scored := {
  id : string;
  score : Z;
  grade : string;
  priority : string
}.

Inductive Response : Type :=
  | Json (scored : nat) (results : list Scored)
  | JsonError (error : string) (status : Z).

(** The table [leads], the table [activity_log] and the array [results]
    in the course of a request. *)
Record State := {
  leads : gmap string Db.Lead;
  activity_log : list Db.Activity;
  results : list Scored
}.

Section Handler.

(** [new Date().toISOString()] at the update of the lead that the
    request scores as its [n]-th, counting from 0. *)
Variable now : nat -> string.

(** One turn of [for (const leadId of leadIds)]: the update of the row,
    the insert into [activity_log] and the [push]. *)
Definition scoreLead (st : State) (leadId : string) : State :=
  match leads st !! leadId with
  | None => st
  | Some lead =>
      let scoreResult := Scoring.calculateLeadScore (Db.toLeadInput lead) in
      let total := Scoring.total scoreResult in
      let grade := Db.gradeString (Scoring.grade scoreResult) in
      let priority := Db.priorityString (Scoring.priority scoreResult) in
      {| leads :=
           alter (Db.setScore total grade priority (now (length (results st))))
                 leadId (leads st);
         activity_log :=
           JS.push (activity_log st)
             {| Db.action_type := "score";
                Db.description := Db.Scored (Db.business_name lead) total grade priority;
                Db.lead_id := Some leadId;
                Db.metadata :=
                  Some (Scoring.factors scoreResult, Scoring.recommendation scoreResult) |};
         results :=
           JS.push (results st)
             {| id := leadId; score := total; grade := grade; priority := priority |} |}
  end.

(** [POST]; [leadIds] is [None] when the body has no array of that name.
    The answer and the two tables afterwards. *)
Definition POST (table : gmap string Db.Lead) (log : list Db.Activity)
    (leadIds : option (list string))
    : Response * gmap string Db.Lead * list Db.Activity :=
  match leadIds with
  | None => (JsonError "leadIds array required" 400, table, log)
  | Some ids =>
      if (length ids =? 0)%nat then (JsonError "leadIds array required" 400, table, log)
      else
        let st :=
          foldl scoreLead {| leads := table; activity_log := log; results := [] |} ids in
        (Json (length (results st)) (results st), leads st, activity_log st)
  end.

End Handler.

End ScoreRoute.

(* ===================================================================== *)
(** ** The website audit handler ([calculateAuditScore] and its [POST]) *)
(* ===================================================================== *)

Module Audit.

(** The argument of [calculateAuditScore]: each check is [true], [false]
    or absent, each speed score a number or absent. *)
Module Checks.
Record t := {
  ssl_check : option bool;
  has_social_media : option bool;
  has_click_to_call : option bool;
  has_video : option bool;
  has_chatbot : option bool;
  has_booking : option bool;
  has_meta_description : option bool;
  has_h1 : option bool;
  has_analytics : option bool;
  has_schema : option bool;
  mobile_score : option JS.number;
  speed_score : option JS.number
}.
End Checks.

(** [if (checks[key] === false) score -= deduction]. *)
Definition deduct (check : option bool) (deduction score : Z) : Z :=
  match check with
  | Some false => score - deduction
  | _ => score
  end.

(** The two [// Speed deductions]. *)
Definition deductSpeed (speed : option JS.number) (score : Z) : Z :=
  match speed with
  | Some n => if JS.lt n 50 then score - 10 else if JS.lt n 70 then score - 5 else score
  | None => score
  end.

(** The score before [Math.max(0, Math.min(100, score))]. *)
Definition rawAuditScore (checks : Checks.t) : Z :=
  let score := 100 in
  let score := deduct (Checks.ssl_check checks) 15 score in
  let score := deduct (Checks.has_social_media checks) 8 score in
  let score := deduct (Checks.has_click_to_call checks) 8 score in
  let score := deduct (Checks.has_video checks) 5 score in
  let score := deduct (Checks.has_chatbot checks) 5 score in
  let score := deduct (Checks.has_booking checks) 10 score in
  let score := deduct (Checks.has_meta_description checks) 8 score in
  let score := deduct (Checks.has_h1 checks) 5 score in
  let score := deduct (Checks.has_analytics checks) 10 score in
  let score := deduct (Checks.has_schema checks) 6 score in
  let score := deductSpeed (Checks.mobile_score checks) score in
  let score := deductSpeed (Checks.speed_score checks) score in
  score.

Definition calculateAuditScore (checks : Checks.t) : Z :=
  Z.max 0 (Z.min 100 (rawAuditScore checks)).

(** The variable [htmlChecks]: nine flags, and the [ssl_check] key that
    only the object returned by [analyzeHTML] has. *)
Module Html.
Record t := {
  ssl_check : option bool;
  has_social_media : bool;
  has_click_to_call : bool;
  has_video : bool;
  has_chatbot : bool;
  has_booking : bool;
  has_meta_description : bool;
  has_h1 : bool;
  has_analytics : bool;
  has_schema : bool
}.
(** The initial value: every flag [false]. *)
Definition none : t :=
  {| ssl_check := None; has_social_media := false; has_click_to_call := false;
     has_video := false; has_chatbot := false; has_booking := false;
     has_meta_description := false; has_h1 := false; has_analytics := false;
     has_schema := false |}.
End Html.

(** [auditData]. *)
Module Data.
Record t := {
  ssl_check : bool;
  mobile_score : JS.number;
  speed_score : JS.number;
  has_social_media : bool;
  has_click_to_call : bool;
  has_video : bool;
  has_chatbot : bool;
  has_booking : bool;
  has_meta_description : bool;
  has_h1 : bool;
  has_analytics : bool;
  has_schema : bool;
  overall_score : Z
}.
(** [auditData] as [calculateAuditScore] reads it. *)
Definition toChecks (d : t) : Checks.t :=
  {| Checks.ssl_check := Some (ssl_check d);
     Checks.has_social_media := Some (has_social_media d);
     Checks.has_click_to_call := Some (has_click_to_call d);
     Checks.has_video := Some (has_video d);
     Checks.has_chatbot := Some (has_chatbot d);
     Checks.has_booking := Some (has_booking d);
     Checks.has_meta_description := Some (has_meta_description d);
     Checks.has_h1 := Some (has_h1 d);
     Checks.has_analytics := Some (has_analytics d);
     Checks.has_schema := Some (has_schema d);
     Checks.mobile_score := Some (mobile_score d);
     Checks.speed_score := Some (speed_score d) |}.
(** [auditData.overall_score = v]. *)
Definition setOverall (v : Z) (d : t) : t :=
  {| ssl_check := ssl_check d; mobile_score := mobile_score d;
     speed_score := speed_score d; has_social_media := has_social_media d;
     has_click_to_call := has_click_to_call d; has_video := has_video d;
     has_chatbot := has_chatbot d; has_booking := has_booking d;
     has_meta_description := has_meta_description d; has_h1 := has_h1 d;
     has_analytics := has_analytics d; has_schema := has_schema d;
     overall_score := v |}.
End Data.

(** How the Firecrawl request for the HTML of a page ends. *)
Inductive Fetched : Type :=
  | Rejects (e : Scrape.thrown)     (* [fetch] or [response.json()] rejects *)
  | Status (status : string)        (* not ok, with the status as printed *)
  | Html (html : string).           (* [data?.data?.html || ''] *)

Record Env := {
  (** [getKey('FIRECRAWL_API_KEY')] *)
  FIRECRAWL_API_KEY : string;
  (** the Firecrawl scrape of a URL *)
  firecrawl : string -> Fetched;
  (** the nine pattern tests of [analyzeHTML] on the lower-cased page, in
      the order of the fields of [Html.t] *)
  patternTests : string -> Html.t;
  (** the rounded mobile and desktop PageSpeed scores of a URL; [None]
      when a request or its decoding fails *)
  pageSpeed : string -> option (JS.number * JS.number);
  (** [new Date().toISOString()] at the update of the lead *)
  now : string
}.

Inductive Response : Type :=
  | Json (auditData : Data.t) (leadScore : Z) (grade priority : string)
  | JsonError (error : string) (status : Z).

Section Handler.

Variable env : Env.

Definition crawlWebsite (url : string) : Scrape.completion string :=
  let apiKey := FIRECRAWL_API_KEY env in
  if negb (JS.truthy (Some apiKey))
  then Scrape.Throw (Scrape.ErrorObject "Firecrawl API key not configured")
  else
    match firecrawl env url with
    | Rejects e => Scrape.Throw e
    | Status status => Scrape.Throw (Scrape.ErrorObject ("Firecrawl error: " +:+ status))
    | Html html => Scrape.Normal html
    end.

Definition getPageSpeedScores (url : string) : JS.number * JS.number :=
  match pageSpeed env url with
  | Some scores => scores
  | None => (JS.Num 0, JS.Num 0)
  end.

Definition analyzeHTML (html : string) : Html.t :=
  let lower := JS.toLowerCase html in
  let tests := patternTests env lower in
  {| Html.ssl_check := Some true;
     Html.has_social_media := Html.has_social_media tests;
     Html.has_click_to_call := Html.has_click_to_call tests;
     Html.has_video := Html.has_video tests;
     Html.has_chatbot := Html.has_chatbot tests;
     Html.has_booking := Html.has_booking tests;
     Html.has_meta_description := Html.has_meta_description tests;
     Html.has_h1 := Html.has_h1 tests;
     Html.has_analytics := Html.has_analytics tests;
     Html.has_schema := Html.has_schema tests |}.

(** The URL audited: the website, with https:// in front when it does
    not start with http. *)
Definition websiteUrlOf (website : string) : string :=
  if JS.startsWith website "http" then website else "https://" +:+ website.

(** [htmlChecks] after the [try { crawlWebsite ... } catch { }]. *)
Definition htmlChecksOf (websiteUrl : string) : Html.t :=
  match crawlWebsite websiteUrl with
  | Scrape.Normal html => if JS.truthy (Some html) then analyzeHTML html else Html.none
  | Scrape.Throw _ => Html.none
  end.

(** [{ ssl_check, mobile_score, speed_score, ...htmlChecks,
    overall_score: 0 }] followed by the assignment of the overall score:
    a key of [htmlChecks] replaces the one written before the spread. *)
Definition auditDataOf (websiteUrl : string) : Data.t :=
  let ssl_check := JS.startsWith websiteUrl "https" in
  let htmlChecks := htmlChecksOf websiteUrl in
  let '(mobile, speed) := getPageSpeedScores websiteUrl in
  let auditData :=
    {| Data.ssl_check := default ssl_check (Html.ssl_check htmlChecks);
       Data.mobile_score := mobile;
       Data.speed_score := speed;
       Data.has_social_media := Html.has_social_media htmlChecks;
       Data.has_click_to_call := Html.has_click_to_call htmlChecks;
       Data.has_video := Html.has_video htmlChecks;
       Data.has_chatbot := Html.has_chatbot htmlChecks;
       Data.has_booking := Html.has_booking htmlChecks;
       Data.has_meta_description := Html.has_meta_description htmlChecks;
       Data.has_h1 := Html.has_h1 htmlChecks;
       Data.has_analytics := Html.has_analytics htmlChecks;
       Data.has_schema := Html.has_schema htmlChecks;
       Data.overall_score := 0 |} in
  Data.setOverall (calculateAuditScore (Data.toChecks auditData)) auditData.

(** [if (c) leadScore += n]. *)
Definition addIf (c : bool) (n leadScore : Z) : Z :=
  if c then leadScore + n else leadScore.

(** [n && n < c] on a [number | null] column. *)
Definition truthyBelow (n : option JS.number) (c : Q) : bool :=
  match n with
  | Some x => JS.truthy_num x && JS.lt x c
  | None => false
  end.

(** The lead score of the audit, before [Math.min(100, leadScore)]. *)
Definition rawLeadScore (lead : Db.Lead) (auditData : Data.t) : Z :=
  let leadScore := 0 in
  let leadScore := addIf (JS.truthy (Db.phone lead)) 5 leadScore in
  let leadScore := addIf (JS.truthy (Db.email lead)) 10 leadScore in
  let leadScore := addIf (JS.truthy (Db.website lead)) 5 leadScore in
  let leadScore := addIf (negb (Data.ssl_check auditData)) 3 leadScore in
  let leadScore := addIf (JS.lt (Data.mobile_score auditData) 50) 3 leadScore in
  let leadScore := addIf (JS.lt (Data.speed_score auditData) 50) 3 leadScore in
  let leadScore := addIf (negb (Data.has_social_media auditData)) 3 leadScore in
  let leadScore := addIf (negb (Data.has_click_to_call auditData)) 3 leadScore in
  let leadScore := addIf (negb (Data.has_video auditData)) 2 leadScore in
  let leadScore := addIf (negb (Data.has_chatbot auditData)) 3 leadScore in
  let leadScore := addIf (negb (Data.has_booking auditData)) 3 leadScore in
  let leadScore := addIf (negb (Data.has_meta_description auditData)) 2 leadScore in
  let leadScore := addIf (negb (Data.has_h1 auditData)) 2 leadScore in
  let leadScore := addIf (negb (Data.has_analytics auditData)) 2 leadScore in
  let leadScore := addIf (negb (Data.has_schema auditData)) 1 leadScore in
  let leadScore :=
    if truthyBelow (Db.google_rating lead) 4 then leadScore + 10
    else if truthyBelow (Db.google_rating lead) (9 # 2) then leadScore + 5
    else leadScore in
  let leadScore :=
    if truthyBelow (Db.google_review_count lead) 20 then leadScore + 10
    else if truthyBelow (Db.google_review_count lead) 50 then leadScore + 5
    else leadScore in
  leadScore.

Definition leadScoreOf (lead : Db.Lead) (auditData : Data.t) : Z :=
  Z.min 100 (rawLeadScore lead auditData).

Definition gradeOfLeadScore (leadScore : Z) : string :=
  if leadScore >=? 90 then "A+"
  else if leadScore >=? 80 then "A"
  else if leadScore >=? 70 then "B"
  else if leadScore >=? 60 then "C"
  else if leadScore >=? 50 then "D"
  else "F".

Definition priorityOfLeadScore (leadScore : Z) : string :=
  if leadScore >=? 70 then "hot"
  else if leadScore >=? 40 then "warm"
  else "cold".

(** [POST]: the answer, the [leads] table and the [audits] table
    afterwards.  [leadId] is the field of the request body.  The entry
    that the handler adds to [activity_log] after the update is not part
    of this state. *)
Definition POST (leads : gmap string Db.Lead) (audits : list (string * Data.t))
    (leadId : option string)
    : Response * gmap string Db.Lead * list (string * Data.t) :=
  if negb (JS.truthy leadId) then (JsonError "leadId is required" 400, leads, audits)
  else
    let id := JS.orEmpty leadId in
    match leads !! id with
    | None => (JsonError "Lead not found" 404, leads, audits)
    | Some lead =>
        if negb (JS.truthy (Db.website lead))
        then (JsonError "Lead has no website to audit" 400, leads, audits)
        else
          let websiteUrl := websiteUrlOf (JS.orEmpty (Db.website lead)) in
          let auditData := auditDataOf websiteUrl in
          let audits := JS.push audits (id, auditData) in
          let leadScore := leadScoreOf lead auditData in
          let grade := gradeOfLeadScore leadScore in
          let priority := priorityOfLeadScore leadScore in
          let leads :=
            alter (Db.setAudit "complete" (Data.overall_score auditData) leadScore grade
                               priority (now env))
                  id leads in
          (Json auditData leadScore grade priority, leads, audits)
    end.

End Handler.

End Audit.

(* ===================================================================== *)
(** ** app/api/import/route.ts *)
(* ===================================================================== *)

Module ImportRoute.

Definition doubleQuote : ascii := "034"%char.
Definition singleQuote : ascii := "039"%char.
Definition comma : ascii := ","%char.
Definition lineFeed : ascii := "010"%char.

(** [s.split(c)] for a separator of one character. *)
Fixpoint splitOn (sep : ascii) (s : string) : list string :=
  match s with
  | EmptyString => [EmptyString]
  | String c s' =>
      if Ascii.eqb c sep then EmptyString :: splitOn sep s'
      else
        match splitOn sep s' with
        | x :: l => String c x :: l
        | [] => [String c EmptyString]
        end
  end.

(** The [replace] that removes every single and double quote. *)
Fixpoint removeQuotes (s : string) : string :=
  match s with
  | EmptyString => EmptyString
  | String c s' =>
      if Ascii.eqb c doubleQuote || Ascii.eqb c singleQuote
      then removeQuotes s' else String c (removeQuotes s')
  end.

Definition nonEmptyLines (text : string) : list string :=
  List.filter (fun l => (0 <? String.length l)%nat) (map JS.trim (splitOn lineFeed text)).

Definition headersOf (line : string) : list string :=
  map (fun h => JS.toLowerCase (JS.trim (removeQuotes h))) (splitOn comma line).

(** The [for (const char of line)] loop and the [push] after it. *)
Fixpoint splitValues (line : string) (values : list string) (current : string)
    (inQuotes : bool) : list string :=
  match line with
  | EmptyString => JS.push values (JS.trim current)
  | String char rest =>
      if Ascii.eqb char doubleQuote then splitValues rest values current (negb inQuotes)
      else if Ascii.eqb char comma && negb inQuotes
      then splitValues rest (JS.push values (JS.trim current)) EmptyString inQuotes
      else splitValues rest values (current +:+ String char EmptyString) inQuotes
  end.

(** [row[h] = v] on an object literal: the assignment of a string to
    the key __proto__ reaches the setter of [Object.prototype], which
    ignores it, and makes no property. *)
Definition assign (h v : string) (row : gmap string string) : gmap string string :=
  if String.eqb h "__proto__" then row else <[h := v]> row.

(** [headers.forEach((h, i) => { row[h] = values[i] || '' })], from the
    header of index [i] on. *)
Fixpoint fillRow (headers values : list string) (row : gmap string string)
    : gmap string string :=
  match headers with
  | [] => row
  | h :: headers' =>
      fillRow headers' (tail values) (assign h (JS.orEmpty (head values)) row)
  end.

Definition parseLine (headers : list string) (line : string) : gmap string string :=
  let values := splitValues line [] EmptyString false in
  fillRow headers values ∅.

Definition parseCSV (text : string) : list (gmap string string) :=
  let lines := nonEmptyLines text in
  if (length lines <? 2)%nat then []
  else
    let headers := headersOf (JS.orEmpty (head lines)) in
    map (parseLine headers) (drop 1 lines).

(** The result of [mapFields]: the ten fields, each a string or [null]. *)
Record Mapped := {
  business_name : option string;
  email : option string;
  phone : option string;
  website : option string;
  address : option string;
  city : option string;
  country : option string;
  instagram_url : option string;
  google_rating : option string;
  google_review_count : option string
}.

(** The inner loop over the aliases of one field, and the
    [if (!result[field]) result[field] = null] after it. *)
Fixpoint firstAlias (row : gmap string string) (aliases : list string) : option string :=
  match aliases with
  | [] => None
  | alias :: rest =>
      match row !! alias with
      | Some v => if negb (String.eqb v "") then Some v else firstAlias row rest
      | None => firstAlias row rest
      end
  end.

Definition mapField (row : gmap string string) (aliases : list string) : option string :=
  match firstAlias row aliases with
  | Some v => if JS.truthy (Some v) then Some v else None
  | None => None
  end.

Definition mapFields (row : gmap string string) : Mapped :=
  {| business_name :=
       mapField row ["business_name"; "business name"; "company"; "company name"; "name"; "business"];
     email := mapField row ["email"; "email address"; "e-mail"; "contact email"];
     phone := mapField row ["phone"; "phone number"; "telephone"; "tel"; "mobile"; "contact phone"];
     website := mapField row ["website"; "url"; "web"; "site"; "website url"; "domain"];
     address := mapField row ["address"; "full address"; "location"; "street address"; "street"];
     city := mapField row ["city"; "town"; "area"];
     country := mapField row ["country"; "nation"];
     instagram_url := mapField row ["instagram"; "instagram_url"; "ig"; "instagram url"];
     google_rating := mapField row ["rating"; "google_rating"; "google rating"; "stars"];
     google_review_count :=
       mapField row ["reviews"; "review_count"; "google_review_count"; "review count"; "num_reviews"] |}.

Record Env := {
  (** [parseFloat] and [parseInt] *)
  parseFloat : string -> JS.number;
  parseInt : string -> JS.number;
  (** whether the lookup of a business name with [maybeSingle] yields a
      row, given the rows of the table *)
  existing : list Db.Lead -> string -> bool;
  (** what the table stores of a row that passes the check of [source]
      (its numbers converted to [numeric(2,1)] and [integer], its
      defaults filled in); [None] when a column refuses its value *)
  stores : Db.Lead -> option Db.Lead
}.

Record Counters := {
  imported : nat;
  duplicates : nat;
  errors : nat
}.

Inductive Response : Type :=
  | Json (imported duplicates errors total : nat)
  | JsonError (error : string) (status : Z).

Section Handler.

Variable env : Env.

(** [v ? parse(v) : null]. *)
Definition parsed (parse : string -> JS.number) (v : option string) : option JS.number :=
  if JS.truthy v then Some (parse (JS.orEmpty v)) else None.

(** The object given to [calculateLeadScore]: no Instagram URL and no
    audit score are passed. *)
Definition scoreInput (mapped : Mapped) : Scoring.LeadInput :=
  {| Scoring.email := email mapped;
     Scoring.phone := phone mapped;
     Scoring.website := website mapped;
     Scoring.instagram_url := None;
     Scoring.google_rating := parsed (parseFloat env) (google_rating mapped);
     Scoring.google_review_count := parsed (parseInt env) (google_review_count mapped);
     Scoring.audit_score := None;
     Scoring.business_name := business_name mapped |}.

(** The object given to [insert] for [mapped], with the values as the
    handler computes them; what a table makes of them (a number that is
    not one goes out as null, a rating is rounded to one decimal) is
    left to [stores]. *)
Definition newLead (mapped : Mapped) : Db.Lead :=
  let scoreResult := Scoring.calculateLeadScore (scoreInput mapped) in
  {| Db.business_name := JS.orEmpty (business_name mapped);
     Db.address := address mapped;
     Db.city := city mapped;
     Db.country := country mapped;
     Db.phone := phone mapped;
     Db.email := email mapped;
     Db.website := website mapped;
     Db.instagram_url := instagram_url mapped;
     Db.google_rating := parsed (parseFloat env) (google_rating mapped);
     Db.google_review_count := parsed (parseInt env) (google_review_count mapped);
     Db.source := "csv_import";
     Db.lead_score := Some (Scoring.total scoreResult);
     Db.lead_grade := Some (Db.gradeString (Scoring.grade scoreResult));
     Db.lead_priority := Some (Db.priorityString (Scoring.priority scoreResult));
     Db.audit_score := None;
     Db.audit_status := None;
     Db.updated_at := None |}.

(** [supabase.from('leads').insert(row)]: the table afterwards.  The
    table refuses a row whose [source] fails the check of that column,
    and the client then answers with an error value, which the handler
    does not look at; of a row that passes the table stores what
    [stores] says. *)
Definition insert (row : Db.Lead) (leads : list Db.Lead) : list Db.Lead :=
  if Db.sourceCheck (Db.source row)
  then match stores env row with
       | Some stored => JS.push leads stored
       | None => leads
       end
  else leads.

(** One turn of [for (const row of rows)]: the table and the counters
    afterwards.  Nothing in the body throws: the table client answers
    with an error value; [imported] is counted whatever the insert
    answers. *)
Definition importRow (st : list Db.Lead * Counters) (row : gmap string string)
    : list Db.Lead * Counters :=
  let '(leads, n) := st in
  let mapped := mapFields row in
  if negb (JS.truthy (business_name mapped))
  then (leads, {| imported := imported n; duplicates := duplicates n; errors := S (errors n) |})
  else if existing env leads (JS.orEmpty (business_name mapped))
  then (leads, {| imported := imported n; duplicates := S (duplicates n); errors := errors n |})
  else (insert (newLead mapped) leads,
        {| imported := S (imported n); duplicates := duplicates n; errors := errors n |}).

(** [POST]; [file] is the text of the uploaded file, if there is one.
    The answer, the table [leads] and the table [activity_log]
    afterwards. *)
Definition POST (leads : list Db.Lead) (activity_log : list Db.Activity)
    (file : option string) : Response * list Db.Lead * list Db.Activity :=
  match file with
  | None => (JsonError "No file uploaded" 400, leads, activity_log)
  | Some text =>
      let rows := parseCSV text in
      if (length rows =? 0)%nat
      then (JsonError "No data rows found in CSV" 400, leads, activity_log)
      else
        let '(leads', n) :=
          foldl importRow (leads, {| imported := 0; duplicates := 0; errors := 0 |}) rows in
        (Json (imported n) (duplicates n) (errors n) (length rows), leads',
         JS.push activity_log
           {| Db.action_type := "scrape";
              Db.description :=
                Db.CsvImport (imported n) (duplicates n) (errors n) (length rows);
              Db.lead_id := None;
              Db.metadata := None |})
  end.

End Handler.

End ImportRoute.

(* ===================================================================== *)
(** ** app/api/scrape/route.ts: [safeArray] and [matchesLocation] *)
(* ===================================================================== *)

Module ScrapeJson.

(** A decoded JSON value; an object is the list of its keys and values. *)
Inductive json : Type :=
  | JNull
  | JBool (b : bool)
  | JNumber (n : JS.number)
  | JString (s : string)
  | JArray (items : list json)
  | JObject (fields : list (string * json)).

(** [obj[key]]. *)
Fixpoint get (key : string) (fields : list (string * json)) : option json :=
  match fields with
  | [] => None
  | (k, v) :: rest => if String.eqb k key then Some v else get key rest
  end.

(** [item !== null && typeof item === 'object' && !Array.isArray(item)]. *)
Definition isRecord (item : json) : bool :=
  match item with
  | JObject _ => true
  | _ => false
  end.

(** The [Array.isArray(data)] branch of [safeArray]. *)
Definition safeArrayOfItems (data : list json) : list json :=
  match data with
  | JArray first :: _ => List.filter isRecord first
  | _ => List.filter isRecord data
  end.

(** [safeArray]; a falsy [data] is neither an array nor an object, and
    the two calls of [safeArray] on [obj.data] and [obj.results] are made
    on arrays. *)
Definition safeArray (data : json) : list json :=
  match data with
  | JArray items => safeArrayOfItems items
  | JObject obj =>
      match get "data" obj with
      | Some (JArray items) => safeArrayOfItems items
      | _ =>
          match get "results" obj with
          | Some (JArray items) => safeArrayOfItems items
          | _ => []
          end
      end
  | _ => []
  end.

(** [typeof field === 'string' && field.toLowerCase().includes(loc)]. *)
Definition fieldMatches (loc : string) (field : option json) : bool :=
  match field with
  | Some (JString s) => JS.includes (JS.toLowerCase s) loc
  | _ => false
  end.

Definition matchesLocation (result : list (string * json)) (searchLocation : string) : bool :=
  let loc := JS.trim (JS.toLowerCase searchLocation) in
  let fieldsToCheck :=
    [get "address" result; get "full_address" result; get "city" result;
     get "area" result; get "state" result; get "suburb" result] in
  existsb (fieldMatches loc) fieldsToCheck.

End ScrapeJson.

(* ===================================================================== *)
(** ** Properties of [calculateLeadScore] *)
(* ===================================================================== *)

Module ScoringFacts.
Import Scoring.

Ltac split_ifs :=
  repeat match goal with
         | |- context [if ?b then _ else _] => destruct b
         | |- context [match ?o with Some _ => _ | None => _ end] => destruct o
         end.

Lemma completeness_bounds (l : LeadInput) : 0 <= completeness l <= 10.
Proof. unfold completeness. split_ifs; lia. Qed.

Lemma socialScore_bounds (l : LeadInput) : 0 <= socialScore l <= 10.
Proof. unfold socialScore. split_ifs; lia. Qed.

Lemma websiteScore_bounds (l : LeadInput) : 5 <= websiteScore l <= 25.
Proof. unfold websiteScore. split_ifs; lia. Qed.

Lemma reviewScore_bounds (l : LeadInput) : 0 <= reviewScore l <= 15.
Proof. unfold reviewScore. split_ifs; lia. Qed.

Lemma total_eq (l : LeadInput) :
  total (calculateLeadScore l) =
  emailScore l + phoneScore l + websiteScore l + reviewScore l + socialScore l + completeness l.
Proof. unfold calculateLeadScore. simpl. lia. Qed.

(** C1, as stated, fails: for the lead about which nothing else is known,
    an email adds 28 points to the total and a phone adds 17, not 25
    and 15. *)
Lemma email_adds_more_than_25 :
  total (calculateLeadScore (with_email (Some "info@acme.com") blankLead))
    = total (calculateLeadScore (with_email None blankLead)) + 28
  /\ total (calculateLeadScore (with_email (Some "info@acme.com") blankLead))
    <> total (calculateLeadScore (with_email None blankLead)) + 25
  /\ total (calculateLeadScore (with_phone (Some "020 7946 0000") blankLead))
    = total (calculateLeadScore (with_phone None blankLead)) + 17
  /\ total (calculateLeadScore (with_phone (Some "020 7946 0000") blankLead))
    <> total (calculateLeadScore (with_phone None blankLead)) + 15.
Proof. vm_compute. repeat split; congruence. Qed.

(** C1 (amended): between two leads that differ only in the email, absent
    (null, undefined or empty) in one and present in the other, the
    "Email Available" factor goes from 0 to 25 and the total increases by
    exactly 28, the 3 further points being those of "Data Completeness";
    for the phone the factor goes from 0 to 15 and the total increases by
    exactly 17 (15 + 2). *)
Theorem email_phone_increase (l : LeadInput) (absent present : option string)
    (Habsent : JS.truthy absent = false) (Hpresent : JS.truthy present = true) :
  (total (calculateLeadScore (with_email present l))
     = total (calculateLeadScore (with_email absent l)) + 28
   /\ factorScore "Email Available" (calculateLeadScore (with_email absent l)) = Some 0
   /\ factorScore "Email Available" (calculateLeadScore (with_email present l)) = Some 25
   /\ factorScore "Data Completeness" (calculateLeadScore (with_email present l))
      = (fun c => c + 3) <$> factorScore "Data Completeness" (calculateLeadScore (with_email absent l)))
  /\
  (total (calculateLeadScore (with_phone present l))
     = total (calculateLeadScore (with_phone absent l)) + 17
   /\ factorScore "Phone Available" (calculateLeadScore (with_phone absent l)) = Some 0
   /\ factorScore "Phone Available" (calculateLeadScore (with_phone present l)) = Some 15
   /\ factorScore "Data Completeness" (calculateLeadScore (with_phone present l))
      = (fun c => c + 2) <$> factorScore "Data Completeness" (calculateLeadScore (with_phone absent l))).
Proof.
  split.
  - rewrite !total_eq.
    unfold factorScore, calculateLeadScore, emailScore, phoneScore, websiteScore,
      reviewScore, socialScore, completeness; simpl.
    rewrite Habsent, Hpresent.
    repeat split; try reflexivity; try (f_equal; split_ifs; lia).
    split_ifs; lia.
  - rewrite !total_eq.
    unfold factorScore, calculateLeadScore, emailScore, phoneScore, websiteScore,
      reviewScore, socialScore, completeness; simpl.
    rewrite Habsent, Hpresent.
    repeat split; try reflexivity; try (f_equal; split_ifs; lia).
    split_ifs; lia.
Qed.

Lemma email_phone_increase_witness :
  total (calculateLeadScore (with_email (Some "info@acme.com") blankLead))
    = total (calculateLeadScore (with_email None blankLead)) + 28.
Proof.
  apply (email_phone_increase blankLead None (Some "info@acme.com")); reflexivity.
Defined.

(** C2: the grade and the priority are read off the total by the fixed
    thresholds (A from 80, B from 65, C from 50, D from 35, else F; hot
    from 70, warm from 45, else cold), and the thresholds give the
    documented grade and priority at 34, 35, 49, 50, 64, 65, 69, 70, 79
    and 80. *)
Theorem grade_priority_thresholds (l : LeadInput) :
  let r := calculateLeadScore l in
  (grade r = gradeOf (total r) /\ priority r = priorityOf (total r))
  /\ (grade r = GradeA <-> 80 <= total r)
  /\ (grade r = GradeB <-> 65 <= total r < 80)
  /\ (grade r = GradeC <-> 50 <= total r < 65)
  /\ (grade r = GradeD <-> 35 <= total r < 50)
  /\ (grade r = GradeF <-> total r < 35)
  /\ (priority r = hot <-> 70 <= total r)
  /\ (priority r = warm <-> 45 <= total r < 70)
  /\ (priority r = cold <-> total r < 45)
  /\ map (fun t => (t, gradeOf t, priorityOf t)) [34; 35; 49; 50; 64; 65; 69; 70; 79; 80]
     = [(34, GradeF, cold); (35, GradeD, cold); (49, GradeD, warm); (50, GradeC, warm);
        (64, GradeC, warm); (65, GradeB, warm); (69, GradeB, warm); (70, GradeB, hot);
        (79, GradeB, hot); (80, GradeA, hot)].
Proof.
  intros r.
  assert (Hg : grade r = gradeOf (total r)) by reflexivity.
  assert (Hp : priority r = priorityOf (total r)) by reflexivity.
  split; [split; assumption|].
  rewrite Hg, Hp. generalize (total r) as t. intros t.
  unfold gradeOf, priorityOf.
  destruct (Z.geb_spec t 80), (Z.geb_spec t 65), (Z.geb_spec t 50), (Z.geb_spec t 35),
    (Z.geb_spec t 70), (Z.geb_spec t 45);
    try lia; repeat split; intros; try lia; try congruence.
Qed.

Fixpoint sumZ (l : list Z) : Z :=
  match l with
  | [] => 0
  | x :: l' => x + sumZ l'
  end.

(** C9: the total lies between 0 and 100; the six factors are bounded by
    25, 15, 25, 15, 10 and 10, and the total is their sum, so that the
    code needs (and has) no clamping. *)
Theorem total_in_range (l : LeadInput) :
  let r := calculateLeadScore l in
  0 <= total r <= 100
  /\ map maxScore (factors r) = [25; 15; 25; 15; 10; 10]
  /\ Forall (fun f => 0 <= score f <= maxScore f) (factors r)
  /\ total r = sumZ (map score (factors r)).
Proof.
  intros r. subst r.
  pose proof (completeness_bounds l). pose proof (socialScore_bounds l).
  pose proof (websiteScore_bounds l). pose proof (reviewScore_bounds l).
  assert (He : 0 <= emailScore l <= 25) by (unfold emailScore; split_ifs; lia).
  assert (Hph : 0 <= phoneScore l <= 15) by (unfold phoneScore; split_ifs; lia).
  rewrite total_eq.
  split; [lia|]. split; [reflexivity|]. split.
  - unfold calculateLeadScore; simpl.
    repeat (apply Forall_cons; split; [simpl; lia|]). apply Forall_nil; exact I.
  - unfold calculateLeadScore; simpl. lia.
Qed.

End ScoringFacts.

(* ===================================================================== *)
(** ** Properties of the de-duplication *)
(* ===================================================================== *)

Module DedupeFacts.
Import Scrape.

(** A candidate of which only the name is known. *)
Definition named (n : string) : LeadResult :=
  {| business_name := n; address := None; city := None; country := None;
     phone := None; email := None; website := None; instagram_url := None;
     google_rating := None; google_review_count := None;
     google_maps_url := None; source := "google_maps" |}.

(** Whether the callback keeps a candidate, given the set so far. *)
Definition keeps (seen : gset string) (r : LeadResult) : bool :=
  (2 <=? String.length (dedupeKey r))%nat && negb (bool_decide (dedupeKey r ∈ seen)).

Section FilterWith.
Context {A S : Type} (f : S -> A -> bool * S).

Lemma fst_filterWith_cons (s : S) (x : A) (l : list A) :
  fst (filterWith f s (x :: l)) =
  (if fst (f s x) then [x] else []) ++ fst (filterWith f (snd (f s x)) l).
Proof.
  simpl. destruct (f s x) as [keep s']. simpl.
  destruct (filterWith f s' l) as [kept s'']. simpl. destruct keep; reflexivity.
Qed.

Lemma snd_filterWith_cons (s : S) (x : A) (l : list A) :
  snd (filterWith f s (x :: l)) = snd (filterWith f (snd (f s x)) l).
Proof.
  simpl. destruct (f s x) as [keep s']. simpl.
  destruct (filterWith f s' l) as [kept s'']. reflexivity.
Qed.

Lemma fst_filterWith_app (s : S) (l1 l2 : list A) :
  fst (filterWith f s (l1 ++ l2)) =
  fst (filterWith f s l1) ++ fst (filterWith f (snd (filterWith f s l1)) l2).
Proof.
  revert s. induction l1 as [|x l1 IH]; intros s.
  - reflexivity.
  - rewrite <- app_comm_cons, !fst_filterWith_cons, snd_filterWith_cons, IH.
    rewrite app_assoc. reflexivity.
Qed.

Lemma filterWith_sublist (s : S) (l : list A) : fst (filterWith f s l) `sublist_of` l.
Proof.
  revert s. induction l as [|x l IH]; intros s.
  - constructor.
  - rewrite fst_filterWith_cons. destruct (fst (f s x)); simpl.
    + apply sublist_skip, IH.
    + apply sublist_cons, IH.
Qed.

End FilterWith.

Lemma dedupeKey_empty_name (r : LeadResult) : business_name r = "" -> dedupeKey r = "".
Proof. unfold dedupeKey. intros ->. reflexivity. Qed.

Lemma truthy_length (s : string) : JS.truthy (Some s) = (0 <? String.length s)%nat.
Proof. destruct s; reflexivity. Qed.

Lemma dedupeStep_keeps (seen : gset string) (r : LeadResult) :
  dedupeStep seen r =
  if keeps seen r then (true, {[ dedupeKey r ]} ∪ seen) else (false, seen).
Proof.
  unfold dedupeStep, keeps. rewrite !truthy_length.
  destruct (business_name r) as [|c n] eqn:Hn.
  - rewrite (dedupeKey_empty_name r Hn). reflexivity.
  - destruct (String.length (dedupeKey r)) as [|[|m]]; try reflexivity.
    simpl. destruct (bool_decide (dedupeKey r ∈ seen)); reflexivity.
Qed.

Lemma keeps_true (seen : gset string) (r : LeadResult) :
  keeps seen r = true <-> (2 <= String.length (dedupeKey r))%nat /\ dedupeKey r ∉ seen.
Proof.
  unfold keeps. rewrite andb_true_iff, negb_true_iff, bool_decide_eq_false, Nat.leb_le.
  reflexivity.
Qed.

(** The [seen] set after a run over [l]: what was in it, and the keys of
    two characters or more met in [l]. *)
Lemma seen_filterWith (seen : gset string) (l : list LeadResult) (k : string) :
  k ∈ snd (filterWith dedupeStep seen l) <->
  k ∈ seen \/ ((2 <= String.length k)%nat /\ exists r, r ∈ l /\ dedupeKey r = k).
Proof.
  revert seen. induction l as [|x l IH]; intros seen.
  - simpl. split; [auto|]. intros [H|(_ & r & Hr & _)]; [exact H|]. inversion Hr.
  - rewrite snd_filterWith_cons, IH, dedupeStep_keeps.
    destruct (keeps seen x) eqn:Hkeep; simpl.
    + apply keeps_true in Hkeep as [Hlen Hnot]. split.
      * intros [Hin|(Hk & r & Hr & Hkey)].
        -- apply elem_of_union in Hin as [Hin|Hin]; [|auto].
           apply elem_of_singleton in Hin. subst k. right. split; [exact Hlen|].
           exists x. split; [left|reflexivity].
        -- right. split; [exact Hk|]. exists r. split; [right; exact Hr|exact Hkey].
      * intros [Hin|(Hk & r & Hr & Hkey)].
        -- left. set_solver.
        -- apply elem_of_cons in Hr as [->|Hr].
           ++ left. set_solver.
           ++ right. split; [exact Hk|]. exists r. auto.
    + split.
      * intros [Hin|(Hk & r & Hr & Hkey)]; [auto|].
        right. split; [exact Hk|]. exists r. split; [right; exact Hr|exact Hkey].
      * intros [Hin|(Hk & r & Hr & Hkey)]; [auto|].
        apply elem_of_cons in Hr as [->|Hr].
        -- left. destruct (decide (dedupeKey x ∈ seen)) as [Hin|Hnin]; [congruence|].
           exfalso. assert (keeps seen x = true) by (apply keeps_true; subst k; auto).
           congruence.
        -- right. split; [exact Hk|]. exists r. auto.
Qed.

(** The survivors of a run have keys of two characters or more, outside
    the initial set and pairwise different. *)
Lemma survivors_fresh (seen : gset string) (l : list LeadResult) :
  Forall (fun r => (2 <= String.length (dedupeKey r))%nat /\ dedupeKey r ∉ seen)
         (fst (filterWith dedupeStep seen l))
  /\ NoDup (map dedupeKey (fst (filterWith dedupeStep seen l))).
Proof.
  revert seen. induction l as [|x l IH]; intros seen.
  - simpl. split; constructor.
  - rewrite fst_filterWith_cons, dedupeStep_keeps.
    destruct (keeps seen x) eqn:Hkeep; simpl.
    + apply keeps_true in Hkeep as [Hlen Hnot].
      destruct (IH ({[dedupeKey x]} ∪ seen)) as [Hall Hnd]. split.
      * constructor; [auto|].
        eapply Forall_impl; [exact Hall|]. simpl. intros r [? ?]. split; [assumption|set_solver].
      * constructor; [|exact Hnd].
        intros Hin. apply list_elem_of_fmap in Hin as (r & Heq & Hr).
        rewrite Forall_forall in Hall. apply Hall in Hr as [_ Hr]. set_solver.
    + apply IH.
Qed.

(** A list whose keys are long enough, new and pairwise different goes
    through unchanged. *)
Lemma filterWith_fixed (seen : gset string) (l : list LeadResult) :
  Forall (fun r => (2 <= String.length (dedupeKey r))%nat /\ dedupeKey r ∉ seen) l ->
  NoDup (map dedupeKey l) ->
  fst (filterWith dedupeStep seen l) = l.
Proof.
  revert seen. induction l as [|x l IH]; intros seen Hall Hnd.
  - reflexivity.
  - apply Forall_cons in Hall as [[Hlen Hnot] Hall].
    simpl in Hnd. apply NoDup_cons in Hnd as [Hx Hnd].
    rewrite fst_filterWith_cons, dedupeStep_keeps.
    assert (Hkeep : keeps seen x = true) by (apply keeps_true; auto).
    rewrite Hkeep. simpl. f_equal. apply IH; [|exact Hnd].
    rewrite Forall_forall in Hall |- *. intros r Hr. destruct (Hall r Hr) as [? ?].
    split; [assumption|].
    intros Hin. apply elem_of_union in Hin as [Hin|Hin]; [|contradiction].
    apply elem_of_singleton in Hin. apply Hx. rewrite <- Hin.
    apply list_elem_of_fmap. exists r. auto.
Qed.

Lemma dedupe_idempotent (l : list LeadResult) : dedupe (dedupe l) = dedupe l.
Proof.
  unfold dedupe. destruct (survivors_fresh ∅ l) as [Hall Hnd].
  apply filterWith_fixed; assumption.
Qed.

Lemma seen_survivors (seen : gset string) (l : list LeadResult) (k : string) :
  k ∈ snd (filterWith dedupeStep seen l) <->
  k ∈ seen \/ k ∈ map dedupeKey (fst (filterWith dedupeStep seen l)).
Proof.
  revert seen. induction l as [|x l IH]; intros seen.
  - simpl. split; [auto|]. intros [H|H]; [exact H|inversion H].
  - rewrite snd_filterWith_cons, fst_filterWith_cons, IH, dedupeStep_keeps.
    destruct (keeps seen x); simpl; [|reflexivity].
    rewrite elem_of_union, elem_of_singleton, elem_of_cons. tauto.
Qed.

Lemma one_with_key (l : list LeadResult) (k : string) :
  NoDup (map dedupeKey l) -> k ∈ map dedupeKey l ->
  length (List.filter (fun r => String.eqb (dedupeKey r) k) l) = 1%nat.
Proof.
  induction l as [|x l IH]; intros Hnd Hin.
  - inversion Hin.
  - simpl in Hnd, Hin. apply NoDup_cons in Hnd as [Hx Hnd]. simpl.
    destruct (String.eqb_spec (dedupeKey x) k) as [Heq|Hne].
    + simpl. f_equal. subst k.
      assert (Hnone : forall l', dedupeKey x ∉ map dedupeKey l' ->
                List.filter (fun r => String.eqb (dedupeKey r) (dedupeKey x)) l' = []).
      { induction l' as [|y l' IH']; intros Hy; [reflexivity|]. simpl.
        simpl in Hy. apply not_elem_of_cons in Hy as [Hy1 Hy2].
        destruct (String.eqb_spec (dedupeKey y) (dedupeKey x)); [congruence|]. auto. }
      rewrite Hnone; [reflexivity|exact Hx].
    + apply elem_of_cons in Hin as [Hin|Hin]; [congruence|]. auto.
Qed.

Lemma isSpace_lowerChar (c : ascii) : JS.isSpace (JS.lowerChar c) = JS.isSpace c.
Proof. destruct c as [[] [] [] [] [] [] [] []]; reflexivity. Qed.

Lemma trimStart_toLowerCase (s : string) :
  JS.trimStart (JS.toLowerCase s) = JS.toLowerCase (JS.trimStart s).
Proof.
  induction s as [|c s IH]; [reflexivity|]. simpl.
  rewrite isSpace_lowerChar. destruct (JS.isSpace c); [exact IH|reflexivity].
Qed.

Lemma trimEnd_toLowerCase (s : string) :
  JS.trimEnd (JS.toLowerCase s) = JS.toLowerCase (JS.trimEnd s).
Proof.
  induction s as [|c s IH]; [reflexivity|]. simpl.
  rewrite IH, isSpace_lowerChar.
  destruct (JS.trimEnd s); simpl; [destruct (JS.isSpace c)|]; reflexivity.
Qed.

Lemma trim_toLowerCase (s : string) :
  JS.trim (JS.toLowerCase s) = JS.toLowerCase (JS.trim s).
Proof. unfold JS.trim. rewrite trimStart_toLowerCase, trimEnd_toLowerCase. reflexivity. Qed.

Lemma droppedAfter_iff (pre : list LeadResult) (r : LeadResult) :
  droppedAfter pre r = true <->
  (String.length (dedupeKey r) < 2)%nat \/ exists r', r' ∈ pre /\ dedupeKey r' = dedupeKey r.
Proof.
  unfold droppedAfter, seenAfter. rewrite dedupeStep_keeps.
  set (seen := snd (filterWith dedupeStep ∅ pre)).
  assert (Hseen : dedupeKey r ∈ seen <->
            (2 <= String.length (dedupeKey r))%nat /\ exists r', r' ∈ pre /\ dedupeKey r' = dedupeKey r).
  { subst seen. rewrite seen_filterWith. split; [|auto]. intros [H|H]; [set_solver|exact H]. }
  destruct (keeps seen r) eqn:Hkeep; simpl.
  - apply keeps_true in Hkeep as [Hlen Hnot]. split; [discriminate|].
    intros [Hlt|Hex]; [lia|]. exfalso. apply Hnot, Hseen. auto.
  - split; [intros _|reflexivity].
    destruct (Nat.lt_ge_cases (String.length (dedupeKey r)) 2) as [Hlt|Hge]; [auto|].
    right. apply Hseen.
    destruct (decide (dedupeKey r ∈ seen)) as [Hin|Hnin]; [exact Hin|].
    exfalso. assert (keeps seen r = true) by (apply keeps_true; auto). congruence.
Qed.

(** C3, as stated, fails: two candidates called "A" and "a" differ only
    in letter case, and neither survives. *)
Lemma one_letter_names_leave_no_survivor :
  dedupeKey (named "A") = dedupeKey (named "a")
  /\ dedupe [named "A"; named "a"] = []
  /\ length (List.filter (fun r => String.eqb (dedupeKey r) (dedupeKey (named "A")))
                         (dedupe [named "A"; named "a"])) <> 1%nat.
Proof. vm_compute. repeat split; congruence. Qed.

(** C3 (amended): the de-duplication is idempotent, and a list with two
    candidates whose names differ only in letter case and surrounding
    white space (their normalized names are equal) keeps exactly one
    entry of that name, provided the normalized name has at least two
    characters. *)
Theorem dedupe_idempotent_one_survivor :
  (forall l : list LeadResult, dedupe (dedupe l) = dedupe l)
  /\ (forall (l1 l2 l3 : list LeadResult) (a b : LeadResult),
        dedupeKey a = dedupeKey b ->
        (2 <= String.length (dedupeKey a))%nat ->
        length (List.filter (fun r => String.eqb (dedupeKey r) (dedupeKey a))
                            (dedupe (l1 ++ a :: l2 ++ b :: l3))) = 1%nat).
Proof.
  split; [exact dedupe_idempotent|].
  intros l1 l2 l3 a b Hab Hlen. unfold dedupe.
  destruct (survivors_fresh ∅ (l1 ++ a :: l2 ++ b :: l3)) as [_ Hnd].
  apply one_with_key; [exact Hnd|].
  assert (Hin : dedupeKey a ∈ snd (filterWith dedupeStep ∅ (l1 ++ a :: l2 ++ b :: l3))).
  { apply seen_filterWith. right. split; [exact Hlen|].
    exists a. split; [|reflexivity]. apply elem_of_app. right. left. }
  apply seen_survivors in Hin as [Hin|Hin]; [set_solver|exact Hin].
Qed.

Lemma dedupe_idempotent_one_survivor_witness :
  length (List.filter (fun r => String.eqb (dedupeKey r) (dedupeKey (named "Glow Spa")))
            (dedupe ([named "Zen"] ++ named "Glow Spa" :: [named "Mint"] ++ named " GLOW spa " :: [])))
  = 1%nat.
Proof.
  apply (proj2 dedupe_idempotent_one_survivor [named "Zen"] [named "Mint"] []
               (named "Glow Spa") (named " GLOW spa ")).
  - reflexivity.
  - vm_compute. lia.
Defined.

(** C4, as stated, fails: a candidate called "A" comes first, its name is
    neither empty nor white space only, and it is dropped. *)
Lemma one_letter_name_is_dropped :
  droppedAfter [] (named "A") = true
  /\ dedupe ([] ++ named "A" :: []) = []
  /\ business_name (named "A") <> ""
  /\ JS.trim (business_name (named "A")) <> ""
  /\ ~ (exists r', r' ∈ @nil LeadResult /\ dedupeKey r' = dedupeKey (named "A")).
Proof.
  repeat split; try (vm_compute; congruence).
  intros (r' & Hr & _). inversion Hr.
Qed.

(** C4 (amended): a candidate is keyed by its business name lower-cased
    and trimmed; visited after the candidates [pre], it is dropped if and
    only if that key has fewer than two characters (so in particular when
    the name is empty or white space only) or a candidate of [pre] has the
    same key; the survivors come in arrival order, and what follows a
    candidate does not change whether it survives. *)
Theorem dedupe_keeps_first (pre post : list LeadResult) (r : LeadResult) :
  dedupeKey r = JS.trim (JS.toLowerCase (business_name r))
  /\ (droppedAfter pre r = true <->
      (String.length (dedupeKey r) < 2)%nat
      \/ exists r', r' ∈ pre /\ dedupeKey r' = dedupeKey r)
  /\ (JS.trim (business_name r) = "" -> droppedAfter pre r = true)
  /\ exists tail,
       tail `sublist_of` post
       /\ dedupe (pre ++ r :: post)
          = dedupe pre ++ (if droppedAfter pre r then [] else [r]) ++ tail.
Proof.
  split; [reflexivity|]. split; [apply droppedAfter_iff|]. split.
  - intros Hws. apply droppedAfter_iff. left.
    unfold dedupeKey. rewrite trim_toLowerCase, Hws. simpl. lia.
  - exists (fst (filterWith dedupeStep (snd (dedupeStep (seenAfter pre) r)) post)).
    split; [apply filterWith_sublist|].
    unfold dedupe. rewrite fst_filterWith_app, fst_filterWith_cons.
    unfold droppedAfter, seenAfter.
    destruct (fst (dedupeStep (snd (filterWith dedupeStep ∅ pre)) r)); reflexivity.
Qed.

Lemma dedupe_keeps_first_witness :
  droppedAfter [named "Zen"] (named "   ") = true.
Proof.
  apply (dedupe_keeps_first [named "Zen"] [] (named "   ")). reflexivity.
Defined.

End DedupeFacts.

(* ===================================================================== *)
(** ** Properties of the location filter *)
(* ===================================================================== *)

Module LocationFacts.
Import Scrape.

Lemma append_cons (c : ascii) (s t : string) : String c s +:+ t = String c (s +:+ t).
Proof. reflexivity. Qed.

Lemma append_nil_l (t : string) : "" +:+ t = t.
Proof. reflexivity. Qed.

Lemma append_nil_r (s : string) : s +:+ "" = s.
Proof. induction s as [|c s IH]; [reflexivity|]. rewrite append_cons, IH. reflexivity. Qed.

Lemma append_assoc (s t u : string) : (s +:+ t) +:+ u = s +:+ (t +:+ u).
Proof. induction s as [|c s IH]; [reflexivity|]. rewrite !append_cons, IH. reflexivity. Qed.

Lemma prefix_iff (t s : string) : String.prefix t s = true <-> exists b, s = t +:+ b.
Proof.
  revert s. induction t as [|c t IH]; intros s.
  - split; [intros _; exists s; reflexivity|intros _; destruct s; reflexivity].
  - destruct s as [|d s]; simpl.
    + split; [discriminate|]. intros [b Hb]. discriminate.
    + destruct (Ascii.ascii_dec c d) as [->|Hne].
      * rewrite IH. split; intros [b Hb]; exists b.
        -- rewrite append_cons. congruence.
        -- rewrite append_cons in Hb. congruence.
      * split; [discriminate|]. intros [b Hb]. rewrite append_cons in Hb. congruence.
Qed.

(** [includes] is the substring test. *)
Lemma includes_iff (s t : string) :
  JS.includes s t = true <-> exists a b, s = a +:+ t +:+ b.
Proof.
  induction s as [|c s IH].
  - change (JS.includes "" t) with (String.prefix t ""). rewrite prefix_iff. split.
    + intros [b Hb]. exists "", b. exact Hb.
    + intros (a & b & Hab). destruct a; [exists b; exact Hab|discriminate].
  - change (JS.includes (String c s) t) with (String.prefix t (String c s) || JS.includes s t).
    rewrite orb_true_iff, prefix_iff, IH. split.
    + intros [[b Hb]|(a & b & Hab)].
      * exists "", b. exact Hb.
      * exists (String c a), b. rewrite append_cons. congruence.
    + intros (a & b & Hab). destruct a as [|d a].
      * left. exists b. exact Hab.
      * right. rewrite append_cons in Hab. exists a, b. congruence.
Qed.

Lemma trimStart_suffix (s : string) : exists a, s = a +:+ JS.trimStart s.
Proof.
  induction s as [|c s [a IH]]; [exists ""; reflexivity|]. simpl.
  destruct (JS.isSpace c).
  - exists (String c a). rewrite append_cons. congruence.
  - exists "". reflexivity.
Qed.

Lemma trimEnd_prefix (s : string) : exists b, s = JS.trimEnd s +:+ b.
Proof.
  induction s as [|c s [b IH]]; [exists ""; reflexivity|]. simpl.
  destruct (JS.trimEnd s) as [|d t] eqn:Ht.
  - destruct (JS.isSpace c).
    + exists (String c s). reflexivity.
    + exists b. rewrite append_cons, append_nil_l. rewrite append_nil_l in IH. congruence.
  - exists b. rewrite append_cons. congruence.
Qed.

Lemma trim_inside (s : string) : exists a b, s = a +:+ JS.trim s +:+ b.
Proof.
  unfold JS.trim. destruct (trimStart_suffix s) as [a Ha].
  destruct (trimEnd_prefix (JS.trimStart s)) as [b Hb].
  exists a, b. rewrite <- Hb. exact Ha.
Qed.

(** A text that contains [t] contains [t] trimmed. *)
Lemma includes_trim (s t : string) :
  JS.includes s t = true -> JS.includes s (JS.trim t) = true.
Proof.
  rewrite !includes_iff. intros (x & y & Hs).
  destruct (trim_inside t) as (a & b & Ht).
  exists (x +:+ a), (b +:+ y). rewrite Hs. rewrite Ht at 1.
  rewrite !append_assoc. reflexivity.
Qed.

(** The field [v] contains the requested location, letter case aside. *)
Definition mentions (v : option string) (location : string) : bool :=
  JS.includes (JS.toLowerCase (JS.orEmpty v)) (JS.toLowerCase location).

Definition inParis (n : nat) : LeadResult :=
  {| business_name := "Salon"; address := Some "1 rue de Rivoli"; city := Some "Paris";
     country := Some "France"; phone := None; email := None; website := None;
     instagram_url := None; google_rating := None; google_review_count := Some (JS.Num (inject_Z (Z.of_nat n)));
     google_maps_url := None; source := "google_maps" |}.

(** C5, as stated, fails: of 31 candidates none of which is in the
    requested location, 30 are returned, not the unfiltered list. *)
Lemma unfiltered_fallback_is_cut_at_30 :
  List.filter (inLocation "London") (map inParis (seq 0 31)) = []
  /\ length (locationFilter (map inParis (seq 0 31)) "London") = 30%nat
  /\ locationFilter (map inParis (seq 0 31)) "London" <> map inParis (seq 0 31).
Proof.
  split; [vm_compute; reflexivity|]. split; [vm_compute; reflexivity|].
  intros H. apply (f_equal (@length LeadResult)) in H. vm_compute in H. discriminate.
Qed.

(** C5 (amended): the result of the location filter is non-empty when the
    candidate list is; it consists of the first 30 candidates whose
    address or city contains the requested location (lower-cased and
    trimmed) as a case-insensitive substring, a candidate whose address
    or city contains the location as given being one of them; when no
    candidate qualifies, the first 30 candidates of the unfiltered list
    are returned instead. *)
Theorem locationFilter_first_30 (mapped : list LeadResult) (location : string) :
  let filtered := List.filter (inLocation location) mapped in
  (mapped <> [] -> locationFilter mapped location <> [])
  /\ locationFilter mapped location
     = take 30 (match filtered with [] => mapped | _ => filtered end)
  /\ (forall r, mentions (address r) location = true \/ mentions (city r) location = true ->
                inLocation location r = true)
  /\ (forall r, inLocation location r = true <->
                JS.includes (JS.toLowerCase (JS.orEmpty (address r))) (JS.trim (JS.toLowerCase location)) = true
                \/ JS.includes (JS.toLowerCase (JS.orEmpty (city r))) (JS.trim (JS.toLowerCase location)) = true).
Proof.
  intros filtered.
  assert (Heq : locationFilter mapped location
                = take 30 (match filtered with [] => mapped | _ => filtered end)).
  { unfold locationFilter, JS.slice. fold filtered. destruct filtered; reflexivity. }
  split; [|split; [exact Heq|split]].
  - intros Hne. rewrite Heq. destruct filtered as [|x f]; [|discriminate].
    destruct mapped; [congruence|discriminate].
  - intros r [H|H]; unfold mentions in H; apply includes_trim in H;
      unfold inLocation; rewrite H; rewrite ?orb_true_r; reflexivity.
  - intros r. unfold inLocation. rewrite !orb_true_iff. split; [|tauto].
    intros [[H|H]|H]; [auto|auto|]. right.
    apply String.eqb_eq in H. rewrite H. apply includes_iff.
    exists "", "". rewrite append_nil_r. reflexivity.
Qed.

Lemma locationFilter_first_30_witness :
  locationFilter [inParis 0] "London" <> [].
Proof.
  apply (locationFilter_first_30 [inParis 0] "London"). discriminate.
Defined.

End LocationFacts.

(* ===================================================================== *)
(** ** Properties of the website enrichment *)
(* ===================================================================== *)

Module EnrichmentFacts.
Import Scrape.

Lemma bind_Normal {A B : Type} (a : A) (k : A -> completion B) :
  (x ← Normal a; k x) = k a.
Proof. reflexivity. Qed.

Section WithEnv.
Variable env : Env.

(** The crawling loops absorb every failure of a fetch. *)
Lemma crawlPages_normal (urls : list string) (allText : string) :
  exists t, crawlPages env urls allText = Normal t.
Proof.
  revert allText. induction urls as [|u urls IH]; intros allText.
  - exists allText. reflexivity.
  - simpl. unfold fetchMarkdown. destruct (firecrawl env u); simpl; apply IH.
Qed.

Lemma crawlContact_normal (domain : string) (paths : list string) (allText : string) :
  exists t, crawlContact env domain paths allText = Normal t.
Proof.
  revert allText. induction paths as [|p paths IH]; intros allText.
  - exists allText. reflexivity.
  - simpl. unfold fetchMarkdown.
    destruct (firecrawl env ("https://" +:+ domain +:+ p)) as [e| |md]; simpl; try apply IH.
    destruct (100 <? String.length md)%nat; simpl; [eexists; reflexivity|apply IH].
Qed.

(** The lead after [enrichFromWebsite]; the function never throws (see
    [enrichFromWebsite_normal]). *)
Definition enriched (lead : LeadResult) : LeadResult :=
  match enrichFromWebsite env lead with
  | Normal lead' => lead'
  | Throw _ => lead
  end.

(** What the three extraction blocks leave alone. *)
Definition keepsPopulated (lead lead' : LeadResult) : Prop :=
  (JS.truthy (email lead) = true -> email lead' = email lead)
  /\ (JS.truthy (phone lead) = true -> phone lead' = phone lead)
  /\ (JS.truthy (instagram_url lead) = true -> instagram_url lead' = instagram_url lead)
  /\ business_name lead' = business_name lead
  /\ address lead' = address lead
  /\ city lead' = city lead
  /\ country lead' = country lead
  /\ website lead' = website lead
  /\ google_rating lead' = google_rating lead
  /\ google_review_count lead' = google_review_count lead
  /\ google_maps_url lead' = google_maps_url lead
  /\ source lead' = source lead.

Lemma keepsPopulated_refl (lead : LeadResult) : keepsPopulated lead lead.
Proof. unfold keepsPopulated. tauto. Qed.

Lemma keepsPopulated_trans (a b c : LeadResult) :
  keepsPopulated a b -> keepsPopulated b c -> keepsPopulated a c.
Proof.
  unfold keepsPopulated.
  intros (He & Hp & Hi & H1 & H2 & H3 & H4 & H5 & H6 & H7 & H8 & H9)
         (He' & Hp' & Hi' & H1' & H2' & H3' & H4' & H5' & H6' & H7' & H8' & H9').
  repeat split; try congruence.
  - intros H. rewrite <- (He H). apply He'. rewrite (He H). exact H.
  - intros H. rewrite <- (Hp H). apply Hp'. rewrite (Hp H). exact H.
  - intros H. rewrite <- (Hi H). apply Hi'. rewrite (Hi H). exact H.
Qed.

Lemma extractEmail_keepsPopulated (domain allText : string) (lead : LeadResult) :
  keepsPopulated lead (extractEmail domain allText lead).
Proof.
  unfold extractEmail. destruct (JS.truthy (email lead)) eqn:He; simpl;
    [apply keepsPopulated_refl|].
  destruct (selectEmail domain allText); [|apply keepsPopulated_refl].
  unfold keepsPopulated; simpl. repeat split; intros; congruence.
Qed.

Lemma extractInstagram_keepsPopulated (allText : string) (lead : LeadResult) :
  keepsPopulated lead (extractInstagram env allText lead).
Proof.
  unfold extractInstagram. destruct (JS.truthy (instagram_url lead)) eqn:He; simpl;
    [apply keepsPopulated_refl|].
  match goal with |- context [head ?l] => destruct (head l) end; [|apply keepsPopulated_refl].
  unfold keepsPopulated; simpl. repeat split; intros; congruence.
Qed.

Lemma extractPhone_keepsPopulated (allText : string) (lead : LeadResult) :
  keepsPopulated lead (extractPhone env allText lead).
Proof.
  unfold extractPhone. destruct (JS.truthy (phone lead)) eqn:He; simpl;
    [apply keepsPopulated_refl|].
  match goal with |- context [head ?l] => destruct (head l) end; [|apply keepsPopulated_refl].
  unfold keepsPopulated; simpl. repeat split; intros; congruence.
Qed.

Lemma extraction_keepsPopulated (domain allText : string) (lead : LeadResult) :
  keepsPopulated lead
    (extractPhone env allText (extractInstagram env allText (extractEmail domain allText lead))).
Proof.
  eapply keepsPopulated_trans; [|apply extractPhone_keepsPopulated].
  eapply keepsPopulated_trans; [|apply extractInstagram_keepsPopulated].
  apply extractEmail_keepsPopulated.
Qed.

Lemma enrichFromWebsiteBody_normal (site : string) (lead : LeadResult) :
  exists lead', enrichFromWebsiteBody env site lead = Normal lead'
                /\ keepsPopulated lead lead'.
Proof.
  unfold enrichFromWebsiteBody.
  destruct (crawlPages_normal [site] "") as [t1 ->]. rewrite bind_Normal.
  assert (Hc : exists t2,
             (if negb (JS.truthy (email lead))
              then crawlContact env (domainOf site) contactPaths t1
              else Normal t1) = Normal t2).
  { destruct (negb (JS.truthy (email lead))); [apply crawlContact_normal|eexists; reflexivity]. }
  destruct Hc as [t2 ->]. rewrite bind_Normal.
  destruct (String.length t2 =? 0)%nat.
  - exists lead. split; [reflexivity|apply keepsPopulated_refl].
  - eexists. split; [reflexivity|apply extraction_keepsPopulated].
Qed.

Lemma enrichFromWebsite_normal (lead : LeadResult) :
  enrichFromWebsite env lead = Normal (enriched lead)
  /\ keepsPopulated lead (enriched lead).
Proof.
  unfold enriched, enrichFromWebsite.
  destruct (negb (JS.truthy (website lead))); [split; [reflexivity|apply keepsPopulated_refl]|].
  destruct (JS.truthy (email lead) && JS.truthy (instagram_url lead));
    [split; [reflexivity|apply keepsPopulated_refl]|].
  destruct (negb (JS.truthy (Some (FIRECRAWL_API_KEY env))));
    [split; [reflexivity|apply keepsPopulated_refl]|].
  destruct (enrichFromWebsiteBody_normal (JS.orEmpty (website lead)) lead) as (lead' & -> & Hk).
  simpl. split; [reflexivity|exact Hk].
Qed.

(** A lead that does not need enrichment is returned as it is. *)
Lemma enriched_complete (lead : LeadResult) :
  alreadyComplete lead = true -> enriched lead = lead.
Proof.
  unfold alreadyComplete, enriched, enrichFromWebsite. intros H.
  destruct (negb (JS.truthy (website lead))); [reflexivity|].
  simpl in H. rewrite H. reflexivity.
Qed.

Lemma alreadyComplete_needsEnrichment (lead : LeadResult) :
  alreadyComplete lead = negb (needsEnrichment lead).
Proof.
  unfold alreadyComplete, needsEnrichment.
  destruct (JS.truthy (website lead)), (JS.truthy (email lead)),
    (JS.truthy (instagram_url lead)); reflexivity.
Qed.

Lemma promiseAll_enrich (batch : list LeadResult) :
  promiseAll (map (enrichFromWebsite env) batch) = Normal (map enriched batch).
Proof.
  induction batch as [|l batch IH]; [reflexivity|]. simpl.
  rewrite (proj1 (enrichFromWebsite_normal l)), bind_Normal, IH. reflexivity.
Qed.

(** One turn of the batch loop takes the next [maxConcurrent] leads. *)
Lemma enrichBatches_step (fuel : nat) (needs : list LeadResult) (maxConcurrent i : nat)
    (acc : list LeadResult) :
  (i < length needs)%nat ->
  enrichBatches env (S fuel) needs maxConcurrent i acc
  = enrichBatches env fuel needs maxConcurrent (i + maxConcurrent)
      (acc ++ map enriched (JS.slice needs i (i + maxConcurrent))).
Proof.
  intros Hi. simpl. destruct (Nat.ltb_spec i (length needs)); [|lia].
  rewrite promiseAll_enrich. reflexivity.
Qed.

Lemma slice_then_drop {A : Type} (l : list A) (i m : nat) :
  JS.slice l i (i + m) ++ drop (i + m) l = drop i l.
Proof.
  unfold JS.slice. replace (i + m - i)%nat with m by lia.
  rewrite <- (take_drop m (drop i l)) at 2. rewrite drop_drop. reflexivity.
Qed.

(** With a positive batch size the loop ends, having enriched the rest of
    the list in order. *)
Lemma enrichBatches_returns (fuel : nat) (needs : list LeadResult) (maxConcurrent i : nat)
    (acc : list LeadResult) :
  (0 < maxConcurrent)%nat -> (length needs <= i + fuel)%nat ->
  enrichBatches env fuel needs maxConcurrent i acc
  = Some (Normal (acc ++ map enriched (drop i needs))).
Proof.
  intros Hm. revert i acc. induction fuel as [|fuel IH]; intros i acc Hfuel.
  - simpl. destruct (Nat.ltb_spec i (length needs)); [lia|].
    rewrite drop_ge by lia. rewrite app_nil_r. destruct needs; reflexivity.
  - destruct (Nat.lt_ge_cases i (length needs)) as [Hi|Hi].
    + rewrite enrichBatches_step by exact Hi. rewrite IH by lia.
      rewrite <- app_assoc, <- map_app, slice_then_drop. reflexivity.
    + simpl. destruct (Nat.ltb_spec i (length needs)); [lia|].
      rewrite drop_ge by lia. rewrite app_nil_r. reflexivity.
Qed.

Lemma filter_all {A : Type} (p q : A -> bool) (l : list A) :
  (forall x, q x = negb (p x)) -> List.filter p l = [] -> List.filter q l = l.
Proof.
  intros Hpq. induction l as [|x l IH]; [reflexivity|]. simpl. rewrite Hpq.
  destruct (p x); simpl; [discriminate|]. intros H. f_equal. auto.
Qed.

(** [enrichLeadsBatch] returns: the leads that need nothing, then the
    others after [enrichFromWebsite]. *)
Lemma enrichLeadsBatch_returns (fuel : nat) (leads : list LeadResult) (maxConcurrent : nat) :
  (0 < maxConcurrent)%nat -> (length leads <= fuel)%nat ->
  enrichLeadsBatch env fuel leads maxConcurrent
  = Some (Normal (List.filter alreadyComplete leads
                  ++ map enriched (List.filter needsEnrichment leads))).
Proof.
  intros Hm Hfuel. unfold enrichLeadsBatch.
  destruct (List.filter needsEnrichment leads) as [|x needs] eqn:Hneeds.
  - simpl. rewrite app_nil_r.
    rewrite (filter_all needsEnrichment alreadyComplete leads
               alreadyComplete_needsEnrichment Hneeds). reflexivity.
  - change (length (x :: needs) =? 0)%nat with false. cbv iota.
    rewrite enrichBatches_returns.
    + reflexivity.
    + exact Hm.
    + rewrite <- Hneeds. pose proof (List.filter_length_le needsEnrichment leads). lia.
Qed.

Lemma filter_split_Permutation {A : Type} (p q : A -> bool) (l : list A) :
  (forall x, q x = negb (p x)) -> List.filter q l ++ List.filter p l ≡ₚ l.
Proof.
  intros Hpq. induction l as [|x l IH]; [reflexivity|]. simpl. rewrite Hpq.
  destruct (p x); simpl.
  - rewrite <- Permutation_middle. constructor. exact IH.
  - constructor. exact IH.
Qed.

Lemma map_enriched_complete (l : list LeadResult) :
  map enriched (List.filter alreadyComplete l) = List.filter alreadyComplete l.
Proof.
  induction l as [|x l IH]; [reflexivity|]. simpl.
  destruct (alreadyComplete x) eqn:Hx; [|exact IH].
  simpl. rewrite IH, (enriched_complete x Hx). reflexivity.
Qed.

(** Reordering aside, [enrichLeadsBatch] maps [enrichFromWebsite] over
    the leads. *)
Lemma enriched_batch_Permutation (l : list LeadResult) :
  List.filter alreadyComplete l ++ map enriched (List.filter needsEnrichment l)
  ≡ₚ map enriched l.
Proof.
  rewrite <- map_enriched_complete, <- map_app.
  apply Permutation_map.
  apply filter_split_Permutation, alreadyComplete_needsEnrichment.
Qed.

End WithEnv.

(** An environment in which every page reads [page], no Instagram
    profile and no phone number is found, and the adapters find nothing. *)
Definition stubEnv (key page : string) : Env :=
  {| FIRECRAWL_API_KEY := key;
     firecrawl := fun _ => Markdown page;
     igRegexExec := fun _ => [];
     phoneRegexMatch := fun _ => [];
     scrapeGoogleMaps := fun _ _ _ => Normal [];
     scrapeYelp := fun _ _ _ => Normal [];
     scrapeFresha := fun _ _ _ => Normal [];
     scrapeYell := fun _ _ => Normal [];
     scrapeYellowPages := fun _ _ => Normal [];
     scrapeBark := fun _ _ _ => Normal [] |}.

(** A scraped lead with a website and the given email field. *)
Definition acme (mail : option string) : LeadResult :=
  {| business_name := "Acme Spa"; address := None; city := Some "London";
     country := Some "United Kingdom"; phone := None; email := mail;
     website := Some "https://www.acme.com/"; instagram_url := None;
     google_rating := None; google_review_count := None;
     google_maps_url := None; source := "google_maps" |}.

(** The [leads] row of the same business. *)
Definition acmeRow (mail : option string) : Enrich.Lead :=
  {| Enrich.business_name := Some "Acme Spa";
     Enrich.website := Some "https://www.acme.com/";
     Enrich.email := mail; Enrich.phone := None; Enrich.instagram_url := None |}.

Definition stubEnrichEnv (page : string) : Enrich.Env :=
  {| Enrich.FIRECRAWL_API_KEY := Some "fc-key";
     Enrich.firecrawl := fun _ => Markdown page;
     Enrich.igRegexExec := fun _ => None;
     Enrich.phoneRegexMatch := fun _ => [] |}.

(** What the enrichment handler leaves alone in a row. *)
Definition rowKeepsPopulated (row row' : Enrich.Lead) : Prop :=
  (JS.truthy (Enrich.email row) = true -> Enrich.email row' = Enrich.email row)
  /\ (JS.truthy (Enrich.phone row) = true -> Enrich.phone row' = Enrich.phone row)
  /\ (JS.truthy (Enrich.instagram_url row) = true ->
      Enrich.instagram_url row' = Enrich.instagram_url row)
  /\ Enrich.business_name row' = Enrich.business_name row
  /\ Enrich.website row' = Enrich.website row.

Lemma rowKeepsPopulated_refl (row : Enrich.Lead) : rowKeepsPopulated row row.
Proof. unfold rowKeepsPopulated. tauto. Qed.

Lemma rowKeepsPopulated_trans (a b c : Enrich.Lead) :
  rowKeepsPopulated a b -> rowKeepsPopulated b c -> rowKeepsPopulated a c.
Proof.
  unfold rowKeepsPopulated.
  intros (He & Hp & Hi & H1 & H2) (He' & Hp' & Hi' & H1' & H2').
  repeat split; try congruence.
  - intros H. rewrite <- (He H). apply He'. rewrite (He H). exact H.
  - intros H. rewrite <- (Hp H). apply Hp'. rewrite (Hp H). exact H.
  - intros H. rewrite <- (Hi H). apply Hi'. rewrite (Hi H). exact H.
Qed.

(** The [updates] object has no key for a populated field. *)
Lemma computeUpdates_populated (env : Enrich.Env) (row : Enrich.Lead) (text : string) :
  (JS.truthy (Enrich.email row) = true ->
   Enrich.Upd.email (Enrich.computeUpdates env row text) = None)
  /\ (JS.truthy (Enrich.phone row) = true ->
      Enrich.Upd.phone (Enrich.computeUpdates env row text) = None)
  /\ (JS.truthy (Enrich.instagram_url row) = true ->
      Enrich.Upd.instagram_url (Enrich.computeUpdates env row text) = None).
Proof.
  unfold Enrich.computeUpdates.
  destruct (JS.truthy (Enrich.email row)), (JS.truthy (Enrich.phone row)),
    (JS.truthy (Enrich.instagram_url row)); simpl;
    repeat match goal with
           | |- context [match ?o with Some _ => _ | None => _ end] => destruct o; simpl
           end;
    repeat split; intros; congruence.
Qed.

Lemma applyUpdates_keepsPopulated (env : Enrich.Env) (row : Enrich.Lead) (text : string) :
  rowKeepsPopulated row (Enrich.applyUpdates (Enrich.computeUpdates env row text) row).
Proof.
  destruct (computeUpdates_populated env row text) as (He & Hp & Hi).
  unfold rowKeepsPopulated, Enrich.applyUpdates; simpl.
  repeat split; intros H; [rewrite (He H)|rewrite (Hp H)|rewrite (Hi H)]; reflexivity.
Qed.

Lemma enrichLead_keepsPopulated (env : Enrich.Env)
    (st : gmap string Enrich.Lead * list (string * Enrich.Upd.t)) (leadId id : string)
    (row : Enrich.Lead) :
  fst st !! id = Some row ->
  exists row', fst (Enrich.enrichLead env st leadId) !! id = Some row'
               /\ rowKeepsPopulated row row'.
Proof.
  destruct st as [leads done]. simpl. intros Hrow.
  assert (Hsame : exists row', leads !! id = Some row' /\ rowKeepsPopulated row row')
    by (exists row; split; [exact Hrow|apply rowKeepsPopulated_refl]).
  destruct (leads !! leadId) as [lead|] eqn:Hlead; [|exact Hsame].
  destruct (negb (JS.truthy (Enrich.website lead))); [exact Hsame|].
  destruct (JS.truthy (Enrich.email lead) && JS.truthy (Enrich.phone lead)
            && JS.truthy (Enrich.instagram_url lead)); [exact Hsame|].
  destruct (Enrich.crawlWithFirecrawl env (JS.orEmpty (Enrich.website lead))) as [text|];
    [|exact Hsame].
  destruct (Enrich.hasKeys (Enrich.computeUpdates env lead text)); [|exact Hsame].
  simpl. destruct (decide (leadId = id)) as [->|Hne].
  - rewrite lookup_alter_eq, Hlead. simpl. eexists. split; [reflexivity|].
    assert (lead = row) by congruence. subst lead. apply applyUpdates_keepsPopulated.
  - rewrite lookup_alter_ne by exact Hne. exact Hsame.
Qed.

Lemma POST_keepsPopulated (env : Enrich.Env) (leadIds : list string)
    (st : gmap string Enrich.Lead * list (string * Enrich.Upd.t)) (id : string)
    (row : Enrich.Lead) :
  fst st !! id = Some row ->
  exists row', fst (foldl (Enrich.enrichLead env) st leadIds) !! id = Some row'
               /\ rowKeepsPopulated row row'.
Proof.
  revert st row. induction leadIds as [|leadId leadIds IH]; intros st row Hrow.
  - exists row. split; [exact Hrow|apply rowKeepsPopulated_refl].
  - simpl. destruct (enrichLead_keepsPopulated env st leadId id row Hrow) as (row1 & H1 & Hk1).
    destruct (IH _ _ H1) as (row2 & H2 & Hk2).
    exists row2. split; [exact H2|]. eapply rowKeepsPopulated_trans; eassumption.
Qed.

(** C6, as stated, fails: an email that is the empty string is not null,
    and both enrichment paths replace it by an address found on the
    site. *)
Lemma empty_email_is_overwritten :
  email (acme (Some "")) <> None
  /\ enrichFromWebsite (stubEnv "fc-key" "Write to info@acme.com") (acme (Some ""))
     = Normal (acme (Some "info@acme.com"))
  /\ Enrich.email (acmeRow (Some "")) <> None
  /\ fst (Enrich.POST (stubEnrichEnv "Write to info@acme.com")
                      {[ "lead-1" := acmeRow (Some "") ]} ["lead-1"]) !! "lead-1"
     = Some (acmeRow (Some "info@acme.com")).
Proof.
  split; [discriminate|]. split; [vm_compute; reflexivity|].
  split; [discriminate|]. vm_compute. reflexivity.
Qed.

(** C6 (amended): enrichment never overwrites a populated field, a field
    being populated when it is neither null nor the empty string.  For
    every lead, [enrichFromWebsite] returns (it never throws) a lead in
    which each populated email, phone and Instagram URL is unchanged,
    whatever the crawled pages contain, and so does every lead returned
    by [enrichLeadsBatch]; the enrichment handler leaves every populated
    email, phone and Instagram URL of every row of the table unchanged.
    Only the three contact fields, and only when not populated, can be
    filled. *)
Theorem enrichment_keeps_populated_fields
    (env : Env) (lead : LeadResult) (leads : list LeadResult)
    (env' : Enrich.Env) (table : gmap string Enrich.Lead) (leadIds : list string) :
  (exists lead', enrichFromWebsite env lead = Normal lead' /\ keepsPopulated lead lead')
  /\ (exists out,
        enrichLeadsBatch env (length leads) leads 5 = Some (Normal out)
        /\ forall lead', lead' ∈ out ->
             exists l, l ∈ leads /\ enrichFromWebsite env l = Normal lead' /\ keepsPopulated l lead')
  /\ (forall id row, table !! id = Some row ->
        exists row', fst (Enrich.POST env' table leadIds) !! id = Some row'
                     /\ rowKeepsPopulated row row').
Proof.
  split; [|split].
  - exists (enriched env lead). apply enrichFromWebsite_normal.
  - eexists. split; [apply enrichLeadsBatch_returns; lia|].
    intros lead' Hin.
    assert (Hin' : lead' ∈ map (enriched env) leads)
      by (rewrite <- (enriched_batch_Permutation env leads); exact Hin).
    apply list_elem_of_fmap in Hin' as (l & -> & Hl).
    exists l. split; [exact Hl|]. apply enrichFromWebsite_normal.
  - intros id row Hrow. unfold Enrich.POST. apply POST_keepsPopulated. exact Hrow.
Qed.

Lemma enrichment_keeps_populated_fields_witness :
  exists lead',
    enrichFromWebsite (stubEnv "fc-key" "Write to info@acme.com") (acme (Some "owner@acme.com"))
    = Normal lead'
    /\ email lead' = Some "owner@acme.com".
Proof.
  destruct (proj1 (enrichment_keeps_populated_fields
                     (stubEnv "fc-key" "Write to info@acme.com")
                     (acme (Some "owner@acme.com")) [] (stubEnrichEnv "") ∅ []))
    as (lead' & Hrun & Hkeep).
  exists lead'. split; [exact Hrun|]. apply Hkeep. reflexivity.
Defined.

End EnrichmentFacts.

(* ===================================================================== *)
(** ** Properties of the automatic enrichment in the search handler *)
(* ===================================================================== *)

Module AutoEnrichFacts.
Import Scrape EnrichmentFacts.

Lemma slice_0 {A : Type} (l : list A) (n : nat) : JS.slice l 0 n = take n l.
Proof. unfold JS.slice. rewrite Nat.sub_0_r. reflexivity. Qed.

(** The first 15 results once [enrichLeadsBatch] is through with them. *)
Definition enrichedFirst15 (env : Env) (unique : list LeadResult) : list LeadResult :=
  List.filter alreadyComplete (take 15 unique)
  ++ map (enriched env) (List.filter needsEnrichment (take 15 unique)).

Lemma enrichedFirst15_length (env : Env) (unique : list LeadResult) :
  length (enrichedFirst15 env unique) = length (take 15 unique).
Proof.
  unfold enrichedFirst15.
  rewrite (Permutation_length (enriched_batch_Permutation env (take 15 unique))).
  apply length_map.
Qed.


Lemma autoEnrich_eq (env : Env) (unique : list LeadResult) :
  autoEnrich env unique
  = Some (if JS.truthy (Some (FIRECRAWL_API_KEY env))
          then enrichedFirst15 env unique ++ drop 15 unique
          else unique).
Proof.
  unfold autoEnrich, autoEnrichWith.
  destruct (JS.truthy (Some (FIRECRAWL_API_KEY env))); [|reflexivity].
  rewrite slice_0. rewrite enrichLeadsBatch_returns by lia. reflexivity.
Qed.

Lemma autoEnrich_length (env : Env) (unique : list LeadResult) :
  exists out, autoEnrich env unique = Some out /\ length out = length unique.
Proof.
  eexists. split; [apply autoEnrich_eq|].
  destruct (JS.truthy (Some (FIRECRAWL_API_KEY env))); [|reflexivity].
  rewrite length_app, enrichedFirst15_length, <- length_app, take_drop. reflexivity.
Qed.






End AutoEnrichFacts.

(* ===================================================================== *)
(** ** Properties of the email selection *)
(* ===================================================================== *)

Module EmailFacts.
Import Scrape EnrichmentFacts.

Section SortHead.
Context {A : Type} (cmp : A -> A -> Z) (key : A -> Z).
Hypothesis cmp_key : forall a b, cmp a b <= 0 <-> key a <= key b.

Lemma head_insertSorted (x : A) (l : list A) :
  head (insertSorted cmp x l)
  = Some (match head l with
          | Some y => if cmp x y <=? 0 then x else y
          | None => x
          end).
Proof. destruct l as [|y l]; simpl; [reflexivity|]. destruct (cmp x y <=? 0); reflexivity. Qed.

Lemma head_sort_nil (l : list A) : head (sort cmp l) = None -> l = [].
Proof. destruct l as [|x l]; [reflexivity|]. simpl. rewrite head_insertSorted. discriminate. Qed.

(** The head of the sorted list is the first element of least key. *)
Lemma head_sort_first_least (l : list A) (e : A) :
  head (sort cmp l) = Some e ->
  exists before after,
    l = before ++ e :: after
    /\ (forall x, x ∈ before -> key e < key x)
    /\ (forall y, y ∈ after -> key e <= key y).
Proof.
  revert e. induction l as [|x l IH]; intros e; [discriminate|].
  simpl. rewrite head_insertSorted.
  destruct (head (sort cmp l)) as [y|] eqn:Hhead.
  - destruct (IH y eq_refl) as (before & after & Hl & Hb & Ha).
    destruct (Z.leb_spec (cmp x y) 0) as [Hle|Hgt]; intros [= <-].
    + apply cmp_key in Hle. exists [], l. split; [reflexivity|]. split.
      * intros z Hz. inversion Hz.
      * intros z Hz. rewrite Hl in Hz.
        apply elem_of_app in Hz as [Hz|Hz]; [specialize (Hb z Hz); lia|].
        apply elem_of_cons in Hz as [->|Hz]; [exact Hle|specialize (Ha z Hz); lia].
    + assert (key y < key x) by (destruct (Z.le_gt_cases (key x) (key y)) as [H|H];
                                 [apply cmp_key in H; lia|lia]).
      exists (x :: before), after. split; [rewrite Hl; reflexivity|]. split.
      * intros z Hz. apply elem_of_cons in Hz as [->|Hz]; [assumption|auto].
      * exact Ha.
  - intros [= <-]. apply head_sort_nil in Hhead. subst l.
    exists [], []. split; [reflexivity|]. split; intros z Hz; inversion Hz.
Qed.

End SortHead.

(** The two criteria of the comparator as one number. *)
Definition emailKey (domainClean a : string) : Z :=
  100 * isDomainRank domainClean a + prefRank a.

(** [a] is strictly preferred to [b]: it contains the domain and [b] does
    not, or they agree on that and [a] starts with an earlier prefix of
    [prefOrder]. *)
Definition preferred (domainClean a b : string) : Prop :=
  isDomainRank domainClean a < isDomainRank domainClean b
  \/ (isDomainRank domainClean a = isDomainRank domainClean b /\ prefRank a < prefRank b).

Lemma prefRank_cascade (a : string) :
  let lower := JS.toLowerCase a in
  prefRank a
  = if JS.startsWith lower "info@" then 0
    else if JS.startsWith lower "hello@" then 1
    else if JS.startsWith lower "contact@" then 2
    else if JS.startsWith lower "enquiries@" then 3
    else if JS.startsWith lower "bookings@" then 4
    else if JS.startsWith lower "reception@" then 5
    else 99.
Proof.
  intros lower. unfold prefRank, prefOrder, JS.findIndex. fold lower. simpl.
  destruct (JS.startsWith lower "info@"); [reflexivity|].
  destruct (JS.startsWith lower "hello@"); [reflexivity|].
  destruct (JS.startsWith lower "contact@"); [reflexivity|].
  destruct (JS.startsWith lower "enquiries@"); [reflexivity|].
  destruct (JS.startsWith lower "bookings@"); [reflexivity|].
  destruct (JS.startsWith lower "reception@"); reflexivity.
Qed.

Lemma prefRank_range (a : string) : 0 <= prefRank a <= 99.
Proof.
  rewrite prefRank_cascade.
  repeat match goal with |- context [if ?b then _ else _] => destruct b end; lia.
Qed.

Lemma isDomainRank_range (d a : string) : 0 <= isDomainRank d a <= 1.
Proof. unfold isDomainRank. destruct (JS.includes a d); lia. Qed.

Lemma compareEmails_key (d a b : string) :
  compareEmails d a b <= 0 <-> emailKey d a <= emailKey d b.
Proof.
  unfold compareEmails, emailKey.
  pose proof (prefRank_range a). pose proof (prefRank_range b).
  pose proof (isDomainRank_range d a). pose proof (isDomainRank_range d b).
  destruct (Z.eqb_spec (isDomainRank d a) (isDomainRank d b)); simpl; lia.
Qed.

Lemma emailKey_lt (d a b : string) : emailKey d a < emailKey d b <-> preferred d a b.
Proof.
  unfold emailKey, preferred.
  pose proof (prefRank_range a). pose proof (prefRank_range b).
  pose proof (isDomainRank_range d a). pose proof (isDomainRank_range d b). lia.
Qed.

(** The lead an enrichment returned. *)
Definition found_lead (c : completion LeadResult) : option LeadResult :=
  match c with
  | Normal l => Some l
  | Throw _ => None
  end.

(** The three addresses of the scenario. *)
Definition scenarioMatches : list string :=
  ["info@acme.com"; "someone@tracking-pixel.com"; "support@othersite.com"].

Definition scenarioPage : string :=
  "Book now! support@othersite.com <img src=px.gif?u=someone@tracking-pixel.com> Acme Spa, info@acme.com.".

(** The part of an address after its first at-sign. *)
Fixpoint addressDomain (e : string) : string :=
  match e with
  | EmptyString => EmptyString
  | String c e' => if Ascii.eqb c "@" then e' else addressDomain e'
  end.

(** A lead whose website is the page [path] of the host acme.com. *)
Definition acmeAt (path : string) : LeadResult :=
  {| business_name := "Acme Spa"; address := None; city := Some "London";
     country := Some "United Kingdom"; phone := None; email := None;
     website := Some ("https://" +:+ "acme.com" +:+ path); instagram_url := None;
     google_rating := None; google_review_count := None;
     google_maps_url := None; source := "google_maps" |}.

(** C7: the code misses the preference that the claim states, and that
    its own comment (Prefer emails with the business domain) announces.
    The website of the lead is a page of acme.com, the site shows
    hello@other.com and bob@acme.com, and [enrichFromWebsite] selects the
    address at the other domain: what it compares with the addresses is
    the website without its protocol, "acme.com/book", the path not
    being cut off.  And for the website https://acme.com an address at
    the domain acme.com.example.org, which contains "acme.com", is
    selected before bob@acme.com. *)
Lemma site_with_path_loses_domain_preference :
  website (acmeAt "/book") = Some "https://acme.com/book"
  /\ addressDomain "bob@acme.com" = "acme.com"
  /\ addressDomain "hello@other.com" <> "acme.com"
  /\ domainOf "https://acme.com/book" = "acme.com/book"
  /\ selectEmailAmong (domainOf "https://acme.com/book") ["hello@other.com"; "bob@acme.com"]
     = Some "hello@other.com"
  /\ email <$> found_lead (enrichFromWebsite (stubEnv "fc-key" "hello@other.com bob@acme.com")
                                              (acmeAt "/book"))
     = Some (Some "hello@other.com")
  /\ addressDomain "info@acme.com.example.org" <> "acme.com"
  /\ selectEmailAmong (domainOf "https://acme.com") ["info@acme.com.example.org"; "bob@acme.com"]
     = Some "info@acme.com.example.org".
Proof. vm_compute. repeat split; congruence. Qed.

(** What the sort selects, given the string [domain] that the code
    compares the addresses with (see above for how that string departs
    from the domain of the site): among the matches that are not
    rejected as noise, the first one to which no other is preferred,
    where an address that contains [domain] less its first www. as a
    substring is preferred to one that does not and, between two
    addresses alike in that respect, the one that starts with the
    earlier of info@, hello@, contact@, enquiries@, bookings@,
    reception@ is preferred to the other, an address with none of these
    prefixes coming last; with no match left nothing is selected.  For
    the website https://www.acme.com/ and the addresses info@acme.com,
    someone@tracking-pixel.com and support@othersite.com, in any order,
    info@acme.com is selected, also from a page text and through
    [enrichFromWebsite]. *)
Theorem selectEmail_preference (domain : string) (matches : list string) :
  let domainClean := JS.removeFirst "www." domain in
  let emails := List.filter notNoise matches in
  match selectEmailAmong domain matches with
  | Some e =>
      exists before after,
        emails = before ++ e :: after
        /\ (forall x, x ∈ before -> preferred domainClean e x)
        /\ (forall y, y ∈ after -> ~ preferred domainClean y e)
  | None => emails = []
  end
  /\ (forall a, isDomainRank domainClean a = if JS.includes a domainClean then 0 else 1)
  /\ (forall a,
        prefRank a
        = if JS.startsWith (JS.toLowerCase a) "info@" then 0
          else if JS.startsWith (JS.toLowerCase a) "hello@" then 1
          else if JS.startsWith (JS.toLowerCase a) "contact@" then 2
          else if JS.startsWith (JS.toLowerCase a) "enquiries@" then 3
          else if JS.startsWith (JS.toLowerCase a) "bookings@" then 4
          else if JS.startsWith (JS.toLowerCase a) "reception@" then 5
          else 99)
  /\ JS.removeFirst "www." (domainOf "https://www.acme.com/") = "acme.com"
  /\ map (selectEmailAmong (domainOf "https://www.acme.com/")) (permutations scenarioMatches)
     = replicate 6 (Some "info@acme.com")
  /\ selectEmail (domainOf "https://www.acme.com/") scenarioPage = Some "info@acme.com"
  /\ enrichFromWebsite (stubEnv "fc-key" scenarioPage) (acme None)
     = Normal (acme (Some "info@acme.com")).
Proof.
  intros domainClean emails. split; [|split; [|split; [|split; [|split; [|split]]]]].
  - unfold selectEmailAmong. fold domainClean emails.
    destruct (head (sort (compareEmails domainClean) emails)) as [e|] eqn:Hhead.
    + destruct (head_sort_first_least (compareEmails domainClean) (emailKey domainClean)
                  (compareEmails_key domainClean) emails e Hhead)
        as (before & after & Heq & Hb & Ha).
      exists before, after. split; [exact Heq|]. split.
      * intros x Hx. apply emailKey_lt, Hb, Hx.
      * intros y Hy Hpref. apply emailKey_lt in Hpref. specialize (Ha y Hy). lia.
    + apply head_sort_nil in Hhead. exact Hhead.
  - reflexivity.
  - intros a. apply prefRank_cascade.
  - vm_compute. reflexivity.
  - vm_compute. reflexivity.
  - vm_compute. reflexivity.
  - vm_compute. reflexivity.
Qed.

End EmailFacts.

(* ===================================================================== *)
(** ** Properties of the search handler *)
(* ===================================================================== *)

Module HandlerFacts.
Import Scrape EnrichmentFacts AutoEnrichFacts.

(** The adapters in the order in which [POST] tries them. *)
Definition sourceNames : list string :=
  ["google_maps"; "yelp"; "fresha"; "yell"; "yellow_pages"; "bark"].

(** How the adapter called [name] ends for a query. *)
Definition callSource (env : Env) (name niche location country : string)
    : completion (list LeadResult) :=
  if String.eqb name "google_maps" then scrapeGoogleMaps env niche location country
  else if String.eqb name "yelp" then scrapeYelp env niche location country
  else if String.eqb name "fresha" then scrapeFresha env niche location country
  else if String.eqb name "yell" then scrapeYell env niche location
  else if String.eqb name "yellow_pages" then scrapeYellowPages env niche location
  else if String.eqb name "bark" then scrapeBark env niche location country
  else Normal [].

(** What an adapter contributes: its results, or a warning. *)
Definition found (out : completion (list LeadResult)) : list LeadResult :=
  match out with
  | Normal r => r
  | Throw _ => []
  end.

Definition warning (name : string) (out : completion (list LeadResult)) : list string :=
  match out with
  | Normal _ => []
  | Throw e => [messageOr (name +:+ " failed") e]
  end.

Definition allFound (env : Env) (niche location country : string) : list LeadResult :=
  flat_map (fun name => found (callSource env name niche location country)) sourceNames.

Definition allWarnings (env : Env) (niche location country : string) : list string :=
  flat_map (fun name => warning name (callSource env name niche location country)) sourceNames.

Section WithEnv.
Variable env : Env.

(** In all-sources mode [trySource] never throws: it adds the results or
    the warning and goes on. *)
Lemma trySource_all (name : string) (out : completion (list LeadResult)) (st : Acc.t) :
  trySource (Some "all") name out st
  = Normal {| Acc.results := Acc.results st ++ found out;
              Acc.errors := Acc.errors st ++ warning name out;
              Acc.sourceStats := <[name := length (found out)]> (Acc.sourceStats st) |}.
Proof.
  destruct out as [r|e]; unfold trySource, tryCatch; simpl.
  - destruct r as [|x r]; simpl; rewrite ?app_nil_r; reflexivity.
  - rewrite app_nil_r. reflexivity.
Qed.

(** In single-source mode a failure of the adapter is thrown again. *)
Lemma trySource_single_throws (source name : string) (e : thrown) (st : Acc.t) :
  source <> "all" ->
  trySource (Some source) name (Throw e) st = Throw e.
Proof.
  intros Hne. unfold trySource, tryCatch; simpl.
  destruct (String.eqb_spec source "all"); [contradiction|reflexivity].
Qed.

Lemma runSources_all (niche location country : string) :
  exists stats,
    runSources env (Some "all") niche location country Acc.init
    = Normal {| Acc.results := allFound env niche location country;
                Acc.errors := allWarnings env niche location country;
                Acc.sourceStats := stats |}
    /\ forall name, name ∈ sourceNames ->
         stats !! name = Some (length (found (callSource env name niche location country))).
Proof.
  eexists. split.
  - unfold runSources. simpl.
    repeat (rewrite trySource_all, bind_Normal; simpl).
    unfold allFound, allWarnings, callSource. simpl.
    rewrite !app_nil_r, <- !app_assoc. reflexivity.
  - intros name Hin. unfold sourceNames in Hin.
    repeat (apply elem_of_cons in Hin as [->|Hin];
            [unfold callSource; simpl; simplify_map_eq; reflexivity|]).
    inversion Hin.
Qed.

Lemma runSources_single_throws (name niche location country : string) (e : thrown) :
  name ∈ sourceNames ->
  callSource env name niche location country = Throw e ->
  runSources env (Some name) niche location country Acc.init = Throw e.
Proof.
  intros Hin. unfold sourceNames in Hin.
  repeat (apply elem_of_cons in Hin as [->|Hin];
          [unfold callSource, runSources; simpl; intros ->;
           rewrite trySource_single_throws by discriminate; reflexivity|]).
  inversion Hin.
Qed.

End WithEnv.

(** The handler always answers. *)
Lemma POST_responds (env : Env) (req : Req.t) : exists r, POST env req = Some r.
Proof.
  unfold POST.
  destruct (negb (JS.truthy (Req.niche req)) || negb (JS.truthy (Req.location req)));
    [eexists; reflexivity|].
  destruct (runSources env (Req.source req) (JS.orEmpty (Req.niche req))
              (JS.orEmpty (Req.location req)) (default "United Kingdom" (Req.country req))
              Acc.init) as [st|err]; [|eexists; reflexivity].
  destruct (autoEnrich_length env (dedupe (Acc.results st))) as (out & -> & _).
  eexists; reflexivity.
Qed.

(** Five businesses with different names. *)
Definition fiveSpas : list LeadResult :=
  map DedupeFacts.named ["Glow Spa"; "Zen Clinic"; "Mint Aesthetics"; "Pure Skin"; "Aura Med Spa"].

(** All sources are asked: the first adapter fails for want of a key, the
    second finds five businesses, the others find nothing; no Firecrawl
    key is configured. *)
Definition scenarioEnv : Env :=
  {| FIRECRAWL_API_KEY := "";
     firecrawl := fun _ => NotOk;
     igRegexExec := fun _ => [];
     phoneRegexMatch := fun _ => [];
     scrapeGoogleMaps := fun _ _ _ =>
       Throw (ErrorObject "Outscraper API key not configured. Add it in Settings.");
     scrapeYelp := fun _ _ _ => Normal fiveSpas;
     scrapeFresha := fun _ _ _ => Normal [];
     scrapeYell := fun _ _ => Normal [];
     scrapeYellowPages := fun _ _ => Normal [];
     scrapeBark := fun _ _ _ => Normal [] |}.

Definition scenarioRequest : Req.t :=
  {| Req.niche := Some "med spa"; Req.location := Some "London";
     Req.country := Some "United Kingdom"; Req.source := Some "all" |}.

(** Five results, two of which carry the same name in another case. *)
Definition fiveWithTwin : list LeadResult :=
  map DedupeFacts.named ["Glow Spa"; "Zen Clinic"; "GLOW SPA"; "Pure Skin"; "Aura Med Spa"].

Definition twinEnv : Env :=
  {| FIRECRAWL_API_KEY := "";
     firecrawl := fun _ => NotOk;
     igRegexExec := fun _ => [];
     phoneRegexMatch := fun _ => [];
     scrapeGoogleMaps := fun _ _ _ =>
       Throw (ErrorObject "Outscraper API key not configured. Add it in Settings.");
     scrapeYelp := fun _ _ _ => Normal fiveWithTwin;
     scrapeFresha := fun _ _ _ => Normal [];
     scrapeYell := fun _ _ => Normal [];
     scrapeYellowPages := fun _ _ => Normal [];
     scrapeBark := fun _ _ _ => Normal [] |}.

(** C8, as stated, fails in its example: one adapter throws, another
    returns 5 results, and the response carries 4 results (and the
    warning), two of the five being one business for the
    de-duplication. *)
Lemma five_found_four_returned :
  scrapeGoogleMaps twinEnv "med spa" "London" "United Kingdom"
    = Throw (ErrorObject "Outscraper API key not configured. Add it in Settings.")
  /\ (exists five, scrapeYelp twinEnv "med spa" "London" "United Kingdom" = Normal five
                   /\ length five = 5%nat)
  /\ exists body,
       POST twinEnv scenarioRequest = Some (Resp.Json body)
       /\ length (Resp.results body) = 4%nat
       /\ Resp.count body = 4%nat
       /\ Resp.errors body = Some ["Outscraper API key not configured. Add it in Settings."].
Proof.
  split; [reflexivity|]. split; [exists fiveWithTwin; split; reflexivity|].
  eexists. split; [vm_compute; reflexivity|]. repeat split.
Qed.

(** C8 (amended): for a request with a niche and a location the handler
    answers, no exception leaving it.  If the caller names one source and
    its adapter throws, the handler answers with an error (status 500
    and the message of the exception) and no result set.  If the caller
    asks for all sources, the handler answers with a result set: every
    adapter is tried, the results of those that return are concatenated
    in order, de-duplicated and enriched, each adapter that throws adds
    its message to the errors and counts for zero results in the
    statistics.  So when exactly one adapter fails with warning [w] and
    the others return between them five results that the de-duplication
    keeps (five different names of two characters or more), the response
    carries five results and the errors [[w]]. *)
Theorem search_error_handling (env : Env) (req : Req.t)
    (Hniche : JS.truthy (Req.niche req) = true)
    (Hlocation : JS.truthy (Req.location req) = true) :
  let niche := JS.orEmpty (Req.niche req) in
  let location := JS.orEmpty (Req.location req) in
  let country := default "United Kingdom" (Req.country req) in
  (exists r, POST env req = Some r)
  /\ (forall name e,
      name ∈ sourceNames -> Req.source req = Some name ->
      callSource env name niche location country = Throw e ->
      POST env req = Some (Resp.JsonError (messageOr "Scraping failed" e) 500))
  /\ (Req.source req = Some "all" ->
      exists body,
        POST env req = Some (Resp.Json body)
        /\ autoEnrich env (dedupe (allFound env niche location country))
           = Some (Resp.results body)
        /\ Resp.count body = length (dedupe (allFound env niche location country))
        /\ Resp.errors body
           = match allWarnings env niche location country with
             | [] => None
             | ws => Some ws
             end
        /\ forall name, name ∈ sourceNames ->
             Resp.sourceStats body !! name
             = Some (length (found (callSource env name niche location country))))
  /\ (Req.source req = Some "all" ->
      forall five w,
        length five = 5%nat -> dedupe five = five ->
        allFound env niche location country = five ->
        allWarnings env niche location country = [w] ->
        exists body,
          POST env req = Some (Resp.Json body)
          /\ length (Resp.results body) = 5%nat
          /\ Resp.count body = 5%nat
          /\ Resp.errors body = Some [w]).
Proof.
  intros niche location country.
  assert (Hall : Req.source req = Some "all" ->
            exists body,
              POST env req = Some (Resp.Json body)
              /\ autoEnrich env (dedupe (allFound env niche location country))
                 = Some (Resp.results body)
              /\ Resp.count body = length (dedupe (allFound env niche location country))
              /\ Resp.errors body
                 = match allWarnings env niche location country with
                   | [] => None
                   | ws => Some ws
                   end
              /\ forall name, name ∈ sourceNames ->
                   Resp.sourceStats body !! name
                   = Some (length (found (callSource env name niche location country)))).
  { intros Hsrc. unfold POST. rewrite Hniche, Hlocation, Hsrc. simpl.
    fold niche location country.
    destruct (runSources_all env niche location country) as (stats & -> & Hstats).
    simpl.
    destruct (autoEnrich_length env (dedupe (allFound env niche location country)))
      as (out & -> & Hlen).
    eexists. split; [reflexivity|]. simpl.
    split; [reflexivity|]. split; [exact Hlen|]. split; [|exact Hstats].
    destruct (allWarnings env niche location country); reflexivity. }
  split; [apply POST_responds|]. split; [|split; [exact Hall|]].
  - intros name e Hin Hsrc Hthrow. unfold POST. rewrite Hniche, Hlocation, Hsrc. simpl.
    fold niche location country.
    rewrite (runSources_single_throws env name niche location country e Hin Hthrow).
    reflexivity.
  - intros Hsrc five w Hfive Hdedupe Hfound Hwarn.
    destruct (Hall Hsrc) as (body & Hpost & Hres & Hcount & Herr & _).
    exists body. split; [exact Hpost|].
    rewrite Hfound, Hdedupe in Hres, Hcount. rewrite Hwarn in Herr.
    destruct (autoEnrich_length env five) as (out & Hout & Hlen).
    rewrite Hres in Hout. injection Hout as <-.
    split; [congruence|]. split; [congruence|exact Herr].
Qed.

Lemma search_error_handling_witness :
  exists body,
    POST scenarioEnv scenarioRequest = Some (Resp.Json body)
    /\ length (Resp.results body) = 5%nat
    /\ Resp.count body = 5%nat
    /\ Resp.errors body = Some ["Outscraper API key not configured. Add it in Settings."].
Proof.
  apply (proj2 (proj2 (proj2 (search_error_handling scenarioEnv scenarioRequest eq_refl eq_refl)))
           eq_refl fiveSpas);
    vm_compute; reflexivity.
Defined.

End HandlerFacts.

(* ===================================================================== *)
(** ** Properties of lib/utils.ts *)
(* ===================================================================== *)

Module UtilsFacts.
Import Scoring.

Lemma ge_whole (t c : Z) : JS.ge (JS.Num (inject_Z t)) (inject_Z c) = (t >=? c).
Proof.
  unfold JS.ge, Qle_bool, inject_Z. simpl. rewrite !Z.mul_1_r.
  rewrite Z.geb_leb. reflexivity.
Qed.

Lemma getGradeFromScore_whole (t : Z) :
  Utils.getGradeFromScore (JS.Num (inject_Z t)) = Db.gradeString (gradeOf t).
Proof.
  unfold Utils.getGradeFromScore, gradeOf.
  change (80 : Q) with (inject_Z 80). change (65 : Q) with (inject_Z 65).
  change (50 : Q) with (inject_Z 50). change (35 : Q) with (inject_Z 35).
  rewrite !ge_whole.
  destruct (t >=? 80); [reflexivity|]. destruct (t >=? 65); [reflexivity|].
  destruct (t >=? 50); [reflexivity|]. destruct (t >=? 35); reflexivity.
Qed.

Lemma getPriorityFromScore_whole (t : Z) :
  Utils.getPriorityFromScore (JS.Num (inject_Z t)) = Db.priorityString (priorityOf t).
Proof.
  unfold Utils.getPriorityFromScore, priorityOf.
  change (70 : Q) with (inject_Z 70). change (45 : Q) with (inject_Z 45).
  rewrite !ge_whole.
  destruct (t >=? 70); [reflexivity|]. destruct (t >=? 45); reflexivity.
Qed.

(** X1: the helpers [getGradeFromScore] and [getPriorityFromScore] of the
    user interface, applied to the total of a lead, give the grade and the
    priority that [calculateLeadScore] returns with that total; a score
    that is not a number gets the grade F and the priority cold. *)
Theorem helpers_agree_with_scorer (lead : LeadInput) :
  let r := calculateLeadScore lead in
  Utils.getGradeFromScore (JS.Num (inject_Z (total r))) = Db.gradeString (grade r)
  /\ Utils.getPriorityFromScore (JS.Num (inject_Z (total r))) = Db.priorityString (priority r)
  /\ Utils.getGradeFromScore JS.NaN = "F"
  /\ Utils.getPriorityFromScore JS.NaN = "cold".
Proof.
  intros r. split; [apply getGradeFromScore_whole|].
  split; [apply getPriorityFromScore_whole|]. split; reflexivity.
Qed.

(** A character of the class [0-9+]: one of the ten digits or the plus
    sign. *)
Definition digitOrPlus (c : ascii) : bool :=
  existsb (Ascii.eqb c) (list_ascii_of_string "0123456789+").

(** The test of [cleanPhone] is membership in that class. *)
Lemma digitOrPlus_eq (c : ascii) : JS.isDigit c || Ascii.eqb c "+" = digitOrPlus c.
Proof. destruct c as [[] [] [] [] [] [] [] []]; reflexivity. Qed.

(** The characters of [s] that are digits or plus signs, in order. *)
Definition digitsAndPluses (s : string) : string :=
  string_of_list_ascii (List.filter digitOrPlus (list_ascii_of_string s)).

Lemma cleanPhone_filter (phone : string) : Utils.cleanPhone phone = digitsAndPluses phone.
Proof.
  unfold digitsAndPluses. induction phone as [|c s IH]; [reflexivity|].
  cbn [Utils.cleanPhone list_ascii_of_string List.filter]. rewrite (digitOrPlus_eq c).
  destruct (digitOrPlus c); [cbn [string_of_list_ascii]; rewrite IH; reflexivity|exact IH].
Qed.

Lemma cleanPhone_kept (s : string) :
  forallb digitOrPlus (list_ascii_of_string s) = true -> Utils.cleanPhone s = s.
Proof.
  induction s as [|c s IH]; [reflexivity|].
  cbn [list_ascii_of_string forallb Utils.cleanPhone]. rewrite (digitOrPlus_eq c).
  intros H. apply andb_true_iff in H as [Hc Hs]. rewrite Hc, (IH Hs). reflexivity.
Qed.

Lemma cleanPhone_dropped (c : ascii) (s : string) :
  digitOrPlus c = false -> Utils.cleanPhone (String c s) = Utils.cleanPhone s.
Proof. intros Hc. cbn [Utils.cleanPhone]. rewrite (digitOrPlus_eq c). rewrite Hc. reflexivity. Qed.

Lemma cleanPhone_all (phone : string) :
  forallb digitOrPlus (list_ascii_of_string (Utils.cleanPhone phone)) = true.
Proof.
  induction phone as [|c s IH]; [reflexivity|].
  cbn [Utils.cleanPhone]. rewrite (digitOrPlus_eq c). destruct (digitOrPlus c) eqn:Hc; [|exact IH].
  cbn [list_ascii_of_string forallb]. rewrite Hc. exact IH.
Qed.

(** X2: [cleanPhone] keeps exactly the digits and the plus signs of its
    argument, in their order, and removes every other character: its
    result is the argument filtered by that test.  So a string of digits
    and plus signs is returned as it is, a plus sign included; a
    character that is neither is removed wherever it stands; and
    cleaning twice changes nothing more. *)
Theorem cleanPhone_idempotent (phone : string) :
  Utils.cleanPhone phone = digitsAndPluses phone
  /\ (forallb digitOrPlus (list_ascii_of_string phone) = true -> Utils.cleanPhone phone = phone)
  /\ (forall c, digitOrPlus c = true ->
        Utils.cleanPhone (String c phone) = String c (Utils.cleanPhone phone))
  /\ (forall c, digitOrPlus c = false ->
        Utils.cleanPhone (String c phone) = Utils.cleanPhone phone)
  /\ Utils.cleanPhone (Utils.cleanPhone phone) = Utils.cleanPhone phone
  /\ Utils.cleanPhone "+44 (0)20 7946-0000" = "+4402079460000".
Proof.
  split; [apply cleanPhone_filter|]. split; [apply cleanPhone_kept|].
  split; [intros c Hc; cbn [Utils.cleanPhone]; rewrite (digitOrPlus_eq c); rewrite Hc; reflexivity|].
  split; [intros c Hc; apply cleanPhone_dropped, Hc|].
  split; [apply cleanPhone_kept, cleanPhone_all|reflexivity].
Qed.

Lemma substring_all (s : string) : String.substring 0 (String.length s) s = s.
Proof. induction s as [|c s IH]; [reflexivity|]. simpl. rewrite IH. reflexivity. Qed.

Lemma substring_after (p s : string) :
  String.substring (String.length p) (String.length (p +:+ s) - String.length p) (p +:+ s) = s.
Proof.
  induction p as [|c p IH].
  - rewrite LocationFacts.append_nil_l. simpl. rewrite Nat.sub_0_r. apply substring_all.
  - rewrite LocationFacts.append_cons. simpl. exact IH.
Qed.

Lemma dropPrefix_append (p s : string) : Utils.dropPrefix p (p +:+ s) = Some s.
Proof.
  unfold Utils.dropPrefix.
  assert (Hp : String.prefix p (p +:+ s) = true)
    by (apply LocationFacts.prefix_iff; exists s; reflexivity).
  rewrite Hp, substring_after. reflexivity.
Qed.

Lemma removeInstagramPrefix_unfold (s : string) :
  Utils.removeInstagramPrefix s
  = match Utils.instagramPrefixAt s with
    | Some rest => rest
    | None =>
        match s with
        | EmptyString => EmptyString
        | String c s' => String c (Utils.removeInstagramPrefix s')
        end
    end.
Proof. destruct s; reflexivity. Qed.

Lemma removeInstagramPrefix_profile (h : string) :
  Utils.removeInstagramPrefix ("https://instagram.com/" +:+ h) = h.
Proof.
  assert (H1 : Utils.dropPrefix "http" ("https://instagram.com/" +:+ h)
               = Some ("s://instagram.com/" +:+ h))
    by exact (dropPrefix_append "http" ("s://instagram.com/" +:+ h)).
  assert (H2 : Utils.dropPrefix "s" ("s://instagram.com/" +:+ h)
               = Some ("://instagram.com/" +:+ h))
    by exact (dropPrefix_append "s" ("://instagram.com/" +:+ h)).
  assert (H3 : Utils.dropPrefix "://" ("://instagram.com/" +:+ h)
               = Some ("instagram.com/" +:+ h))
    by exact (dropPrefix_append "://" ("instagram.com/" +:+ h)).
  assert (H4 : Utils.dropPrefix "www." ("instagram.com/" +:+ h) = None) by reflexivity.
  assert (H5 : Utils.dropPrefix "instagram.com" ("instagram.com/" +:+ h) = Some ("/" +:+ h))
    by exact (dropPrefix_append "instagram.com" ("/" +:+ h)).
  assert (H6 : Utils.dropPrefix "/" ("/" +:+ h) = Some h)
    by exact (dropPrefix_append "/" h).
  assert (Hat : Utils.instagramPrefixAt ("https://instagram.com/" +:+ h) = Some h).
  { unfold Utils.instagramPrefixAt.
    rewrite H1. cbn [mbind option_bind]. rewrite H2. cbn [default from_option id].
    rewrite H3. cbn [mbind option_bind]. rewrite H4. cbn [default from_option id].
    rewrite H5. cbn [mbind option_bind]. rewrite H6. reflexivity. }
  rewrite removeInstagramPrefix_unfold, Hat. reflexivity.
Qed.

(** X3: the direct-message link of [getInstagramDMUrl] for a profile URL
    of the form written by the enrichment, https://instagram.com/ and a
    handle, is https://ig.me/m/ and that handle (less a final slash). *)
Theorem getInstagramDMUrl_of_profile (handle : string) :
  Utils.getInstagramDMUrl ("https://instagram.com/" +:+ handle)
  = "https://ig.me/m/" +:+ JS.removeTrailingSlash handle.
Proof. unfold Utils.getInstagramDMUrl. rewrite removeInstagramPrefix_profile. reflexivity. Qed.

End UtilsFacts.

(* ===================================================================== *)
(** ** Properties of the website audit *)
(* ===================================================================== *)

Module AuditFacts.
Import Audit.

(** What a check, and a speed score, cost. *)
Definition cost (check : option bool) (deduction : Z) : Z :=
  match check with
  | Some false => deduction
  | _ => 0
  end.

Definition speedCost (speed : option JS.number) : Z :=
  match speed with
  | Some n => if JS.lt n 50 then 10 else if JS.lt n 70 then 5 else 0
  | None => 0
  end.

Lemma deduct_cost (check : option bool) (d s : Z) : deduct check d s = s - cost check d.
Proof. destruct check as [[]|]; simpl; lia. Qed.

Lemma deductSpeed_cost (speed : option JS.number) (s : Z) :
  deductSpeed speed s = s - speedCost speed.
Proof.
  destruct speed as [n|]; simpl; [|lia].
  destruct (JS.lt n 50); [lia|]. destruct (JS.lt n 70); lia.
Qed.

Lemma cost_range (check : option bool) (d : Z) : 0 <= d -> 0 <= cost check d <= d.
Proof. destruct check as [[]|]; simpl; lia. Qed.

Lemma speedCost_range (speed : option JS.number) : 0 <= speedCost speed <= 10.
Proof.
  destruct speed as [n|]; simpl; [|lia].
  destruct (JS.lt n 50); [lia|]. destruct (JS.lt n 70); lia.
Qed.

Lemma rawAuditScore_costs (checks : Checks.t) :
  rawAuditScore checks
  = 100 - (cost (Checks.ssl_check checks) 15 + cost (Checks.has_social_media checks) 8
           + cost (Checks.has_click_to_call checks) 8 + cost (Checks.has_video checks) 5
           + cost (Checks.has_chatbot checks) 5 + cost (Checks.has_booking checks) 10
           + cost (Checks.has_meta_description checks) 8 + cost (Checks.has_h1 checks) 5
           + cost (Checks.has_analytics checks) 10 + cost (Checks.has_schema checks) 6
           + speedCost (Checks.mobile_score checks) + speedCost (Checks.speed_score checks)).
Proof.
  unfold rawAuditScore. rewrite !deductSpeed_cost, !deduct_cost. lia.
Qed.

Lemma rawAuditScore_range (checks : Checks.t) : 0 <= rawAuditScore checks <= 100.
Proof.
  rewrite rawAuditScore_costs.
  pose proof (cost_range (Checks.ssl_check checks) 15).
  pose proof (cost_range (Checks.has_social_media checks) 8).
  pose proof (cost_range (Checks.has_click_to_call checks) 8).
  pose proof (cost_range (Checks.has_video checks) 5).
  pose proof (cost_range (Checks.has_chatbot checks) 5).
  pose proof (cost_range (Checks.has_booking checks) 10).
  pose proof (cost_range (Checks.has_meta_description checks) 8).
  pose proof (cost_range (Checks.has_h1 checks) 5).
  pose proof (cost_range (Checks.has_analytics checks) 10).
  pose proof (cost_range (Checks.has_schema checks) 6).
  pose proof (speedCost_range (Checks.mobile_score checks)).
  pose proof (speedCost_range (Checks.speed_score checks)).
  lia.
Qed.

Lemma calculateAuditScore_raw (checks : Checks.t) :
  calculateAuditScore checks = rawAuditScore checks.
Proof. unfold calculateAuditScore. pose proof (rawAuditScore_range checks). lia. Qed.

(** X4: the audit score is 100 less the deductions of the checks that
    are [false] (15, 8, 8, 5, 5, 10, 8, 5, 10, 6) and of the two speed
    scores (10 below 50, 5 below 70); these add up to 100 at most, so the
    score lies between 0 and 100 and the final clamping never changes
    it.  An absent check costs nothing. *)
Theorem audit_score_is_100_less_deductions (checks : Checks.t) :
  calculateAuditScore checks
  = 100 - (cost (Checks.ssl_check checks) 15 + cost (Checks.has_social_media checks) 8
           + cost (Checks.has_click_to_call checks) 8 + cost (Checks.has_video checks) 5
           + cost (Checks.has_chatbot checks) 5 + cost (Checks.has_booking checks) 10
           + cost (Checks.has_meta_description checks) 8 + cost (Checks.has_h1 checks) 5
           + cost (Checks.has_analytics checks) 10 + cost (Checks.has_schema checks) 6
           + speedCost (Checks.mobile_score checks) + speedCost (Checks.speed_score checks))
  /\ calculateAuditScore checks = rawAuditScore checks
  /\ 0 <= calculateAuditScore checks <= 100.
Proof.
  rewrite calculateAuditScore_raw. split; [apply rawAuditScore_costs|].
  split; [reflexivity|apply rawAuditScore_range].
Qed.

Definition bonus (c : bool) (n : Z) : Z := if c then n else 0.

Lemma JS_truthy_nonempty (s : string) : s <> "" -> JS.truthy (Some s) = true.
Proof. intros H. unfold JS.truthy. destruct (String.eqb_spec s ""); [contradiction|reflexivity]. Qed.

Lemma addIf_bonus (c : bool) (n s : Z) : addIf c n s = s + bonus c n.
Proof. destruct c; simpl; lia. Qed.

Lemma bonus_range (c : bool) (n : Z) : 0 <= n -> 0 <= bonus c n <= n.
Proof. destruct c; simpl; lia. Qed.

Lemma rawLeadScore_range (lead : Db.Lead) (d : Data.t) :
  (if JS.truthy (Db.website lead) then 5 else 0) <= rawLeadScore lead d <= 70.
Proof.
  unfold rawLeadScore. rewrite !addIf_bonus.
  assert (Hw : bonus (JS.truthy (Db.website lead)) 5
               = if JS.truthy (Db.website lead) then 5 else 0) by reflexivity.
  repeat match goal with
         | |- context [bonus ?c ?n] =>
             let H := fresh "H" in
             let x := fresh "x" in
             pose proof (bonus_range c n ltac:(lia)) as H;
             set (x := bonus c n) in *; clearbody x
         end.
  repeat match goal with
         | |- context [if ?b then _ else _] => destruct b
         end; lia.
Qed.

(** X5: the lead score that the audit handler stores never exceeds 70
    (20 for the contact details, 30 for the audit issues, 20 for the
    reviews), and is at least 5, the audited lead having a website; the
    [Math.min(100, ...)] never applies, the grades A+ and A are never
    given, and the grade is B, and the priority hot, exactly when the
    score is 70.  An answer that is an error leaves both tables as they
    were. *)
Theorem audit_lead_score_at_most_70 (env : Env) (leads : gmap string Db.Lead)
    (audits : list (string * Data.t)) (leadId : option string) :
  match POST env leads audits leadId with
  | (Json auditData leadScore grade priority, _, _) =>
      5 <= leadScore <= 70
      /\ grade <> "A+" /\ grade <> "A"
      /\ (grade = "B" <-> leadScore = 70)
      /\ (priority = "hot" <-> leadScore = 70)
  | (JsonError _ _, leads', audits') => leads' = leads /\ audits' = audits
  end.
Proof.
  unfold POST.
  destruct (negb (JS.truthy leadId)); [split; reflexivity|].
  destruct (leads !! JS.orEmpty leadId) as [lead|]; [|split; reflexivity].
  destruct (JS.truthy (Db.website lead)) eqn:Hw; simpl; [|split; reflexivity].
  set (d := auditDataOf env _).
  pose proof (rawLeadScore_range lead d) as Hr. rewrite Hw in Hr.
  unfold leadScoreOf. replace (Z.min 100 (rawLeadScore lead d)) with (rawLeadScore lead d) by lia.
  unfold gradeOfLeadScore, priorityOfLeadScore.
  destruct (Z.geb_spec (rawLeadScore lead d) 90); [lia|].
  destruct (Z.geb_spec (rawLeadScore lead d) 80); [lia|].
  destruct (Z.geb_spec (rawLeadScore lead d) 70).
  - repeat split; try discriminate; intros; lia.
  - split; [lia|]. split; [|split; [|split]].
    + destruct (rawLeadScore lead d >=? 60), (rawLeadScore lead d >=? 50); discriminate.
    + destruct (rawLeadScore lead d >=? 60), (rawLeadScore lead d >=? 50); discriminate.
    + split; [|lia].
      destruct (rawLeadScore lead d >=? 60), (rawLeadScore lead d >=? 50); discriminate.
    + split; [|lia]. destruct (rawLeadScore lead d >=? 40); discriminate.
Qed.

Lemma auditDataOf_fields (env : Env) (url : string) :
  let d := auditDataOf env url in
  let h := htmlChecksOf env url in
  Data.ssl_check d = default (JS.startsWith url "https") (Html.ssl_check h)
  /\ Data.mobile_score d = fst (getPageSpeedScores env url)
  /\ Data.speed_score d = snd (getPageSpeedScores env url)
  /\ Data.has_social_media d = Html.has_social_media h
  /\ Data.has_click_to_call d = Html.has_click_to_call h
  /\ Data.has_video d = Html.has_video h
  /\ Data.has_chatbot d = Html.has_chatbot h
  /\ Data.has_booking d = Html.has_booking h
  /\ Data.has_meta_description d = Html.has_meta_description h
  /\ Data.has_h1 d = Html.has_h1 h
  /\ Data.has_analytics d = Html.has_analytics h
  /\ Data.has_schema d = Html.has_schema h.
Proof.
  unfold auditDataOf. destruct (getPageSpeedScores env url) as [mobile speed].
  simpl. repeat split.
Qed.

Lemma overall_score_eq (env : Env) (url : string) :
  Data.overall_score (auditDataOf env url)
  = calculateAuditScore (Data.toChecks (auditDataOf env url)).
Proof.
  unfold auditDataOf. destruct (getPageSpeedScores env url) as [mobile speed].
  reflexivity.
Qed.

(** An environment in which the crawl of every page yields [page] and
    PageSpeed gives 90 for both scores. *)
Definition crawlingEnv (page : string) : Env :=
  {| FIRECRAWL_API_KEY := "fc-key";
     firecrawl := fun _ => Html page;
     patternTests := fun _ => Html.none;
     pageSpeed := fun _ => Some (JS.Num 90, JS.Num 90);
     now := "2026-03-02T09:30:00.000Z" |}.

(** An environment without a Firecrawl key and without PageSpeed. *)
Definition offlineEnv : Env :=
  {| FIRECRAWL_API_KEY := "";
     firecrawl := fun _ => Rejects Scrape.OtherValue;
     patternTests := fun _ => Html.none;
     pageSpeed := fun _ => None;
     now := "2026-03-02T09:30:00.000Z" |}.

(** X6: when the crawl of the site returns a page, the audit records
    [ssl_check] as [true] whatever the URL, also for an http:// address:
    the key written by [analyzeHTML] replaces the one computed from the
    URL, so that no point is deducted for SSL and the lead gets none of
    the 3 points of a missing certificate. *)
Theorem crawled_site_is_recorded_as_ssl (env : Env) (url html : string)
    (Hcrawl : crawlWebsite env url = Scrape.Normal html) (Hhtml : html <> "") :
  Data.ssl_check (auditDataOf env url) = true
  /\ cost (Checks.ssl_check (Data.toChecks (auditDataOf env url))) 15 = 0
  /\ bonus (negb (Data.ssl_check (auditDataOf env url))) 3 = 0.
Proof.
  assert (Hssl : Data.ssl_check (auditDataOf env url) = true).
  { destruct (auditDataOf_fields env url) as (-> & _).
    unfold htmlChecksOf. rewrite Hcrawl.
    apply JS_truthy_nonempty in Hhtml. rewrite Hhtml. reflexivity. }
  split; [exact Hssl|]. split.
  - simpl. rewrite Hssl. reflexivity.
  - rewrite Hssl. reflexivity.
Qed.

Lemma crawled_site_is_recorded_as_ssl_witness :
  JS.startsWith "http://plain.example" "https" = false
  /\ Data.ssl_check (auditDataOf (crawlingEnv "<html></html>") "http://plain.example") = true.
Proof.
  split; [reflexivity|].
  refine (proj1 _).
  apply (crawled_site_is_recorded_as_ssl (crawlingEnv "<html></html>")
           "http://plain.example" "<html></html>"); [reflexivity|discriminate].
Defined.

Lemma failed_crawl_checks (env : Env) (url : string) (e : Scrape.thrown) :
  crawlWebsite env url = Scrape.Throw e ->
  let d := auditDataOf env url in
  Data.ssl_check d = JS.startsWith url "https"
  /\ [Data.has_social_media d; Data.has_click_to_call d; Data.has_video d;
      Data.has_chatbot d; Data.has_booking d; Data.has_meta_description d;
      Data.has_h1 d; Data.has_analytics d; Data.has_schema d]
     = replicate 9 false.
Proof.
  intros Hcrawl d.
  destruct (auditDataOf_fields env url)
    as (Hssl & _ & _ & H1 & H2 & H3 & H4 & H5 & H6 & H7 & H8 & H9).
  fold d in Hssl, H1, H2, H3, H4, H5, H6, H7, H8, H9.
  assert (Hh : htmlChecksOf env url = Html.none)
    by (unfold htmlChecksOf; rewrite Hcrawl; reflexivity).
  rewrite Hh in *. simpl in Hssl, H1, H2, H3, H4, H5, H6, H7, H8, H9.
  split; [exact Hssl|].
  rewrite H1, H2, H3, H4, H5, H6, H7, H8, H9. reflexivity.
Qed.

Lemma failed_crawl_overall (env : Env) (url : string) (e : Scrape.thrown) :
  crawlWebsite env url = Scrape.Throw e ->
  let d := auditDataOf env url in
  Data.overall_score d
  = 35 - (if JS.startsWith url "https" then 0 else 15)
    - speedCost (Some (Data.mobile_score d)) - speedCost (Some (Data.speed_score d)).
Proof.
  intros Hcrawl d.
  destruct (failed_crawl_checks env url e Hcrawl) as (Hssl & Hflags).
  fold d in Hssl, Hflags. injection Hflags as H1 H2 H3 H4 H5 H6 H7 H8 H9.
  unfold d. rewrite overall_score_eq. fold d.
  rewrite calculateAuditScore_raw, rawAuditScore_costs. simpl.
  rewrite Hssl, H1, H2, H3, H4, H5, H6, H7, H8, H9. simpl.
  destruct (JS.startsWith url "https"); simpl; lia.
Qed.

Lemma failed_crawl_overall_range (env : Env) (url : string) (e : Scrape.thrown) :
  crawlWebsite env url = Scrape.Throw e ->
  0 <= Data.overall_score (auditDataOf env url) <= 35.
Proof.
  intros Hcrawl. rewrite (failed_crawl_overall env url e Hcrawl).
  pose proof (speedCost_range (Some (Data.mobile_score (auditDataOf env url)))).
  pose proof (speedCost_range (Some (Data.speed_score (auditDataOf env url)))).
  destruct (JS.startsWith url "https"); lia.
Qed.

(** X7: when the crawl fails (no Firecrawl key, a rejected request, a
    status that is not ok), every pattern check is recorded as failed
    and [ssl_check] is whether the URL starts with https; the audit score
    is then at most 35, and when PageSpeed fails too it is exactly 15 for
    an https URL and 0 otherwise. *)
Theorem failed_crawl_scores_at_most_35 (env : Env) (url : string) (e : Scrape.thrown)
    (Hcrawl : crawlWebsite env url = Scrape.Throw e) :
  let d := auditDataOf env url in
  Data.ssl_check d = JS.startsWith url "https"
  /\ [Data.has_social_media d; Data.has_click_to_call d; Data.has_video d;
      Data.has_chatbot d; Data.has_booking d; Data.has_meta_description d;
      Data.has_h1 d; Data.has_analytics d; Data.has_schema d]
     = replicate 9 false
  /\ 0 <= Data.overall_score d <= 35
  /\ (pageSpeed env url = None ->
      Data.overall_score d = if JS.startsWith url "https" then 15 else 0).
Proof.
  intros d.
  destruct (failed_crawl_checks env url e Hcrawl) as (Hssl & Hflags).
  split; [exact Hssl|]. split; [exact Hflags|].
  split; [exact (failed_crawl_overall_range env url e Hcrawl)|].
  intros Hps. unfold d. rewrite (failed_crawl_overall env url e Hcrawl).
  destruct (auditDataOf_fields env url) as (_ & -> & -> & _).
  unfold getPageSpeedScores. rewrite Hps. simpl.
  destruct (JS.startsWith url "https"); reflexivity.
Qed.

Lemma failed_crawl_scores_at_most_35_witness :
  Data.overall_score (auditDataOf offlineEnv "https://acme.com") = 15
  /\ Data.overall_score (auditDataOf offlineEnv "http://acme.com") = 0.
Proof.
  split.
  - apply (failed_crawl_scores_at_most_35 offlineEnv "https://acme.com"
             (Scrape.ErrorObject "Firecrawl API key not configured") eq_refl).
    reflexivity.
  - apply (failed_crawl_scores_at_most_35 offlineEnv "http://acme.com"
             (Scrape.ErrorObject "Firecrawl API key not configured") eq_refl).
    reflexivity.
Defined.

End AuditFacts.

(* ===================================================================== *)
(** ** The scoring handler *)
(* ===================================================================== *)

Module ScoreRouteFacts.
Import ScoreRoute.

(** The row after the handler has scored it at the time [stamp]. *)
Definition rescore (stamp : string) (row : Db.Lead) : Db.Lead :=
  let scoreResult := Scoring.calculateLeadScore (Db.toLeadInput row) in
  Db.setScore (Scoring.total scoreResult)
              (Db.gradeString (Scoring.grade scoreResult))
              (Db.priorityString (Scoring.priority scoreResult)) stamp row.

(** The entry of [results] for [leadId], if the table has the row. *)
Definition outcome (table : gmap string Db.Lead) (leadId : string) : option Scored :=
  (fun row =>
     let scoreResult := Scoring.calculateLeadScore (Db.toLeadInput row) in
     {| id := leadId; score := Scoring.total scoreResult;
        grade := Db.gradeString (Scoring.grade scoreResult);
        priority := Db.priorityString (Scoring.priority scoreResult) |})
  <$> table !! leadId.

(** The entry of [activity_log] for [leadId], if the table has the row. *)
Definition logged (table : gmap string Db.Lead) (leadId : string) : option Db.Activity :=
  (fun row =>
     let scoreResult := Scoring.calculateLeadScore (Db.toLeadInput row) in
     {| Db.action_type := "score";
        Db.description :=
          Db.Scored (Db.business_name row) (Scoring.total scoreResult)
                    (Db.gradeString (Scoring.grade scoreResult))
                    (Db.priorityString (Scoring.priority scoreResult));
        Db.lead_id := Some leadId;
        Db.metadata :=
          Some (Scoring.factors scoreResult, Scoring.recommendation scoreResult) |})
  <$> table !! leadId.

(** The columns that the scoring handler does not write are the same in
    the two rows. *)
Definition sameOtherColumns (row row' : Db.Lead) : Prop :=
  Db.business_name row' = Db.business_name row
  /\ Db.address row' = Db.address row /\ Db.city row' = Db.city row
  /\ Db.country row' = Db.country row /\ Db.phone row' = Db.phone row
  /\ Db.email row' = Db.email row /\ Db.website row' = Db.website row
  /\ Db.instagram_url row' = Db.instagram_url row
  /\ Db.google_rating row' = Db.google_rating row
  /\ Db.google_review_count row' = Db.google_review_count row
  /\ Db.source row' = Db.source row
  /\ Db.audit_score row' = Db.audit_score row
  /\ Db.audit_status row' = Db.audit_status row.

(** The row without its time stamp. *)
Definition unstamped (row : Db.Lead) : Db.Lead :=
  {| Db.business_name := Db.business_name row; Db.address := Db.address row;
     Db.city := Db.city row; Db.country := Db.country row; Db.phone := Db.phone row;
     Db.email := Db.email row; Db.website := Db.website row;
     Db.instagram_url := Db.instagram_url row;
     Db.google_rating := Db.google_rating row;
     Db.google_review_count := Db.google_review_count row;
     Db.source := Db.source row; Db.lead_score := Db.lead_score row;
     Db.lead_grade := Db.lead_grade row; Db.lead_priority := Db.lead_priority row;
     Db.audit_score := Db.audit_score row; Db.audit_status := Db.audit_status row;
     Db.updated_at := None |}.

(** The priority that the handler writes passes the check of its column. *)
Lemma priorityString_admitted (p : Scoring.Priority) :
  Db.priorityCheck (Some (Db.priorityString p)) = true.
Proof. destruct p; reflexivity. Qed.

Lemma rescore_rescore (s s' : string) (row : Db.Lead) :
  rescore s' (rescore s row) = rescore s' row.
Proof. reflexivity. Qed.

Lemma total_range (l : Scoring.LeadInput) :
  5 <= Scoring.total (Scoring.calculateLeadScore l) <= 100.
Proof.
  rewrite ScoringFacts.total_eq.
  pose proof (ScoringFacts.completeness_bounds l).
  pose proof (ScoringFacts.socialScore_bounds l).
  pose proof (ScoringFacts.websiteScore_bounds l).
  pose proof (ScoringFacts.reviewScore_bounds l).
  unfold Scoring.emailScore, Scoring.phoneScore.
  destruct (JS.truthy _), (JS.truthy _); lia.
Qed.

Section WithClock.
Variable now : nat -> string.

(** One turn of the loop on a row that the table has: [row] is the row
    as the request found it, [current] the row now (scored already by
    this request, or not). *)
Lemma scoreLead_found (st : State) (leadId : string) (row current : Db.Lead) :
  leads st !! leadId = Some current ->
  Db.toLeadInput current = Db.toLeadInput row ->
  Db.business_name current = Db.business_name row ->
  rescore (now (length (results st))) current = rescore (now (length (results st))) row ->
  forall table, table !! leadId = Some row ->
  scoreLead now st leadId
  = {| leads := alter (fun _ => rescore (now (length (results st))) row) leadId (leads st);
       activity_log := activity_log st ++ option_list (logged table leadId);
       results := results st ++ option_list (outcome table leadId) |}.
Proof.
  intros Hcur Hin Hname Hre table Hrow. unfold scoreLead, outcome, logged.
  rewrite Hcur, Hrow, Hin, Hname. cbn [fmap option_fmap option_map option_list].
  f_equal. apply alter_ext. intros x Hx.
  assert (x = current) as -> by congruence.
  rewrite <- Hre. unfold rescore. rewrite Hin. reflexivity.
Qed.

Lemma scoreLead_missing (st : State) (leadId : string) :
  leads st !! leadId = None -> scoreLead now st leadId = st.
Proof. intros H. unfold scoreLead. rewrite H. reflexivity. Qed.

(** The state after the loop over [ids], from the table [table] and the
    log [log]. *)
Lemma foldl_scoreLead (ids : list string) (table : gmap string Db.Lead)
    (log : list Db.Activity) :
  let st := foldl (scoreLead now)
                  {| leads := table; activity_log := log; results := [] |} ids in
  results st = omap (outcome table) ids
  /\ activity_log st = log ++ omap (logged table) ids
  /\ (forall leadId, leadId ∉ ids \/ table !! leadId = None ->
        leads st !! leadId = table !! leadId)
  /\ (forall leadId row, leadId ∈ ids -> table !! leadId = Some row ->
        exists k scored,
          results st !! k = Some scored /\ id scored = leadId
          /\ leads st !! leadId = Some (rescore (now k) row)).
Proof.
  induction ids as [|a ids IH] using rev_ind.
  - cbn. rewrite app_nil_r. repeat split; try reflexivity.
    intros leadId row Hin. inversion Hin.
  - rewrite foldl_app. cbn [foldl].
    set (st := foldl (scoreLead now) _ ids) in *. cbn zeta in IH.
    destruct IH as (Hres & Hlog & Hframe & Hscored).
    rewrite !omap_app. cbn [omap list_omap].
    destruct (table !! a) as [row|] eqn:Ha.
    + assert (Hcur : exists current,
                 leads st !! a = Some current
                 /\ Db.toLeadInput current = Db.toLeadInput row
                 /\ Db.business_name current = Db.business_name row
                 /\ forall s, rescore s current = rescore s row).
      { destruct (decide (a ∈ ids)) as [Hin|Hin].
        - destruct (Hscored a row Hin Ha) as (k & scored & _ & _ & Hk).
          exists (rescore (now k) row). repeat split. exact Hk.
        - exists row. rewrite Hframe by (left; exact Hin). repeat split. exact Ha. }
      destruct Hcur as (current & Hcur & Hin & Hname & Hre).
      rewrite (scoreLead_found st a row current Hcur Hin Hname (Hre _) table Ha).
      cbn [results activity_log leads].
      assert (Hout : outcome table a
                     = Some {| id := a;
                               score := Scoring.total (Scoring.calculateLeadScore (Db.toLeadInput row));
                               grade := Db.gradeString (Scoring.grade (Scoring.calculateLeadScore (Db.toLeadInput row)));
                               priority := Db.priorityString (Scoring.priority (Scoring.calculateLeadScore (Db.toLeadInput row))) |})
        by (unfold outcome; rewrite Ha; reflexivity).
      split; [rewrite Hres, Hout; reflexivity|].
      split; [rewrite Hlog, <- app_assoc; unfold logged; rewrite Ha; reflexivity|].
      split.
      * intros leadId Hno.
        assert (Hne : a <> leadId).
        { intros ->. destruct Hno as [Hno|Hno]; [|congruence].
          apply Hno, elem_of_app. right. left. }
        rewrite lookup_alter_ne by exact Hne. apply Hframe.
        destruct Hno as [Hno|Hno]; [left|right; exact Hno].
        intros Hin'. apply Hno, elem_of_app. left. exact Hin'.
      * intros leadId row' Hin' Hrow'.
        destruct (decide (a = leadId)) as [<-|Hne].
        -- assert (row' = row) as -> by congruence.
           exists (length (results st)). eexists. split; [|split].
           ++ rewrite Hout. cbn [option_list]. apply list_lookup_middle. reflexivity.
           ++ reflexivity.
           ++ rewrite lookup_alter_eq, Hcur. reflexivity.
        -- apply elem_of_app in Hin' as [Hin'|Hin'];
             [|apply list_elem_of_singleton in Hin'; congruence].
           destruct (Hscored leadId row' Hin' Hrow') as (k & scored & Hk & Hid & Hrowk).
           exists k, scored. split; [apply lookup_app_l_Some; exact Hk|].
           split; [exact Hid|]. rewrite lookup_alter_ne by exact Hne. exact Hrowk.
    + assert (Hmiss : leads st !! a = None) by (rewrite Hframe by (right; exact Ha); exact Ha).
      rewrite (scoreLead_missing st a Hmiss).
      assert (Hout : outcome table a = None) by (unfold outcome; rewrite Ha; reflexivity).
      assert (Hlogged : logged table a = None) by (unfold logged; rewrite Ha; reflexivity).
      rewrite Hout, Hlogged, !app_nil_r.
      split; [exact Hres|]. split; [exact Hlog|]. split.
      * intros leadId Hno. apply Hframe.
        destruct Hno as [Hno|Hno]; [|right; exact Hno].
        destruct (decide (leadId = a)) as [->|Hne]; [right; exact Ha|].
        left. intros Hin'. apply Hno, elem_of_app. left. exact Hin'.
      * intros leadId row' Hin' Hrow'.
        apply elem_of_app in Hin' as [Hin'|Hin'];
          [exact (Hscored leadId row' Hin' Hrow')|].
        apply list_elem_of_singleton in Hin'. congruence.
Qed.

Lemma POST_eq (table : gmap string Db.Lead) (log : list Db.Activity) (ids : list string) :
  ids <> [] ->
  let st := foldl (scoreLead now)
                  {| leads := table; activity_log := log; results := [] |} ids in
  POST now table log (Some ids)
  = (Json (length (results st)) (results st), leads st, activity_log st).
Proof.
  intros Hids. unfold POST.
  destruct ids as [|a ids]; [contradiction|reflexivity].
Qed.

End WithClock.

Lemma outcome_id (table : gmap string Db.Lead) (leadId : string) (scored : Scored) :
  outcome table leadId = Some scored ->
  id scored = leadId
  /\ exists row, table !! leadId = Some row
       /\ score scored = Scoring.total (Scoring.calculateLeadScore (Db.toLeadInput row))
       /\ grade scored
          = Db.gradeString (Scoring.grade (Scoring.calculateLeadScore (Db.toLeadInput row)))
       /\ priority scored
          = Db.priorityString (Scoring.priority (Scoring.calculateLeadScore (Db.toLeadInput row))).
Proof.
  unfold outcome. destruct (table !! leadId) as [row|]; [|discriminate].
  intros [= <-]. split; [reflexivity|]. exists row. repeat split.
Qed.

(** X8: a request that lists at least one id answers with one result per
    listed id that the table has, in the order of the list (an id listed
    twice is reported twice, an unknown id is passed over), and adds one
    entry to the activity log for each result, in the same order.  It
    leaves the rows that are not listed as they were and adds no row;
    every listed row gets the score, grade and priority that
    [calculateLeadScore] gives for it, which are those of its result,
    and the time of one of its updates as [updated_at]; its other
    columns are unchanged.  The score written lies between 5 and 100
    and the priority is one that the check of its column admits. *)
Theorem score_route_rescores_listed_rows (now : nat -> string)
    (table : gmap string Db.Lead) (log : list Db.Activity) (ids : list string)
    (Hids : ids <> []) :
  let results := omap (outcome table) ids in
  let answer := POST now table log (Some ids) in
  answer.1.1 = Json (length results) results
  /\ answer.2 = log ++ omap (logged table) ids
  /\ (forall leadId, leadId ∉ ids -> answer.1.2 !! leadId = table !! leadId)
  /\ (forall leadId, table !! leadId = None -> answer.1.2 !! leadId = None)
  /\ (forall leadId row, leadId ∈ ids -> table !! leadId = Some row ->
        exists k scored row',
          results !! k = Some scored /\ id scored = leadId
          /\ answer.1.2 !! leadId = Some row'
          /\ Db.lead_score row' = Some (score scored)
          /\ Db.lead_grade row' = Some (grade scored)
          /\ Db.lead_priority row' = Some (priority scored)
          /\ Db.updated_at row' = Some (now k)
          /\ sameOtherColumns row row'
          /\ score scored = Scoring.total (Scoring.calculateLeadScore (Db.toLeadInput row))
          /\ 5 <= score scored <= 100
          /\ Db.priorityCheck (Some (priority scored)) = true).
Proof.
  intros results answer. unfold answer. rewrite (POST_eq now table log ids Hids).
  destruct (foldl_scoreLead now ids table log) as (Hres & Hlog & Hframe & Hscored).
  cbn zeta in *. cbn [fst snd]. rewrite Hres. fold results.
  split; [reflexivity|]. split; [exact Hlog|]. split; [|split].
  - intros leadId Hno. apply Hframe. left. exact Hno.
  - intros leadId Hno. rewrite Hframe by (right; exact Hno). exact Hno.
  - intros leadId row Hin Hrow.
    destruct (Hscored leadId row Hin Hrow) as (k & scored & Hk & Hid & Hrowk).
    rewrite Hres in Hk. fold results in Hk.
    exists k, scored, (rescore (now k) row).
    assert (Hmem : scored ∈ results) by (apply list_elem_of_lookup; eauto).
    apply list_elem_of_omap in Hmem as (x & _ & Hx).
    destruct (outcome_id table x scored Hx) as (Hidx & row0 & Hrow0 & Hs & Hg & Hp).
    assert (x = leadId) as -> by congruence.
    assert (row0 = row) as -> by congruence.
    split; [exact Hk|]. split; [exact Hid|]. split; [exact Hrowk|].
    split; [rewrite Hs; reflexivity|]. split; [rewrite Hg; reflexivity|].
    split; [rewrite Hp; reflexivity|]. split; [reflexivity|].
    split; [repeat split|]. split; [exact Hs|].
    split; [rewrite Hs; apply total_range|].
    rewrite Hp. apply priorityString_admitted.
Qed.

Definition oneLead : Db.Lead :=
  {| Db.business_name := "Acme Spa"; Db.address := None; Db.city := None;
     Db.country := None; Db.phone := Some "+44 20 7946 0000";
     Db.email := Some "info@acme.com"; Db.website := Some "https://acme.com";
     Db.instagram_url := Some "https://instagram.com/acme";
     Db.google_rating := None; Db.google_review_count := None;
     Db.source := "google_maps"; Db.lead_score := None; Db.lead_grade := None;
     Db.lead_priority := None; Db.audit_score := None; Db.audit_status := None;
     Db.updated_at := Some "2026-03-01T08:00:00.000Z" |}.

(** A clock that shows one second more at each update. *)
Definition secondsFrom (start : string) (n : nat) : string :=
  start +:+ match n with
            | 0%nat => "00.000Z"
            | 1%nat => "01.000Z"
            | _ => "02.000Z"
            end.

Lemma score_route_rescores_listed_rows_witness :
  (POST (secondsFrom "2026-03-02T09:30:") {[ "l1" := oneLead ]} []
        (Some ["l1"; "l9"; "l1"])).1.1
  = Json 2 [ {| id := "l1"; score := 69; grade := "B"; priority := "warm" |};
             {| id := "l1"; score := 69; grade := "B"; priority := "warm" |} ].
Proof.
  refine (eq_trans (proj1 (score_route_rescores_listed_rows
                             (secondsFrom "2026-03-02T09:30:")
                             {[ "l1" := oneLead ]} [] ["l1"; "l9"; "l1"] _)) _).
  - discriminate.
  - vm_compute. reflexivity.
Defined.

(** X9: the same request sent again, at other times, gives the same
    answer and writes the same scores, grades and priorities: the table
    after it differs from the table after the first request in the
    [updated_at] of the rows it scored at most, each of which is now a
    time of the second request; and the activity log receives the
    entries of the first request once more.  So the scores are settled
    by one request, while every request leaves its traces. *)
Theorem score_route_again_keeps_scores (now1 now2 : nat -> string)
    (table : gmap string Db.Lead) (log : list Db.Activity)
    (leadIds : option (list string)) :
  let first := POST now1 table log leadIds in
  let second := POST now2 first.1.2 first.2 leadIds in
  second.1.1 = first.1.1
  /\ (forall leadId,
        unstamped <$> second.1.2 !! leadId = unstamped <$> first.1.2 !! leadId)
  /\ (exists added, first.2 = log ++ added /\ second.2 = log ++ added ++ added)
  /\ (forall ids leadId row,
        leadIds = Some ids -> leadId ∈ ids -> table !! leadId = Some row ->
        exists k1 k2 row1 row2,
          first.1.2 !! leadId = Some row1 /\ Db.updated_at row1 = Some (now1 k1)
          /\ second.1.2 !! leadId = Some row2 /\ Db.updated_at row2 = Some (now2 k2)).
Proof.
  intros first second.
  destruct leadIds as [ids|]; [|repeat split; try reflexivity;
                                [exists []; rewrite !app_nil_r; split; reflexivity
                                |intros ids leadId row H; discriminate H]].
  destruct ids as [|a ids].
  { repeat split; try reflexivity.
    - exists []. rewrite !app_nil_r. split; reflexivity.
    - intros ids leadId row [= <-] Hin. inversion Hin. }
  assert (Hne : a :: ids <> []) by discriminate.
  unfold second, first. rewrite (POST_eq now1 table log (a :: ids) Hne).
  destruct (foldl_scoreLead now1 (a :: ids) table log) as (Hres1 & Hlog1 & Hframe1 & Hscored1).
  cbn zeta in *. cbn [fst snd].
  set (st1 := foldl (scoreLead now1) _ (a :: ids)) in *.
  rewrite (POST_eq now2 (leads st1) (activity_log st1) (a :: ids) Hne).
  destruct (foldl_scoreLead now2 (a :: ids) (leads st1) (activity_log st1))
    as (Hres2 & Hlog2 & Hframe2 & Hscored2).
  cbn zeta in *. cbn [fst snd].
  set (st2 := foldl (scoreLead now2) _ (a :: ids)) in *.
  assert (Hrows : forall leadId,
             leads st1 !! leadId = table !! leadId
             \/ exists s row, table !! leadId = Some row
                              /\ leads st1 !! leadId = Some (rescore s row)).
  { intros leadId. destruct (decide (leadId ∈ a :: ids)) as [Hin|Hin];
      [|left; apply Hframe1; left; exact Hin].
    destruct (table !! leadId) as [row|] eqn:Hrow;
      [|left; rewrite Hframe1 by (right; exact Hrow); exact Hrow].
    destruct (Hscored1 leadId row Hin Hrow) as (k & scored & _ & _ & Hk).
    right. exists (now1 k), row. split; [reflexivity|exact Hk]. }
  assert (Hout : forall leadId, outcome (leads st1) leadId = outcome table leadId).
  { intros leadId. unfold outcome.
    destruct (Hrows leadId) as [->|(s & row & -> & ->)]; reflexivity. }
  assert (Hlogged : forall leadId, logged (leads st1) leadId = logged table leadId).
  { intros leadId. unfold logged.
    destruct (Hrows leadId) as [->|(s & row & -> & ->)]; reflexivity. }
  assert (Hsame : omap (outcome (leads st1)) (a :: ids) = omap (outcome table) (a :: ids)).
  { apply list_omap_ext, Forall2_same_length_lookup_2; [reflexivity|].
    intros i x y Hx Hy. rewrite Hx in Hy. inversion Hy; subst y. apply Hout. }
  assert (Hsamelog : omap (logged (leads st1)) (a :: ids) = omap (logged table) (a :: ids)).
  { apply list_omap_ext, Forall2_same_length_lookup_2; [reflexivity|].
    intros i x y Hx Hy. rewrite Hx in Hy. inversion Hy; subst y. apply Hlogged. }
  split; [rewrite Hres2, Hsame, Hres1; reflexivity|]. split; [|split].
  - intros leadId. destruct (decide (leadId ∈ a :: ids)) as [Hin|Hin];
      [|rewrite Hframe2 by (left; exact Hin); reflexivity].
    destruct (table !! leadId) as [row|] eqn:Hrow.
    + destruct (Hscored1 leadId row Hin Hrow) as (k1 & s1 & _ & _ & Hk1).
      destruct (Hscored2 leadId _ Hin Hk1) as (k2 & s2 & _ & _ & Hk2).
      rewrite Hk1, Hk2. reflexivity.
    + assert (Hnone : leads st1 !! leadId = None)
        by (rewrite Hframe1 by (right; exact Hrow); exact Hrow).
      rewrite Hframe2 by (right; exact Hnone). reflexivity.
  - exists (omap (logged table) (a :: ids)). split; [exact Hlog1|].
    rewrite Hlog2, Hlog1, Hsamelog, <- app_assoc. reflexivity.
  - intros ids' leadId row [= <-] Hin Hrow.
    destruct (Hscored1 leadId row Hin Hrow) as (k1 & s1 & _ & _ & Hk1).
    destruct (Hscored2 leadId _ Hin Hk1) as (k2 & s2 & _ & _ & Hk2).
    exists k1, k2, (rescore (now1 k1) row), (rescore (now2 k2) (rescore (now1 k1) row)).
    repeat split; assumption.
Qed.

End ScoreRouteFacts.

(* ===================================================================== *)
(** ** An audit followed by a new score *)
(* ===================================================================== *)

Module AuditThenScoreFacts.
Import Scoring.

Lemma lt_whole (t c : Z) : JS.lt (JS.Num (inject_Z t)) (inject_Z c) = (t <? c).
Proof.
  unfold JS.lt, Qle_bool, inject_Z. simpl. rewrite !Z.mul_1_r.
  rewrite Z.ltb_antisym. reflexivity.
Qed.

Lemma Audit_POST_found (env : Audit.Env) (leads : gmap string Db.Lead)
    (audits : list (string * Audit.Data.t)) (id : string) (lead : Db.Lead) :
  id <> "" -> leads !! id = Some lead -> JS.truthy (Db.website lead) = true ->
  let d := Audit.auditDataOf env (Audit.websiteUrlOf (JS.orEmpty (Db.website lead))) in
  let leadScore := Audit.leadScoreOf lead d in
  Audit.POST env leads audits (Some id)
  = (Audit.Json d leadScore (Audit.gradeOfLeadScore leadScore)
                (Audit.priorityOfLeadScore leadScore),
     alter (Db.setAudit "complete" (Audit.Data.overall_score d) leadScore
              (Audit.gradeOfLeadScore leadScore) (Audit.priorityOfLeadScore leadScore)
              (Audit.now env))
           id leads,
     audits ++ [(id, d)]).
Proof.
  intros Hid Hlead Hsite d leadScore. unfold Audit.POST.
  rewrite (AuditFacts.JS_truthy_nonempty id Hid). cbn [negb JS.orEmpty default from_option Datatypes.id].
  rewrite Hlead, Hsite. reflexivity.
Qed.

(** X10: the audit and the scorer compose: when the crawl of the lead's
    site fails, the audit stores an audit score below 40, so a request to
    the scoring handler for that lead afterwards replaces the score that
    the audit had stored (70 at most) by the scorer's total, in which the
    factor Website Opportunity has its full 25 points and every other
    factor is as for the row before the audit; this holds at any time
    of the scoring request and whatever the activity log holds by then. *)
Theorem failed_audit_then_rescore (env : Audit.Env) (leads : gmap string Db.Lead)
    (audits : list (string * Audit.Data.t)) (id : string) (lead : Db.Lead)
    (e : Scrape.thrown) (now : nat -> string) (log : list Db.Activity)
    (Hid : id <> "") (Hlead : leads !! id = Some lead)
    (Hsite : JS.truthy (Db.website lead) = true)
    (Hcrawl : Audit.crawlWebsite env (Audit.websiteUrlOf (JS.orEmpty (Db.website lead)))
              = Scrape.Throw e) :
  let l := Db.toLeadInput lead in
  let leads1 := (Audit.POST env leads audits (Some id)).1.2 in
  let leads2 := (ScoreRoute.POST now leads1 log (Some [id])).1.2 in
  exists row1 row2 audited,
    leads1 !! id = Some row1 /\ leads2 !! id = Some row2
    /\ Db.audit_score row1 = Some audited /\ 0 <= audited <= 35
    /\ Db.audit_score row2 = Some audited
    /\ websiteScore (Db.toLeadInput row1) = 25
    /\ Db.lead_score row2
       = Some (emailScore l + phoneScore l + 25 + reviewScore l + socialScore l
               + completeness l).
Proof.
  intros l leads1 leads2. unfold leads2, leads1.
  rewrite (Audit_POST_found env leads audits id lead Hid Hlead Hsite). cbn [fst snd].
  rewrite ScoreRouteFacts.POST_eq by discriminate. cbn [fst snd].
  match goal with
  | |- context [foldl (ScoreRoute.scoreLead now)
                      {| ScoreRoute.leads := ?t; ScoreRoute.activity_log := _;
                         ScoreRoute.results := _ |} _] =>
      destruct (ScoreRouteFacts.foldl_scoreLead now [id] t log) as (_ & _ & _ & Hscored)
  end.
  cbn zeta in Hscored.
  destruct (Hscored id _ (list_elem_of_here _ _)
                    (eq_trans (lookup_alter_eq _ _ _)
                              (f_equal (fmap _) Hlead)))
    as (k & scored & _ & _ & Hk).
  rewrite Hk, lookup_alter_eq, Hlead. cbn [fmap option_fmap option_map].
  pose proof (AuditFacts.failed_crawl_overall_range env _ e Hcrawl) as Hrange.
  set (d := Audit.auditDataOf env _) in *.
  assert (Hweb : forall row, Db.audit_score row = Some (Audit.Data.overall_score d) ->
                             websiteScore (Db.toLeadInput row) = 25).
  { intros row Hrow. unfold websiteScore. cbn [audit_score Db.toLeadInput].
    rewrite Hrow. cbn [fmap option_fmap option_map].
    change (40 : Q) with (inject_Z 40). rewrite lt_whole.
    destruct (Z.ltb_spec (Audit.Data.overall_score d) 40); [reflexivity|lia]. }
  eexists _, _, (Audit.Data.overall_score d).
  split; [reflexivity|]. split; [reflexivity|].
  split; [reflexivity|]. split; [exact Hrange|]. split; [reflexivity|].
  split; [apply Hweb; reflexivity|].
  unfold ScoreRouteFacts.rescore. cbn [Db.lead_score Db.setScore]. f_equal.
  rewrite ScoringFacts.total_eq. rewrite Hweb by reflexivity. reflexivity.
Qed.

Definition unauditedRow : Db.Lead :=
  {| Db.business_name := "Acme Spa"; Db.address := None; Db.city := None;
     Db.country := None; Db.phone := None; Db.email := Some "info@acme.com";
     Db.website := Some "acme.com"; Db.instagram_url := None;
     Db.google_rating := None; Db.google_review_count := None;
     Db.source := "google_maps"; Db.lead_score := None; Db.lead_grade := None;
     Db.lead_priority := None; Db.audit_score := None; Db.audit_status := None;
     Db.updated_at := None |}.

Lemma failed_audit_then_rescore_witness :
  exists row1 row2 audited,
    (Audit.POST AuditFacts.offlineEnv {[ "l1" := unauditedRow ]} [] (Some "l1")).1.2 !! "l1"
    = Some row1
    /\ (ScoreRoute.POST (fun _ => "2026-03-02T10:00:00.000Z")
          (Audit.POST AuditFacts.offlineEnv {[ "l1" := unauditedRow ]} [] (Some "l1")).1.2
          [] (Some ["l1"])).1.2 !! "l1" = Some row2
    /\ Db.audit_score row1 = Some audited /\ 0 <= audited <= 35
    /\ Db.audit_score row2 = Some audited
    /\ websiteScore (Db.toLeadInput row1) = 25
    /\ Db.lead_score row2 = Some (25 + 0 + 25 + 0 + 4 + 8).
Proof.
  apply (failed_audit_then_rescore AuditFacts.offlineEnv {[ "l1" := unauditedRow ]} [] "l1"
           unauditedRow (Scrape.ErrorObject "Firecrawl API key not configured")
           (fun _ => "2026-03-02T10:00:00.000Z") []).
  - discriminate.
  - reflexivity.
  - reflexivity.
  - reflexivity.
Defined.

End AuditThenScoreFacts.

(* ===================================================================== *)
(** ** The CSV import *)
(* ===================================================================== *)

Module ImportFacts.
Import ImportRoute.

Lemma mapField_not_empty (row : gmap string string) (aliases : list string) :
  mapField row aliases <> Some "".
Proof.
  unfold mapField. destruct (firstAlias row aliases) as [v|]; [|discriminate].
  unfold JS.truthy. destruct (String.eqb_spec v ""); simpl; congruence.
Qed.

Lemma mapField_truthy (row : gmap string string) (aliases : list string) (v : string) :
  mapField row aliases = Some v -> v <> "".
Proof. intros H ->. exact (mapField_not_empty row aliases H). Qed.

(** What holds of every object that the import gives to [insert]. *)
Definition sentRow (lead : Db.Lead) : Prop :=
  Db.source lead = "csv_import"
  /\ Db.business_name lead <> ""
  /\ Forall (fun column => column <> Some "")
       [Db.email lead; Db.phone lead; Db.website lead; Db.address lead; Db.city lead;
        Db.country lead; Db.instagram_url lead]
  /\ Db.audit_score lead = None /\ Db.audit_status lead = None
  /\ exists total, Db.lead_score lead = Some total /\ 20 <= total <= 84.

Lemma scoreInput_total_range (env : Env) (mapped : Mapped) :
  JS.truthy (business_name mapped) = true ->
  20 <= Scoring.total (Scoring.calculateLeadScore (scoreInput env mapped)) <= 84.
Proof.
  intros Hname. rewrite ScoringFacts.total_eq.
  pose proof (ScoringFacts.reviewScore_bounds (scoreInput env mapped)).
  unfold Scoring.emailScore, Scoring.phoneScore, Scoring.websiteScore,
    Scoring.socialScore, Scoring.completeness.
  cbn [Scoring.email Scoring.phone Scoring.website Scoring.instagram_url
       Scoring.audit_score Scoring.business_name Scoring.google_rating scoreInput].
  rewrite Hname. change (JS.truthy None) with false. cbv iota.
  destruct (JS.truthy (email mapped)), (JS.truthy (phone mapped)),
    (JS.truthy (website mapped));
    destruct (parsed (parseFloat env) (google_rating mapped)) as [r|];
    try destruct (JS.truthy_num r && JS.ge r 3); lia.
Qed.

Lemma newLead_sentRow (env : Env) (row : gmap string string) :
  JS.truthy (business_name (mapFields row)) = true ->
  sentRow (newLead env (mapFields row)).
Proof.
  intros Hname. unfold sentRow. split; [reflexivity|]. split.
  - cbn [newLead Db.business_name]. unfold JS.truthy in Hname.
    destruct (business_name (mapFields row)) as [v|]; [|discriminate].
    simpl. destruct (String.eqb_spec v ""); [discriminate|assumption].
  - split; [|split; [reflexivity|split; [reflexivity|]]].
    + cbn [newLead Db.email Db.phone Db.website Db.address Db.city Db.country
           Db.instagram_url mapFields email phone website address city country
           instagram_url].
      repeat constructor; apply mapField_not_empty.
    + eexists. split; [reflexivity|]. apply scoreInput_total_range, Hname.
Qed.

(** The three ways of a data row through the loop: it has a name and the
    lookup by that name finds no row ([counted]), it has a name that the
    lookup finds ([duplicate]), or it has no name ([nameless]). *)
Definition named (row : gmap string string) : bool :=
  JS.truthy (business_name (mapFields row)).

Definition known (env : Env) (leads : list Db.Lead) (row : gmap string string) : bool :=
  existing env leads (JS.orEmpty (business_name (mapFields row))).

Definition counted (env : Env) (leads : list Db.Lead) (row : gmap string string) : bool :=
  named row && negb (known env leads row).

Definition duplicate (env : Env) (leads : list Db.Lead) (row : gmap string string) : bool :=
  named row && known env leads row.

Definition nameless (row : gmap string string) : bool := negb (named row).

(** The table refuses the source that the import writes. *)
Lemma insert_newLead (env : Env) (mapped : Mapped) (leads : list Db.Lead) :
  insert env (newLead env mapped) leads = leads.
Proof. reflexivity. Qed.

Lemma length_filter_cons {A : Type} (f : A -> bool) (x : A) (l : list A) :
  length (List.filter f (x :: l))
  = ((if f x then 1 else 0) + length (List.filter f l))%nat.
Proof. cbn [List.filter]. destruct (f x); reflexivity. Qed.

Lemma importRow_eq (env : Env) (leads : list Db.Lead) (n : Counters)
    (row : gmap string string) :
  importRow env (leads, n) row
  = (leads,
     {| imported := imported n + (if counted env leads row then 1 else 0);
        duplicates := duplicates n + (if duplicate env leads row then 1 else 0);
        errors := errors n + (if nameless row then 1 else 0) |}).
Proof.
  unfold importRow, counted, duplicate, nameless, known, named.
  rewrite insert_newLead.
  destruct (JS.truthy (business_name (mapFields row))); cbn [negb andb];
    [destruct (existing env leads _); cbn [negb]|];
    f_equal; f_equal; lia.
Qed.

Lemma foldl_importRow (env : Env) (rows : list (gmap string string))
    (leads : list Db.Lead) (n : Counters) :
  foldl (importRow env) (leads, n) rows
  = (leads,
     {| imported := imported n + length (List.filter (counted env leads) rows);
        duplicates := duplicates n + length (List.filter (duplicate env leads) rows);
        errors := errors n + length (List.filter nameless rows) |}).
Proof.
  revert n. induction rows as [|row rows IH]; intros n.
  - destruct n. cbn. f_equal; f_equal; lia.
  - cbn [foldl]. rewrite importRow_eq, IH, !length_filter_cons.
    cbn [imported duplicates errors]. f_equal; f_equal; lia.
Qed.

Lemma every_row_one_way (env : Env) (leads : list Db.Lead)
    (rows : list (gmap string string)) :
  (length (List.filter (counted env leads) rows)
   + length (List.filter (duplicate env leads) rows)
   + length (List.filter nameless rows) = length rows)%nat.
Proof.
  induction rows as [|row rows IH]; [reflexivity|].
  rewrite !length_filter_cons. cbn [length].
  unfold counted at 1, duplicate at 1, nameless at 1.
  destruct (named row), (known env leads row); cbn [andb negb]; lia.
Qed.

(** X11: with the table [leads] as the schema declares it (a [source]
    is one of google_maps, yelp and fresha), an import of a file with at
    least one data row stores no lead: the table refuses every insert,
    because the handler writes the source csv_import, and the handler,
    which does not look at what the insert answers, counts the row as
    imported all the same.  The answer counts as [imported] the rows
    with a name that the lookup by name does not find, as [duplicates]
    those with a name that it finds, as [errors] those without a name;
    the three add up to [total], the number of data rows.  The activity
    log gains one entry with the same four numbers.  Every object given
    to [insert] has a name that is not empty, contact columns that are
    null or not empty, no audit, and a score between 20 and 84. *)
Theorem import_accounts_for_every_row (env : Env) (leads : list Db.Lead)
    (log : list Db.Activity) (text : string) (Hrows : parseCSV text <> []) :
  let rows := parseCSV text in
  let imported := length (List.filter (counted env leads) rows) in
  let duplicates := length (List.filter (duplicate env leads) rows) in
  let errors := length (List.filter nameless rows) in
  POST env leads log (Some text)
  = (Json imported duplicates errors (length rows), leads,
     log ++ [ {| Db.action_type := "scrape";
                 Db.description := Db.CsvImport imported duplicates errors (length rows);
                 Db.lead_id := None; Db.metadata := None |} ])
  /\ (imported + duplicates + errors = length rows)%nat
  /\ Db.sourceCheck "csv_import" = false
  /\ (forall row, row ∈ rows -> counted env leads row = true ->
        sentRow (newLead env (mapFields row))
        /\ insert env (newLead env (mapFields row)) leads = leads).
Proof.
  intros rows imported duplicates errors.
  split; [|split; [apply every_row_one_way|split; [reflexivity|]]].
  - unfold POST. fold rows.
    destruct rows as [|row rest] eqn:Hparse; [contradiction|].
    change (length (row :: rest) =? 0)%nat with false. cbv iota.
    rewrite foldl_importRow. reflexivity.
  - intros row _ Hcounted. split; [|apply insert_newLead].
    apply newLead_sentRow. unfold counted in Hcounted.
    apply andb_true_iff in Hcounted as [Hnamed _]. exact Hnamed.
Qed.

(** A table client that finds a row when one has the name and stores
    what it is given, and parsers that understand nothing. *)
Definition csvEnv : Env :=
  {| parseFloat := fun _ => JS.NaN;
     parseInt := fun _ => JS.NaN;
     existing := fun leads name =>
       existsb (fun lead => String.eqb (Db.business_name lead) name) leads;
     stores := fun row => Some row |}.

(** A file of three data rows: a lead, a row without a name, and the
    first lead again. *)
Definition csvText : string :=
  "name,email" +:+ String lineFeed
    ("Acme Spa,info@acme.com" +:+ String lineFeed
       (",nobody@acme.com" +:+ String lineFeed "Acme Spa,other@acme.com")).

Lemma import_accounts_for_every_row_witness :
  length (parseCSV csvText) = 3%nat
  /\ POST csvEnv [] [] (Some csvText)
     = (Json 2 0 1 3, [],
        [ {| Db.action_type := "scrape"; Db.description := Db.CsvImport 2 0 1 3;
             Db.lead_id := None; Db.metadata := None |} ]).
Proof.
  split; [vm_compute; reflexivity|].
  refine (eq_trans (proj1 (import_accounts_for_every_row csvEnv [] [] csvText _)) _).
  - intros H. apply (f_equal length) in H. vm_compute in H. discriminate H.
  - vm_compute. reflexivity.
Defined.

(** The object that [calculateLeadScore] would get, were the Instagram
    address of the row passed along with the other fields. *)
Definition scoreInputWithInstagram (env : Env) (mapped : Mapped) : Scoring.LeadInput :=
  {| Scoring.email := email mapped;
     Scoring.phone := phone mapped;
     Scoring.website := website mapped;
     Scoring.instagram_url := instagram_url mapped;
     Scoring.google_rating := parsed (parseFloat env) (google_rating mapped);
     Scoring.google_review_count := parsed (parseInt env) (google_review_count mapped);
     Scoring.audit_score := None;
     Scoring.business_name := business_name mapped |}.

(** X12: the import scores a lead without its Instagram address: the
    [lead_score] of the object given to [insert] is the total that
    [calculateLeadScore] gives for the fields of the row with no
    Instagram address, whether the row has one or not, although the
    same object carries the address of the row as [instagram_url].
    That total is 3 points less than the scorer gives when it is passed
    the address too, if the row has one, and the same if it has none;
    it lies between 20 and 84 for a row with a name. *)
Theorem import_scores_without_instagram (env : Env) (row : gmap string string) :
  let mapped := mapFields row in
  let sent := Scoring.total (Scoring.calculateLeadScore (scoreInput env mapped)) in
  Db.lead_score (newLead env mapped) = Some sent
  /\ Db.instagram_url (newLead env mapped) = instagram_url mapped
  /\ Scoring.instagram_url (scoreInput env mapped) = None
  /\ Scoring.total (Scoring.calculateLeadScore (scoreInputWithInstagram env mapped))
     = sent + (if JS.truthy (instagram_url mapped) then 3 else 0)
  /\ (JS.truthy (business_name mapped) = true -> 20 <= sent <= 84).
Proof.
  intros mapped sent. split; [reflexivity|]. split; [reflexivity|].
  split; [reflexivity|]. split.
  - unfold sent. rewrite !ScoringFacts.total_eq.
    set (a := scoreInputWithInstagram env mapped). set (b := scoreInput env mapped).
    assert (He : Scoring.emailScore a = Scoring.emailScore b) by reflexivity.
    assert (Hp : Scoring.phoneScore a = Scoring.phoneScore b) by reflexivity.
    assert (Hw : Scoring.websiteScore a = Scoring.websiteScore b) by reflexivity.
    assert (Hr : Scoring.reviewScore a = Scoring.reviewScore b) by reflexivity.
    assert (Hc : Scoring.completeness a = Scoring.completeness b) by reflexivity.
    assert (Hs : Scoring.socialScore a
                 = Scoring.socialScore b
                   + if JS.truthy (instagram_url mapped) then 3 else 0).
    { unfold Scoring.socialScore, a, b.
      cbn [Scoring.instagram_url Scoring.website Scoring.google_rating
           scoreInput scoreInputWithInstagram].
      change (JS.truthy None) with false. cbv iota.
      destruct (JS.truthy (instagram_url mapped)), (JS.truthy (website mapped)),
        (parsed (parseFloat env) (google_rating mapped)) as [r|];
        try destruct (JS.truthy_num r && JS.ge r 3); lia. }
    lia.
  - apply scoreInput_total_range.
Qed.

(** The headers that become keys of a row. *)
Definition keyHeaders (headers : list string) : list string :=
  List.filter (fun h => negb (String.eqb h "__proto__")) headers.

Lemma dom_fillRow (headers values : list string) (row : gmap string string) :
  dom (fillRow headers values row) = list_to_set (keyHeaders headers) ∪ dom row.
Proof.
  revert values row. induction headers as [|h headers IH]; intros values row; cbn [fillRow].
  - cbn [keyHeaders List.filter list_to_set]. symmetry. apply (left_id_L ∅ (∪)).
  - rewrite IH. unfold assign, keyHeaders. cbn [List.filter].
    destruct (String.eqb h "__proto__"); cbn [negb]; [reflexivity|].
    rewrite dom_insert_L. cbn [list_to_set].
    rewrite (assoc_L (∪)),
      (comm_L (∪) (list_to_set (List.filter _ headers)) {[h]}).
    reflexivity.
Qed.

Lemma fillRow_lookup (headers values : list string) (row : gmap string string) (h : string) :
  (h ∉ headers -> fillRow headers values row !! h = row !! h)
  /\ (forall i, h <> "__proto__" -> headers !! i = Some h ->
                (forall j, (i < j)%nat -> headers !! j <> Some h) ->
                fillRow headers values row !! h = Some (JS.orEmpty (values !! i))).
Proof.
  revert values row. induction headers as [|h0 headers IH]; intros values row; cbn [fillRow].
  - split; [reflexivity|]. intros i _ Hi. rewrite lookup_nil in Hi. discriminate.
  - destruct (IH (tail values) (assign h0 (JS.orEmpty (head values)) row)) as [IH1 IH2].
    split.
    + intros Hnot. apply not_elem_of_cons in Hnot as [Hne Hnot].
      rewrite IH1 by exact Hnot. unfold assign.
      destruct (String.eqb h0 "__proto__"); [reflexivity|].
      apply lookup_insert_ne. congruence.
    + intros [|i] Hproto Hi Hlast.
      * injection Hi as ->. rewrite IH1.
        -- unfold assign. rewrite (proj2 (String.eqb_neq h "__proto__") Hproto).
           rewrite lookup_insert_eq, head_lookup. reflexivity.
        -- intros Hin. apply list_elem_of_lookup in Hin as [j Hj].
           apply (Hlast (S j)); [lia|exact Hj].
      * rewrite (IH2 i).
        -- rewrite lookup_tail. reflexivity.
        -- exact Hproto.
        -- exact Hi.
        -- intros j Hj. apply (Hlast (S j)). lia.
Qed.

(** X13: [parseCSV] gives one row for every non-empty line after the
    first (none when the text has fewer than two such lines), and the
    keys of every row are exactly the headers of the first line, whatever
    the number of cells of the line; a header __proto__ is the
    exception, which never becomes a key. *)
Theorem parseCSV_rows_and_keys (text : string) :
  length (parseCSV text) = pred (length (nonEmptyLines text))
  /\ forall row, row ∈ parseCSV text ->
       dom row
       = list_to_set (keyHeaders (headersOf (JS.orEmpty (head (nonEmptyLines text)))))
       /\ "__proto__" ∉ dom row.
Proof.
  unfold parseCSV. destruct (Nat.ltb_spec (length (nonEmptyLines text)) 2) as [Hlt|Hge].
  - split; [|intros row Hrow; inversion Hrow].
    destruct (nonEmptyLines text) as [|l1 [|l2 ls]]; cbn [length] in *; [reflexivity|reflexivity|lia].
  - split.
    + rewrite length_map, length_drop. lia.
    + intros row Hrow. apply list_elem_of_fmap in Hrow as (line & -> & _).
      unfold parseLine. rewrite dom_fillRow, dom_empty_L, (right_id_L ∅ (∪)).
      split; [reflexivity|].
      rewrite elem_of_list_to_set. unfold keyHeaders.
      rewrite list_elem_of_In, filter_In. intros [_ H]. discriminate H.
Qed.

(** A string in which no double quote occurs. *)
Definition unquoted (s : string) : Prop := ~ In doubleQuote (list_ascii_of_string s).

Lemma append_char (current : string) (c : ascii) (x : string) :
  (current +:+ String c EmptyString) +:+ x = current +:+ String c x.
Proof. rewrite LocationFacts.append_assoc. reflexivity. Qed.

Lemma splitOn_cons (sep : ascii) (s : string) :
  exists x l, splitOn sep s = x :: l.
Proof.
  induction s as [|c s IH]; cbn [splitOn]; [eauto|].
  destruct (Ascii.eqb c sep); [eauto|].
  destruct IH as (x & l & ->). eauto.
Qed.

Lemma splitValues_unquoted (line : string) (values : list string) (current : string) :
  unquoted line ->
  splitValues line values current false
  = values ++ match splitOn comma line with
              | x :: l => JS.trim (current +:+ x) :: map JS.trim l
              | [] => []
              end.
Proof.
  revert values current. induction line as [|c line IH]; intros values current Hline.
  - cbn [splitValues splitOn]. rewrite LocationFacts.append_nil_r. reflexivity.
  - assert (Hc : Ascii.eqb c doubleQuote = false).
    { destruct (Ascii.eqb_spec c doubleQuote) as [->|]; [|reflexivity].
      exfalso. apply Hline. left. reflexivity. }
    assert (Hrest : unquoted line).
    { intros Hin. apply Hline. right. exact Hin. }
    cbn [splitValues splitOn]. rewrite Hc. cbn [negb andb].
    rewrite Bool.andb_true_r.
    destruct (Ascii.eqb c comma).
    + rewrite IH by exact Hrest. unfold JS.push. rewrite <- app_assoc.
      destruct (splitOn_cons comma line) as (x & l & ->).
      rewrite LocationFacts.append_nil_r, LocationFacts.append_nil_l. reflexivity.
    + rewrite IH by exact Hrest.
      destruct (splitOn_cons comma line) as (x & l & ->).
      rewrite append_char. reflexivity.
Qed.

(** X14: in a line without double quotes the cells are the pieces
    between the commas, trimmed: under a header [h] other than __proto__
    (at its last position [i], when the header occurs more than once)
    the row has the piece of index [i], and the empty string when the
    line has fewer pieces. *)
Theorem parseLine_unquoted_cells (headers : list string) (line : string) (i : nat)
    (h : string)
    (Hline : unquoted line) (Hproto : h <> "__proto__") (Hi : headers !! i = Some h)
    (Hlast : forall j, (i < j)%nat -> headers !! j <> Some h) :
  splitValues line [] EmptyString false = map JS.trim (splitOn comma line)
  /\ parseLine headers line !! h
     = Some (JS.orEmpty (map JS.trim (splitOn comma line) !! i)).
Proof.
  assert (Hcells : splitValues line [] EmptyString false = map JS.trim (splitOn comma line)).
  { rewrite splitValues_unquoted by exact Hline.
    destruct (splitOn_cons comma line) as (x & l & ->).
    rewrite LocationFacts.append_nil_l. reflexivity. }
  split; [exact Hcells|].
  unfold parseLine. rewrite Hcells.
  apply (proj2 (fillRow_lookup headers _ ∅ h)); assumption.
Qed.

Lemma parseLine_unquoted_cells_witness :
  parseLine ["name"; "email"; "phone"] " Acme Spa , info@acme.com" !! "email"
  = Some "info@acme.com"
  /\ parseLine ["name"; "email"; "phone"] " Acme Spa , info@acme.com" !! "phone"
     = Some "".
Proof.
  split.
  - refine (eq_trans (proj2 (parseLine_unquoted_cells ["name"; "email"; "phone"]
                               " Acme Spa , info@acme.com" 1 "email" _ _ eq_refl _)) _).
    + unfold unquoted. cbn. intros H. repeat (destruct H as [H|H]; [discriminate H|]). exact H.
    + discriminate.
    + intros [|[|[|[|j]]]] Hj; try lia; discriminate.
    + vm_compute. reflexivity.
  - refine (eq_trans (proj2 (parseLine_unquoted_cells ["name"; "email"; "phone"]
                               " Acme Spa , info@acme.com" 2 "phone" _ _ eq_refl _)) _).
    + unfold unquoted. cbn. intros H. repeat (destruct H as [H|H]; [discriminate H|]). exact H.
    + discriminate.
    + intros [|[|[|[|j]]]] Hj; try lia; discriminate.
    + vm_compute. reflexivity.
Defined.

(** A cell between double quotes, and cells joined by commas. *)
Definition quoted (cell : string) : string :=
  String doubleQuote (cell +:+ String doubleQuote EmptyString).

Lemma splitValues_in_quotes (cell rest : string) (values : list string) (current : string) :
  unquoted cell ->
  splitValues (cell +:+ String doubleQuote rest) values current true
  = splitValues rest values (current +:+ cell) false.
Proof.
  revert current. induction cell as [|c cell IH]; intros current Hcell.
  - rewrite LocationFacts.append_nil_l, LocationFacts.append_nil_r.
    cbn [splitValues]. rewrite Ascii.eqb_refl. reflexivity.
  - assert (Hc : Ascii.eqb c doubleQuote = false).
    { destruct (Ascii.eqb_spec c doubleQuote) as [->|]; [|reflexivity].
      exfalso. apply Hcell. left. reflexivity. }
    rewrite LocationFacts.append_cons. cbn [splitValues]. rewrite Hc.
    cbn [negb]. rewrite Bool.andb_false_r.
    rewrite IH by (intros Hin; apply Hcell; right; exact Hin).
    rewrite append_char. reflexivity.
Qed.

Lemma splitValues_quoted_cells (cell : string) (cells values : list string) :
  Forall unquoted (cell :: cells) ->
  splitValues (String.concat "," (map quoted (cell :: cells))) values EmptyString false
  = values ++ map JS.trim (cell :: cells).
Proof.
  revert cell values. induction cells as [|next cells IH]; intros cell values Hall.
  - cbn [map String.concat]. unfold quoted. cbn [splitValues].
    rewrite Ascii.eqb_refl. cbn [negb].
    rewrite splitValues_in_quotes by (inversion Hall; assumption).
    rewrite LocationFacts.append_nil_l. reflexivity.
  - cbn [map]. change (String.concat "," (quoted cell :: quoted next :: map quoted cells))
      with (quoted cell +:+ ("," +:+ String.concat "," (map quoted (next :: cells)))).
    unfold quoted at 1. rewrite LocationFacts.append_cons. cbn [splitValues].
    rewrite Ascii.eqb_refl. cbn [negb].
    rewrite LocationFacts.append_assoc, LocationFacts.append_cons,
      LocationFacts.append_nil_l.
    rewrite splitValues_in_quotes by (inversion Hall; assumption).
    rewrite LocationFacts.append_nil_l, LocationFacts.append_cons,
      LocationFacts.append_nil_l.
    cbn [splitValues]. change (Ascii.eqb "," doubleQuote) with false.
    change (Ascii.eqb "," comma) with true. cbn [negb andb].
    rewrite IH by (inversion Hall; assumption).
    unfold JS.push. rewrite <- app_assoc. reflexivity.
Qed.

(** X15: cells written between double quotes and joined by commas are
    read back as they were, trimmed, whatever commas they contain: the
    quotes are removed and a comma inside them does not end the cell. *)
Theorem quoted_cells_are_read_back (cells : list string)
    (Hcells : cells <> []) (Hall : Forall unquoted cells) :
  splitValues (String.concat "," (map quoted cells)) [] EmptyString false
  = map JS.trim cells.
Proof.
  destruct cells as [|cell cells]; [contradiction|].
  rewrite splitValues_quoted_cells by exact Hall. reflexivity.
Qed.

Lemma quoted_cells_are_read_back_witness :
  splitValues (String.concat "," (map quoted ["Acme, Spa & Co"; " 12 High St, Leeds "]))
              [] EmptyString false
  = ["Acme, Spa & Co"; "12 High St, Leeds"].
Proof.
  refine (eq_trans (quoted_cells_are_read_back ["Acme, Spa & Co"; " 12 High St, Leeds "] _ _) _).
  - discriminate.
  - repeat constructor; unfold unquoted; cbn; intros H;
      repeat (destruct H as [H|H]; [discriminate H|]); exact H.
  - vm_compute. reflexivity.
Defined.

End ImportFacts.

(* ===================================================================== *)
(** ** The shapes accepted by [safeArray], and [matchesLocation] *)
(* ===================================================================== *)

Module ScrapeJsonFacts.
Import ScrapeJson.

Lemma filter_isRecord_id (l : list json) :
  Forall (fun item => isRecord item = true) l -> List.filter isRecord l = l.
Proof.
  induction 1 as [|x l Hx _ IH]; [reflexivity|].
  cbn [List.filter]. rewrite Hx, IH. reflexivity.
Qed.

Lemma Forall_filter_isRecord (l : list json) :
  Forall (fun item => isRecord item = true) (List.filter isRecord l).
Proof.
  induction l as [|x l IH]; [constructor|].
  cbn [List.filter]. destruct (isRecord x) eqn:Hx; [constructor; assumption|assumption].
Qed.

Lemma safeArrayOfItems_records (items : list json) :
  Forall (fun item => isRecord item = true) (safeArrayOfItems items).
Proof.
  unfold safeArrayOfItems.
  destruct items as [|[| | | |first|] rest]; apply Forall_filter_isRecord.
Qed.

Lemma safeArrayOfItems_id (items : list json) :
  Forall (fun item => isRecord item = true) items -> safeArrayOfItems items = items.
Proof.
  intros Hall. unfold safeArrayOfItems.
  destruct items as [|[| | | |first|] rest]; try (apply filter_isRecord_id; exact Hall).
  inversion Hall as [|x l Hx]. discriminate Hx.
Qed.

Lemma safeArray_records (data : json) :
  Forall (fun item => isRecord item = true) (safeArray data).
Proof.
  destruct data as [| | | |items|obj]; cbn [safeArray]; try constructor.
  - apply safeArrayOfItems_records.
  - destruct (get "data" obj) as [[| | | |items|]|];
      try apply safeArrayOfItems_records;
      destruct (get "results" obj) as [[| | | |items'|]|];
      try apply safeArrayOfItems_records; constructor.
Qed.

(** X16: [safeArray] returns objects only, whatever it is given; an
    array of objects is returned as it is, so that applying [safeArray]
    to its own result changes nothing; an object is read through its
    [data] key, which has precedence over [results]; and of an array
    whose first element is an array only that first element is read. *)
Theorem safeArray_returns_objects (data : json) :
  Forall (fun item => isRecord item = true) (safeArray data)
  /\ safeArray (JArray (safeArray data)) = safeArray data
  /\ (forall items, Forall (fun item => isRecord item = true) items ->
                    safeArray (JArray items) = items)
  /\ (forall obj items, get "data" obj = Some (JArray items) ->
                        safeArray (JObject obj) = safeArray (JArray items))
  /\ (forall first rest,
        safeArray (JArray (JArray first :: rest)) = List.filter isRecord first).
Proof.
  split; [apply safeArray_records|]. split; [|split; [|split]].
  - cbn [safeArray]. apply safeArrayOfItems_id, safeArray_records.
  - intros items Hall. cbn [safeArray]. apply safeArrayOfItems_id, Hall.
  - intros obj items Hget. cbn [safeArray]. rewrite Hget. reflexivity.
  - reflexivity.
Qed.

(** The record of a lead as [matchesLocation] reads it: the address and
    the city, when the lead has them. *)
Definition recordOf (r : Scrape.LeadResult) : list (string * json) :=
  match Scrape.address r with Some a => [("address", JString a)] | None => [] end
  ++ match Scrape.city r with Some c => [("city", JString c)] | None => [] end.

Lemma get_recordOf (r : Scrape.LeadResult) :
  get "address" (recordOf r) = JString <$> Scrape.address r
  /\ get "city" (recordOf r) = JString <$> Scrape.city r
  /\ get "full_address" (recordOf r) = None /\ get "area" (recordOf r) = None
  /\ get "state" (recordOf r) = None /\ get "suburb" (recordOf r) = None.
Proof.
  unfold recordOf. destruct (Scrape.address r), (Scrape.city r); repeat split.
Qed.

Lemma includes_empty (t : string) : t <> "" -> JS.includes "" t = false.
Proof. intros Ht. destruct t; [contradiction|reflexivity]. Qed.

(** X17: [matchesLocation] and the filter of [scrapeGoogleMaps] agree on
    a lead's address and city when the requested location has a
    character that is not white space; for a location of white space
    only the filter accepts every lead, while [matchesLocation] accepts
    those that have an address or a city. *)
Theorem matchesLocation_agrees_with_filter (r : Scrape.LeadResult) (location : string) :
  (JS.trim (JS.toLowerCase location) <> "" ->
   matchesLocation (recordOf r) location = Scrape.inLocation location r)
  /\ (JS.trim (JS.toLowerCase location) = "" ->
      Scrape.inLocation location r = true
      /\ matchesLocation (recordOf r) location
         = bool_decide (is_Some (Scrape.address r) \/ is_Some (Scrape.city r))).
Proof.
  unfold matchesLocation, Scrape.inLocation.
  destruct (get_recordOf r) as (-> & -> & -> & -> & -> & ->). cbn [existsb fieldMatches].
  set (loc := JS.trim (JS.toLowerCase location)).
  assert (Hrefl : forall s, JS.includes s "" = true).
  { intros s. apply LocationFacts.includes_iff. exists "", s. reflexivity. }
  assert (Heq : forall c, String.eqb c loc = true -> JS.includes c loc = true).
  { intros c Hc. apply String.eqb_eq in Hc. rewrite Hc.
    apply LocationFacts.includes_iff. exists "", "".
    rewrite LocationFacts.append_nil_r. reflexivity. }
  assert (Hor : forall c, JS.includes c loc || String.eqb c loc = JS.includes c loc).
  { intros c. destruct (JS.includes c loc) eqn:Hc; [reflexivity|]. cbn [orb].
    destruct (String.eqb c loc) eqn:He; [|reflexivity].
    rewrite (Heq c He) in Hc. discriminate. }
  rewrite <- Bool.orb_assoc, Hor, !Bool.orb_false_r.
  split.
  - intros Hloc.
    destruct (Scrape.address r) as [a|], (Scrape.city r) as [c|];
      cbn [fmap option_fmap option_map fieldMatches JS.orEmpty JS.toLowerCase];
      rewrite ?(includes_empty loc Hloc), ?Bool.orb_false_r; reflexivity.
  - intros Hloc. rewrite Hloc, !Hrefl. split; [reflexivity|].
    destruct (Scrape.address r) as [a|], (Scrape.city r) as [c|];
      cbn [fmap option_fmap option_map fieldMatches orb]; rewrite ?Hrefl; symmetry.
    + apply bool_decide_eq_true. left. eauto.
    + apply bool_decide_eq_true. left. eauto.
    + apply bool_decide_eq_true. right. eauto.
    + apply bool_decide_eq_false. intros [[x Hx]|[x Hx]]; discriminate.
Qed.

End ScrapeJsonFacts.

(* ===================================================================== *)
(** ** More on the search handler: what every answer satisfies *)
(* ===================================================================== *)

Module ResponseFacts.
Import Scrape.

Section WithEnv.
Variable env : Env.

Lemma bind_Normal_inv {A B : Type} (c : completion A) (k : A -> completion B) (b : B) :
  (x ← c; k x) = Normal b -> exists a, c = Normal a /\ k a = Normal b.
Proof. destruct c as [a|e]; [intros H; exists a; split; [reflexivity|exact H]|discriminate]. Qed.

(** In single-source mode a source that returns adds its results and its
    count. *)
Lemma trySource_returns (source : option string) (name : string) (r : list LeadResult)
    (st : Acc.t) :
  trySource source name (Normal r) st
  = Normal {| Acc.results := Acc.results st ++ r;
              Acc.errors := Acc.errors st;
              Acc.sourceStats := <[name := length r]> (Acc.sourceStats st) |}.
Proof.
  unfold trySource, tryCatch. rewrite EnrichmentFacts.bind_Normal.
  destruct r as [|x r]; cbn [length Nat.ltb Nat.leb]; [rewrite app_nil_r|]; reflexivity.
Qed.

(** Outside the all-sources mode a source that is tried and does not end
    the request leaves [errors] as it was. *)
Lemma trySource_errors (source : option string) (name : string)
    (out : completion (list LeadResult)) (st st' : Acc.t) :
  sourceIs source "all" = false ->
  trySource source name out st = Normal st' -> Acc.errors st' = Acc.errors st.
Proof.
  intros Hall. destruct out as [r|e].
  - rewrite trySource_returns. intros H. injection H as <-. reflexivity.
  - unfold trySource, tryCatch. cbn [mbind completion_bind]. rewrite Hall. discriminate.
Qed.

Lemma step_errors (tried : bool) (source : option string) (name : string)
    (out : completion (list LeadResult)) (st st' : Acc.t) :
  sourceIs source "all" = false ->
  (if tried then trySource source name out st else Normal st) = Normal st' ->
  Acc.errors st' = Acc.errors st.
Proof.
  intros Hall. destruct tried; [apply trySource_errors, Hall|].
  intros H. injection H as <-. reflexivity.
Qed.

Lemma runSources_errors (source : option string) (niche location country : string)
    (st st' : Acc.t) :
  sourceIs source "all" = false ->
  runSources env source niche location country st = Normal st' ->
  Acc.errors st' = Acc.errors st.
Proof.
  intros Hall Hrun. unfold runSources in Hrun.
  apply bind_Normal_inv in Hrun as (st1 & H1 & Hrun). apply (step_errors _ _ _ _ _ _ Hall) in H1.
  apply bind_Normal_inv in Hrun as (st2 & H2 & Hrun). apply (step_errors _ _ _ _ _ _ Hall) in H2.
  apply bind_Normal_inv in Hrun as (st3 & H3 & Hrun). apply (step_errors _ _ _ _ _ _ Hall) in H3.
  apply bind_Normal_inv in Hrun as (st4 & H4 & Hrun). apply (step_errors _ _ _ _ _ _ Hall) in H4.
  apply bind_Normal_inv in Hrun as (st5 & H5 & Hrun). apply (step_errors _ _ _ _ _ _ Hall) in H5.
  apply bind_Normal_inv in Hrun as (st6 & H6 & Hrun). apply (step_errors _ _ _ _ _ _ Hall) in H6.
  injection Hrun as <-. congruence.
Qed.

Lemma dedupeKey_enriched (r : LeadResult) :
  dedupeKey (EnrichmentFacts.enriched env r) = dedupeKey r.
Proof.
  destruct (EnrichmentFacts.enrichFromWebsite_normal env r) as (_ & _ & _ & _ & Hname & _).
  unfold dedupeKey. rewrite Hname. reflexivity.
Qed.

(** The automatic enrichment keeps the normalized names, up to the order
    of the first 15. *)
Lemma autoEnrich_keys (unique : list LeadResult) :
  exists out, autoEnrich env unique = Some out
              /\ length out = length unique
              /\ map dedupeKey out ≡ₚ map dedupeKey unique.
Proof.
  rewrite AutoEnrichFacts.autoEnrich_eq. eexists. split; [reflexivity|].
  destruct (JS.truthy (Some (FIRECRAWL_API_KEY env))); [|split; reflexivity].
  split.
  - rewrite length_app, AutoEnrichFacts.enrichedFirst15_length, <- length_app, take_drop.
    reflexivity.
  - unfold AutoEnrichFacts.enrichedFirst15.
    rewrite (EnrichmentFacts.enriched_batch_Permutation env (take 15 unique)).
    rewrite map_app, map_map.
    rewrite (map_ext _ dedupeKey dedupeKey_enriched), <- map_app, take_drop.
    reflexivity.
Qed.

Lemma filter_length_le {A : Type} (p : A -> bool) (l : list A) :
  (length (List.filter p l) <= length l)%nat.
Proof.
  induction l as [|x l IH]; [reflexivity|]. cbn [List.filter].
  destruct (p x); cbn [length]; lia.
Qed.

End WithEnv.

(** X18: every result set that the search handler answers is
    consistent: [count] is the number of results; no two results have the
    same name once lower-cased and trimmed, and every such name has two
    characters or more, also after the enrichment; the three enrichment
    counters are at most [count]; [errors] is absent or not empty, and
    it is absent unless all sources were asked. *)
Theorem response_is_consistent (env : Env) (req : Req.t) (body : Resp.Body)
    (Hpost : POST env req = Some (Resp.Json body)) :
  Resp.count body = length (Resp.results body)
  /\ NoDup (map dedupeKey (Resp.results body))
  /\ Forall (fun key => (2 <= String.length key)%nat) (map dedupeKey (Resp.results body))
  /\ (Resp.withEmail (Resp.enrichmentStats body) <= Resp.count body)%nat
  /\ (Resp.withPhone (Resp.enrichmentStats body) <= Resp.count body)%nat
  /\ (Resp.withInstagram (Resp.enrichmentStats body) <= Resp.count body)%nat
  /\ Resp.errors body <> Some []
  /\ (Resp.errors body <> None -> Req.source req = Some "all").
Proof.
  unfold POST in Hpost.
  destruct (negb (JS.truthy (Req.niche req)) || negb (JS.truthy (Req.location req)));
    [discriminate|].
  destruct (runSources env (Req.source req) (JS.orEmpty (Req.niche req))
              (JS.orEmpty (Req.location req)) (default "United Kingdom" (Req.country req))
              Acc.init) as [st|err] eqn:Hrun; [|discriminate].
  destruct (autoEnrich_keys env (dedupe (Acc.results st))) as (out & Hout & Hlen & Hkeys).
  rewrite Hout in Hpost. injection Hpost as <-.
  cbn [Resp.count Resp.results Resp.enrichmentStats Resp.withEmail Resp.withPhone
       Resp.withInstagram Resp.errors].
  destruct (DedupeFacts.survivors_fresh ∅ (Acc.results st)) as [Hfresh Hnodup].
  fold (dedupe (Acc.results st)) in Hfresh, Hnodup.
  split; [reflexivity|]. split; [rewrite Hkeys; exact Hnodup|]. split.
  { rewrite Hkeys. apply Forall_fmap. eapply Forall_impl; [exact Hfresh|].
    intros r [Hr _]. exact Hr. }
  split; [apply filter_length_le|]. split; [apply filter_length_le|].
  split; [apply filter_length_le|]. split.
  - destruct (Acc.errors st); cbn [length Nat.ltb Nat.leb]; discriminate.
  - intros Herr. destruct (sourceIs (Req.source req) "all") eqn:Hall.
    + unfold sourceIs in Hall. destruct (Req.source req) as [s|]; [|discriminate].
      apply String.eqb_eq in Hall. congruence.
    + apply (runSources_errors env _ _ _ _ _ _ Hall) in Hrun.
      rewrite Hrun in Herr. contradiction Herr. reflexivity.
Qed.

(** Yelp finds a salon twice, under two spellings of its name, and a
    clinic; the other sources find nothing. *)
Definition yelpEnv : Env :=
  {| FIRECRAWL_API_KEY := "";
     firecrawl := fun _ => NotOk;
     igRegexExec := fun _ => [];
     phoneRegexMatch := fun _ => [];
     scrapeGoogleMaps := fun _ _ _ => Normal [];
     scrapeYelp := fun _ _ _ =>
       Normal (map DedupeFacts.named ["Glow Spa"; " glow spa "; "Zen Clinic"]);
     scrapeFresha := fun _ _ _ => Normal [];
     scrapeYell := fun _ _ => Normal [];
     scrapeYellowPages := fun _ _ => Normal [];
     scrapeBark := fun _ _ _ => Normal [] |}.

Definition yelpRequest : Req.t :=
  {| Req.niche := Some "med spa"; Req.location := Some "Leeds";
     Req.country := None; Req.source := Some "yelp" |}.

Lemma response_is_consistent_witness :
  exists body,
    POST yelpEnv yelpRequest = Some (Resp.Json body)
    /\ Resp.count body = 2%nat
    /\ NoDup (map dedupeKey (Resp.results body)).
Proof.
  destruct (POST yelpEnv yelpRequest) as [[body|error status]|] eqn:Hpost.
  - exists body. split; [reflexivity|]. split.
    + vm_compute in Hpost. injection Hpost as <-. reflexivity.
    + exact (proj1 (proj2 (response_is_consistent yelpEnv yelpRequest body Hpost))).
  - vm_compute in Hpost. discriminate Hpost.
  - vm_compute in Hpost. discriminate Hpost.
Defined.

(** X19: when the caller names one source and its adapter returns, the
    answer is built from that adapter alone: the results are its results
    de-duplicated and enriched, the statistics have the one entry of the
    source, with the number of results before de-duplication, and there
    are no errors. *)
Theorem single_source_answer (env : Env) (req : Req.t) (name : string)
    (r : list LeadResult)
    (Hniche : JS.truthy (Req.niche req) = true)
    (Hlocation : JS.truthy (Req.location req) = true)
    (Hname : name ∈ HandlerFacts.sourceNames)
    (Hsource : Req.source req = Some name)
    (Hcall : HandlerFacts.callSource env name (JS.orEmpty (Req.niche req))
               (JS.orEmpty (Req.location req))
               (default "United Kingdom" (Req.country req)) = Normal r) :
  exists body,
    POST env req = Some (Resp.Json body)
    /\ autoEnrich env (dedupe r) = Some (Resp.results body)
    /\ Resp.count body = length (dedupe r)
    /\ Resp.sourceStats body = {[ name := length r ]}
    /\ Resp.errors body = None.
Proof.
  assert (Hrun : runSources env (Some name) (JS.orEmpty (Req.niche req))
                   (JS.orEmpty (Req.location req))
                   (default "United Kingdom" (Req.country req)) Acc.init
                 = Normal {| Acc.results := r; Acc.errors := [];
                             Acc.sourceStats := {[ name := length r ]} |}).
  { unfold HandlerFacts.sourceNames in Hname. revert Hcall.
    repeat (apply elem_of_cons in Hname as [->|Hname];
            [unfold HandlerFacts.callSource, runSources; simpl; intros ->;
             rewrite trySource_returns; reflexivity|]).
    inversion Hname. }
  unfold POST. rewrite Hniche, Hlocation, Hsource. cbn [negb orb]. rewrite Hrun.
  destruct (AutoEnrichFacts.autoEnrich_length env (dedupe r)) as (out & Hout & Hlen).
  cbn [Acc.results]. rewrite Hout. eexists. split; [reflexivity|].
  cbn [Resp.results Resp.count Resp.sourceStats Resp.errors Acc.sourceStats Acc.errors length].
  repeat split. exact Hlen.
Qed.

Lemma single_source_answer_witness :
  exists body,
    POST yelpEnv yelpRequest = Some (Resp.Json body)
    /\ autoEnrich yelpEnv (dedupe (map DedupeFacts.named ["Glow Spa"; " glow spa "; "Zen Clinic"]))
       = Some (Resp.results body)
    /\ Resp.count body
       = length (dedupe (map DedupeFacts.named ["Glow Spa"; " glow spa "; "Zen Clinic"]))
    /\ Resp.sourceStats body = {[ "yelp" := 3%nat ]}
    /\ Resp.errors body = None.
Proof.
  apply (single_source_answer yelpEnv yelpRequest "yelp"
           (map DedupeFacts.named ["Glow Spa"; " glow spa "; "Zen Clinic"])).
  - reflexivity.
  - reflexivity.
  - apply elem_of_cons. right. apply elem_of_cons. left. reflexivity.
  - reflexivity.
  - reflexivity.
Defined.

(** X20: a request that names a source which is none of the six, and is
    not all, reaches no adapter and is answered as a success with no
    result, no statistics and no error. *)
Theorem unknown_source_finds_nothing (env : Env) (req : Req.t)
    (Hniche : JS.truthy (Req.niche req) = true)
    (Hlocation : JS.truthy (Req.location req) = true)
    (Hsource : forall name, name ∈ "all" :: HandlerFacts.sourceNames ->
                            Req.source req <> Some name) :
  POST env req
  = Some (Resp.Json
            {| Resp.results := []; Resp.count := 0; Resp.sourceStats := ∅;
               Resp.enrichmentStats :=
                 {| Resp.withEmail := 0; Resp.withPhone := 0; Resp.withInstagram := 0 |};
               Resp.errors := None |}).
Proof.
  assert (Hnot : forall name, name ∈ "all" :: HandlerFacts.sourceNames ->
                              sourceIs (Req.source req) name = false).
  { intros name Hin. unfold sourceIs. destruct (Req.source req) as [s|] eqn:Hs; [|reflexivity].
    destruct (String.eqb_spec s name) as [->|]; [|reflexivity].
    exfalso. exact (Hsource name Hin eq_refl). }
  assert (Hrun : forall niche location country,
             runSources env (Req.source req) niche location country Acc.init
             = Normal Acc.init).
  { intros niche location country. unfold runSources.
    rewrite !Hnot
      by (unfold HandlerFacts.sourceNames;
          repeat first [apply list_elem_of_here | apply list_elem_of_further]).
    reflexivity. }
  unfold POST. rewrite Hniche, Hlocation. cbn [negb orb]. rewrite Hrun.
  rewrite AutoEnrichFacts.autoEnrich_eq.
  destruct (JS.truthy (Some (FIRECRAWL_API_KEY env))); reflexivity.
Qed.

Lemma unknown_source_finds_nothing_witness :
  POST yelpEnv {| Req.niche := Some "med spa"; Req.location := Some "Leeds";
                  Req.country := None; Req.source := Some "google" |}
  = Some (Resp.Json
            {| Resp.results := []; Resp.count := 0; Resp.sourceStats := ∅;
               Resp.enrichmentStats :=
                 {| Resp.withEmail := 0; Resp.withPhone := 0; Resp.withInstagram := 0 |};
               Resp.errors := None |}).
Proof.
  apply unknown_source_finds_nothing; [reflexivity|reflexivity|].
  intros name Hin. unfold HandlerFacts.sourceNames in Hin.
  repeat (apply elem_of_cons in Hin as [->|Hin]; [discriminate|]).
  inversion Hin.
Defined.

End ResponseFacts.

(* ===================================================================== *)
(** ** What the enrichment writes *)
(* ===================================================================== *)

Module EnrichedValueFacts.
Import Scrape.

(** An address that the enrichment may write: one of the matches of the
    email pattern in some text, and not noise. *)
Definition validEmail (e : string) : Prop :=
  notNoise e = true /\ exists text, e ∈ emailMatches text.

(** A profile address that the enrichment may write. *)
Definition validInstagram (u : string) : Prop :=
  exists handle,
    u = "https://instagram.com/" +:+ handle
    /\ existsb (String.eqb (JS.toLowerCase handle)) reservedHandles = false.

(** A phone number that the enrichment may write. *)
Definition validPhone (p : string) : Prop :=
  (10 <= String.length (JS.digitsOf p) <= 15)%nat.

(** The column is as it was, or it was not populated and now holds a
    value for which [valid] holds. *)
Definition keptOrFilled (valid : string -> Prop) (old new : option string) : Prop :=
  new = old \/ (JS.truthy old = false /\ exists v, new = Some v /\ valid v).

Definition wellFormed (lead lead' : LeadResult) : Prop :=
  keptOrFilled validEmail (email lead) (email lead')
  /\ keptOrFilled validInstagram (instagram_url lead) (instagram_url lead')
  /\ keptOrFilled validPhone (phone lead) (phone lead').

Lemma wellFormed_refl (lead : LeadResult) : wellFormed lead lead.
Proof. repeat split; left; reflexivity. Qed.

Lemma head_filter {A : Type} (p : A -> bool) (l : list A) (x : A) :
  head (List.filter p l) = Some x -> p x = true /\ x ∈ l.
Proof.
  induction l as [|y l IH]; [discriminate|]. cbn [List.filter].
  destruct (p y) eqn:Hy.
  - intros [= <-]. split; [exact Hy|left].
  - intros H. destruct (IH H) as [Hx Hin]. split; [exact Hx|right; exact Hin].
Qed.

Lemma selectEmail_valid (domain allText e : string) :
  selectEmail domain allText = Some e -> validEmail e.
Proof.
  unfold selectEmail, selectEmailAmong. intros Hhead.
  destruct (EmailFacts.head_sort_first_least _ _ (EmailFacts.compareEmails_key _) _ _ Hhead)
    as (before & after & Hl & _).
  assert (Hin : e ∈ List.filter notNoise (emailMatches allText))
    by (rewrite Hl; apply elem_of_app; right; left).
  apply list_elem_of_In, filter_In in Hin as [Hin Hnoise].
  split; [exact Hnoise|]. exists allText. apply list_elem_of_In, Hin.
Qed.

Lemma extractEmail_wellFormed (domain allText : string) (lead : LeadResult) :
  keptOrFilled validEmail (email lead) (email (extractEmail domain allText lead))
  /\ instagram_url (extractEmail domain allText lead) = instagram_url lead
  /\ phone (extractEmail domain allText lead) = phone lead.
Proof.
  unfold extractEmail. destruct (JS.truthy (email lead)) eqn:Hold; cbn [negb].
  - split; [left; reflexivity|split; reflexivity].
  - destruct (selectEmail domain allText) as [e|] eqn:Hsel.
    + split; [|split; reflexivity].
      right. split; [exact Hold|]. exists e. split; [reflexivity|].
      exact (selectEmail_valid _ _ _ Hsel).
    + split; [left; reflexivity|split; reflexivity].
Qed.

Lemma extractInstagram_wellFormed (env : Env) (allText : string) (lead : LeadResult) :
  email (extractInstagram env allText lead) = email lead
  /\ keptOrFilled validInstagram (instagram_url lead)
       (instagram_url (extractInstagram env allText lead))
  /\ phone (extractInstagram env allText lead) = phone lead.
Proof.
  unfold extractInstagram. destruct (JS.truthy (instagram_url lead)) eqn:Hold; cbn [negb].
  - split; [reflexivity|]. split; [left|]; reflexivity.
  - destruct (List.filter _ (igRegexExec env allText)) as [|h hs] eqn:Hf; cbn [map head].
    + split; [reflexivity|]. split; [left|]; reflexivity.
    + split; [reflexivity|]. split; [|reflexivity].
      right. split; [exact Hold|]. eexists. split; [reflexivity|].
      exists h. split; [reflexivity|].
      assert (Hh : head (List.filter
                          (fun h => negb (existsb (String.eqb (JS.toLowerCase h)) reservedHandles))
                          (igRegexExec env allText)) = Some h) by (rewrite Hf; reflexivity).
      apply head_filter in Hh as [Hh _]. apply negb_true_iff in Hh. exact Hh.
Qed.

Lemma extractPhone_wellFormed (env : Env) (allText : string) (lead : LeadResult) :
  email (extractPhone env allText lead) = email lead
  /\ instagram_url (extractPhone env allText lead) = instagram_url lead
  /\ keptOrFilled validPhone (phone lead) (phone (extractPhone env allText lead)).
Proof.
  unfold extractPhone. destruct (JS.truthy (phone lead)) eqn:Hold; cbn [negb].
  - split; [reflexivity|]. split; [reflexivity|left; reflexivity].
  - destruct (head _) as [p|] eqn:Hhead.
    + split; [reflexivity|]. split; [reflexivity|].
      right. split; [exact Hold|]. exists p. split; [reflexivity|].
      apply head_filter in Hhead as [Hp _]. apply andb_true_iff in Hp as [Hlo Hhi].
      apply Nat.leb_le in Hlo, Hhi. split; assumption.
    + split; [reflexivity|]. split; [reflexivity|left; reflexivity].
Qed.

Lemma extraction_wellFormed (env : Env) (domain allText : string) (lead : LeadResult) :
  wellFormed lead
    (extractPhone env allText (extractInstagram env allText (extractEmail domain allText lead))).
Proof.
  destruct (extractEmail_wellFormed domain allText lead) as (He & Hi1 & Hp1).
  set (l1 := extractEmail domain allText lead) in *.
  destruct (extractInstagram_wellFormed env allText l1) as (He2 & Hi & Hp2).
  set (l2 := extractInstagram env allText l1) in *.
  destruct (extractPhone_wellFormed env allText l2) as (He3 & Hi3 & Hp).
  unfold wellFormed. rewrite He3, He2, Hi3.
  rewrite Hi1 in Hi. rewrite Hp2, Hp1 in Hp.
  split; [exact He|]. split; [exact Hi|exact Hp].
Qed.

Lemma enriched_cases (env : Env) (lead : LeadResult) :
  EnrichmentFacts.enriched env lead = lead
  \/ (JS.truthy (website lead) = true /\ FIRECRAWL_API_KEY env <> ""
      /\ exists allText,
           EnrichmentFacts.enriched env lead
           = extractPhone env allText
               (extractInstagram env allText
                  (extractEmail (domainOf (JS.orEmpty (website lead))) allText lead))).
Proof.
  unfold EnrichmentFacts.enriched, enrichFromWebsite.
  destruct (JS.truthy (website lead)) eqn:Hsite; cbn [negb]; [|left; reflexivity].
  destruct (JS.truthy (email lead) && JS.truthy (instagram_url lead)); [left; reflexivity|].
  destruct (JS.truthy (Some (FIRECRAWL_API_KEY env))) eqn:Hkey; cbn [negb]; [|left; reflexivity].
  unfold enrichFromWebsiteBody.
  destruct (EnrichmentFacts.crawlPages_normal env [JS.orEmpty (website lead)] "") as [t1 ->].
  rewrite EnrichmentFacts.bind_Normal.
  assert (Hc : exists t2,
             (if negb (JS.truthy (email lead))
              then crawlContact env (domainOf (JS.orEmpty (website lead))) contactPaths t1
              else Normal t1) = Normal t2).
  { destruct (negb (JS.truthy (email lead)));
      [apply EnrichmentFacts.crawlContact_normal|eexists; reflexivity]. }
  destruct Hc as [t2 ->]. rewrite EnrichmentFacts.bind_Normal.
  destruct (String.length t2 =? 0)%nat; [left; reflexivity|].
  right. split; [reflexivity|]. split.
  - intros Hempty. rewrite Hempty in Hkey. discriminate Hkey.
  - exists t2. reflexivity.
Qed.

(** X21: whatever the crawled pages contain, what [enrichFromWebsite]
    writes is well formed: an email it fills in is a match of the email
    pattern that passes the noise filter; an Instagram address it fills
    in is https://instagram.com/ and a handle that is not a reserved
    path; a phone it fills in has 10 to 15 digits; and a lead without a
    website, or any lead when no Firecrawl key is configured, comes back
    as it was. *)
Theorem enrichment_writes_well_formed_values (env : Env) (lead : LeadResult) :
  wellFormed lead (EnrichmentFacts.enriched env lead)
  /\ enrichFromWebsite env lead = Normal (EnrichmentFacts.enriched env lead)
  /\ (JS.truthy (website lead) = false \/ FIRECRAWL_API_KEY env = "" ->
      EnrichmentFacts.enriched env lead = lead).
Proof.
  split; [|split].
  - destruct (enriched_cases env lead) as [->|(_ & _ & allText & ->)];
      [apply wellFormed_refl|apply extraction_wellFormed].
  - apply EnrichmentFacts.enrichFromWebsite_normal.
  - intros Hno. destruct (enriched_cases env lead) as [H|(Hsite & Hkey & _)]; [exact H|].
    destruct Hno as [Hno|Hno]; [congruence|contradiction].
Qed.

Section ZeroBatch.
Variable env : Env.

Lemma enrichBatches_zero (fuel : nat) (needs acc : list LeadResult) :
  needs <> [] -> enrichBatches env fuel needs 0 0 acc = None.
Proof.
  intros Hneeds. revert acc. induction fuel as [|fuel IH]; intros acc.
  - destruct needs; [contradiction|reflexivity].
  - destruct needs as [|l needs]; [contradiction|].
    cbn [enrichBatches length Nat.ltb Nat.leb].
    change (JS.slice (l :: needs) 0 (0 + 0)) with (@nil LeadResult).
    cbn [map promiseAll]. rewrite app_nil_r. apply IH.
Qed.

End ZeroBatch.

(** X22: [enrichLeadsBatch] called with a batch size of 0 on leads of
    which one needs enrichment never returns: its loop does not advance,
    however long it runs.  (The handler calls it with 3.) *)
Theorem zero_batch_size_never_returns (env : Env) (fuel : nat) (leads : list LeadResult)
    (lead : LeadResult)
    (Hin : lead ∈ leads) (Hneeds : needsEnrichment lead = true) :
  enrichLeadsBatch env fuel leads 0 = None.
Proof.
  unfold enrichLeadsBatch.
  assert (Hl : In lead (List.filter needsEnrichment leads)).
  { apply filter_In. split; [apply list_elem_of_In, Hin|exact Hneeds]. }
  destruct (List.filter needsEnrichment leads) as [|l needs] eqn:Hf; [contradiction Hl|].
  cbn [length Nat.eqb]. rewrite enrichBatches_zero by discriminate. reflexivity.
Qed.

Lemma zero_batch_size_never_returns_witness :
  enrichLeadsBatch ResponseFacts.yelpEnv 1000 [EnrichmentFacts.acme None] 0 = None.
Proof.
  apply (zero_batch_size_never_returns ResponseFacts.yelpEnv 1000
           [EnrichmentFacts.acme None] (EnrichmentFacts.acme None)).
  - left.
  - reflexivity.
Defined.

End EnrichedValueFacts.

(* ===================================================================== *)
(** ** More on the enrichment handler *)
(* ===================================================================== *)

Module EnrichRouteFacts.
Import Enrich.

Lemma elem_of_fromSet (seen : gset string) (l : list string) (x : string) :
  x ∈ fromSet seen l <-> x ∈ l /\ x ∉ seen.
Proof.
  revert seen. induction l as [|y l IH]; intros seen; cbn [fromSet].
  - split; [intros H; inversion H|intros [H _]; inversion H].
  - destruct (bool_decide_reflect (y ∈ seen)) as [Hy|Hy].
    + rewrite IH, elem_of_cons. split; [tauto|].
      intros [[->|Hin] Hx]; [contradiction|tauto].
    + rewrite !elem_of_cons, IH, elem_of_union, elem_of_singleton. split.
      * intros [->|[Hin Hx]]; [tauto|]. split; [tauto|]. intros Hs. apply Hx. right. exact Hs.
      * intros [[->|Hin] Hx]; [left; reflexivity|].
        destruct (decide (x = y)) as [->|Hne]; [left; reflexivity|].
        right. split; [exact Hin|]. intros [Heq|Hs]; contradiction.
Qed.

Lemma NoDup_fromSet (seen : gset string) (l : list string) : NoDup (fromSet seen l).
Proof.
  revert seen. induction l as [|y l IH]; intros seen; cbn [fromSet]; [constructor|].
  destruct (bool_decide_reflect (y ∈ seen)) as [Hy|Hy]; [apply IH|].
  constructor; [|apply IH].
  rewrite elem_of_fromSet, elem_of_union, elem_of_singleton. intros [_ Hx]. apply Hx.
  left. reflexivity.
Qed.

Lemma head_fromSet (l : list string) : head (fromSet ∅ l) = head l.
Proof.
  destruct l as [|y l]; [reflexivity|]. cbn [fromSet].
  rewrite bool_decide_eq_false_2 by apply not_elem_of_empty. reflexivity.
Qed.

(** X23: [extractEmails] returns every match of the email pattern that
    the filter keeps, once: no address occurs twice in its result, and
    the first address of the result, which is the one the handler stores,
    is the first match that the filter keeps. *)
Theorem extractEmails_are_distinct (text : string) :
  NoDup (extractEmails text)
  /\ (forall e, e ∈ extractEmails text
                <-> e ∈ Scrape.emailMatches text /\ keepEmail e = true)
  /\ head (extractEmails text) = head (List.filter keepEmail (Scrape.emailMatches text)).
Proof.
  unfold extractEmails. split; [apply NoDup_fromSet|]. split; [|apply head_fromSet].
  intros e. rewrite elem_of_fromSet, list_elem_of_In, filter_In, <- list_elem_of_In.
  split; [tauto|]. intros H. split; [exact H|apply not_elem_of_empty].
Qed.

Section WithEnv.
Variable env : Env.

Lemma enrichLead_cases (leads : gmap string Lead) (enriched : list (string * Upd.t))
    (leadId : string) :
  enrichLead env (leads, enriched) leadId = (leads, enriched)
  \/ exists lead text,
       leads !! leadId = Some lead
       /\ JS.truthy (website lead) = true
       /\ crawlWithFirecrawl env (JS.orEmpty (website lead)) = Some text
       /\ hasKeys (computeUpdates env lead text) = true
       /\ enrichLead env (leads, enriched) leadId
          = (alter (applyUpdates (computeUpdates env lead text)) leadId leads,
             enriched ++ [(leadId, computeUpdates env lead text)]).
Proof.
  unfold enrichLead. destruct (leads !! leadId) as [lead|] eqn:Hlead; [|left; reflexivity].
  destruct (JS.truthy (website lead)) eqn:Hsite; cbn [negb]; [|left; reflexivity].
  destruct (JS.truthy (email lead) && JS.truthy (phone lead) && JS.truthy (instagram_url lead));
    [left; reflexivity|].
  destruct (crawlWithFirecrawl env (JS.orEmpty (website lead))) as [text|] eqn:Hcrawl;
    [|left; reflexivity].
  destruct (hasKeys (computeUpdates env lead text)) eqn:Hkeys; [|left; reflexivity].
  right. exists lead, text. repeat split; assumption.
Qed.

Lemma foldl_enrichLead (leadIds : list string) (leads : gmap string Lead)
    (enriched : list (string * Upd.t)) :
  exists more,
    (foldl (enrichLead env) (leads, enriched) leadIds).2 = enriched ++ more
    /\ (length more <= length leadIds)%nat
    /\ (forall id u, (id, u) ∈ more ->
          id ∈ leadIds /\ hasKeys u = true /\ is_Some (leads !! id))
    /\ (forall id, id ∉ leadIds ->
          (foldl (enrichLead env) (leads, enriched) leadIds).1 !! id = leads !! id)
    /\ (forall id, is_Some ((foldl (enrichLead env) (leads, enriched) leadIds).1 !! id)
                   <-> is_Some (leads !! id)).
Proof.
  revert leads enriched. induction leadIds as [|leadId leadIds IH]; intros leads enriched.
  - exists []. cbn [foldl fst snd length]. rewrite app_nil_r.
    split; [reflexivity|]. split; [lia|]. split; [|split].
    + intros id u H. inversion H.
    + reflexivity.
    + reflexivity.
  - cbn [foldl].
    destruct (enrichLead_cases leads enriched leadId)
      as [->|(lead & text & Hlead & _ & _ & Hkeys & ->)].
    + destruct (IH leads enriched) as (more & H1 & H2 & H3 & H4 & H5).
      exists more. split; [exact H1|]. split; [cbn [length]; lia|]. split; [|split].
      * intros id u Hin. destruct (H3 id u Hin) as (Ha & Hb & Hc).
        split; [right; exact Ha|]. split; assumption.
      * intros id Hnot. apply H4. intros Hin. apply Hnot. right. exact Hin.
      * exact H5.
    + set (u := computeUpdates env lead text) in *.
      destruct (IH (alter (applyUpdates u) leadId leads) (enriched ++ [(leadId, u)]))
        as (more & H1 & H2 & H3 & H4 & H5).
      exists ((leadId, u) :: more). split; [rewrite H1, <- app_assoc; reflexivity|].
      split; [cbn [length]; lia|]. split; [|split].
      * intros id u' Hin. apply elem_of_cons in Hin as [Heq|Hin].
        -- injection Heq as -> ->. split; [left|]. split; [exact Hkeys|].
           rewrite Hlead. eexists; reflexivity.
        -- destruct (H3 id u' Hin) as (Ha & Hb & Hc).
           split; [right; exact Ha|]. split; [exact Hb|].
           apply lookup_alter_is_Some in Hc. exact Hc.
      * intros id Hnot. apply not_elem_of_cons in Hnot as [Hne Hnot].
        rewrite H4 by exact Hnot. apply lookup_alter_ne. congruence.
      * intros id. rewrite H5. apply lookup_alter_is_Some.
Qed.

Lemma enrichLead_without_key (st : gmap string Lead * list (string * Upd.t))
    (leadId : string) :
  JS.truthy (FIRECRAWL_API_KEY env) = false -> enrichLead env st leadId = st.
Proof.
  intros Hkey. destruct st as [leads enriched].
  destruct (enrichLead_cases leads enriched leadId)
    as [H|(lead & text & _ & _ & Hcrawl & _)]; [exact H|].
  unfold crawlWithFirecrawl in Hcrawl. rewrite Hkey in Hcrawl. discriminate Hcrawl.
Qed.

Lemma foldl_without_key (leadIds : list string)
    (st : gmap string Lead * list (string * Upd.t)) :
  JS.truthy (FIRECRAWL_API_KEY env) = false -> foldl (enrichLead env) st leadIds = st.
Proof.
  intros Hkey. induction leadIds as [|leadId leadIds IH]; [reflexivity|].
  cbn [foldl]. rewrite enrichLead_without_key by exact Hkey. exact IH.
Qed.

End WithEnv.

(** X24: the enrichment handler reports at most one result per listed
    id, each for a listed id that the table has and each with at least
    one field found; it adds and removes no row and leaves the rows that
    are not listed as they were; and without a Firecrawl key it changes
    nothing and reports nothing. *)
Theorem enrich_route_touches_listed_rows (env : Env) (leads : gmap string Lead)
    (leadIds : list string) :
  let leads' := (POST env leads leadIds).1 in
  let results := (POST env leads leadIds).2 in
  (length results <= length leadIds)%nat
  /\ (forall id u, (id, u) ∈ results ->
        id ∈ leadIds /\ hasKeys u = true /\ is_Some (leads !! id))
  /\ (forall id, id ∉ leadIds -> leads' !! id = leads !! id)
  /\ (forall id, is_Some (leads' !! id) <-> is_Some (leads !! id))
  /\ (JS.truthy (FIRECRAWL_API_KEY env) = false -> leads' = leads /\ results = []).
Proof.
  intros leads' results. unfold leads', results, POST.
  destruct (foldl_enrichLead env leadIds leads []) as (more & H1 & H2 & H3 & H4 & H5).
  rewrite H1. cbn [app]. split; [exact H2|]. split; [exact H3|]. split; [exact H4|].
  split; [exact H5|]. intros Hkey.
  rewrite (foldl_without_key env leadIds (leads, []) Hkey) in H1. cbn [snd app] in H1.
  subst more. rewrite (foldl_without_key env leadIds (leads, []) Hkey). split; reflexivity.
Qed.

End EnrichRouteFacts.

(* ===================================================================== *)
(** ** The matches of the email pattern *)
(* ===================================================================== *)

Module EmailShapeFacts.
Import Scrape.

(** Every character of [s] satisfies [p]. *)
Definition allChars (p : ascii -> bool) (s : string) : bool :=
  forallb p (list_ascii_of_string s).

Lemma takeWhile_dropWhile (p : ascii -> bool) (s : string) :
  s = takeWhile p s +:+ dropWhile p s.
Proof.
  induction s as [|c s IH]; [reflexivity|]. cbn [takeWhile dropWhile].
  destruct (p c); [|reflexivity]. rewrite LocationFacts.append_cons, <- IH. reflexivity.
Qed.

Lemma allChars_takeWhile (p : ascii -> bool) (s : string) : allChars p (takeWhile p s) = true.
Proof.
  induction s as [|c s IH]; [reflexivity|]. cbn [takeWhile].
  destruct (p c) eqn:Hc; [|reflexivity].
  unfold allChars. cbn [list_ascii_of_string forallb]. rewrite Hc. exact IH.
Qed.

Lemma allChars_append (p : ascii -> bool) (s t : string) :
  allChars p (s +:+ t) = allChars p s && allChars p t.
Proof.
  induction s as [|c s IH]; [reflexivity|].
  rewrite LocationFacts.append_cons. unfold allChars in *.
  cbn [list_ascii_of_string forallb]. rewrite IH, Bool.andb_assoc. reflexivity.
Qed.

Lemma lastTld_shape (d p t : string) :
  lastTld d = Some (p, t) ->
  (exists rest, d = p +:+ "." +:+ t +:+ rest)
  /\ (2 <= String.length t)%nat /\ allChars JS.isAlpha t = true.
Proof.
  revert p. induction d as [|c d IH]; intros p; [discriminate|]. cbn [lastTld].
  destruct (lastTld d) as [[p' t']|].
  - intros [= <- <-]. destruct (IH p' eq_refl) as ((rest & Hd) & Hlen & Hall).
    split; [|split; assumption]. exists rest. rewrite LocationFacts.append_cons, <- Hd.
    reflexivity.
  - destruct (Ascii.eqb_spec c ".") as [->|]; cbn [andb]; [|discriminate].
    destruct (Nat.leb_spec 2 (String.length (takeWhile JS.isAlpha d))) as [Hlen|];
      [|discriminate].
    intros [= <- <-]. split; [|split; [exact Hlen|apply allChars_takeWhile]].
    exists (dropWhile JS.isAlpha d). rewrite LocationFacts.append_nil_l.
    rewrite LocationFacts.append_cons, LocationFacts.append_nil_l.
    rewrite <- takeWhile_dropWhile. reflexivity.
Qed.

(** The shape of an address: a local part, the at sign, a domain, a dot
    and a final label of two letters or more. *)
Definition addressShape (m : string) : Prop :=
  exists localPart domainPart tld,
    m = localPart +:+ "@" +:+ domainPart +:+ "." +:+ tld
    /\ localPart <> "" /\ allChars isLocalChar localPart = true
    /\ domainPart <> "" /\ allChars isDomainChar domainPart = true
    /\ (2 <= String.length tld)%nat /\ allChars JS.isAlpha tld = true.

Lemma emailAt_shape (s m : string) :
  emailAt s = Some m -> addressShape m /\ exists rest, s = m +:+ rest.
Proof.
  unfold emailAt. pose proof (takeWhile_dropWhile isLocalChar s) as Hs.
  pose proof (allChars_takeWhile isLocalChar s) as Hlocal.
  destruct (takeWhile isLocalChar s) as [|l0 l'] eqn:Htake; [discriminate|].
  destruct (dropWhile isLocalChar s) as [|c r] eqn:Hdrop; [discriminate|].
  destruct (Ascii.eqb_spec c "@") as [->|Hc];
    [|destruct c as [[|] [|] [|] [|] [|] [|] [|] [|]]; try discriminate; contradiction Hc;
      reflexivity].
  pose proof (takeWhile_dropWhile isDomainChar r) as Hr.
  pose proof (allChars_takeWhile isDomainChar r) as Hdomain.
  destruct (takeWhile isDomainChar r) as [|d0 d'] eqn:Hd; [discriminate|].
  destruct (lastTld d') as [[p t]|] eqn:Htld; [|discriminate].
  intros [= <-].
  destruct (lastTld_shape d' p t Htld) as ((rest & Hd') & Hlen & Halpha).
  split.
  - exists (String l0 l'), (String d0 p), t.
    split; [reflexivity|]. split; [discriminate|]. split; [exact Hlocal|].
    split; [discriminate|]. split; [|split; assumption].
    rewrite Hd' in Hdomain. unfold allChars in *.
    cbn [list_ascii_of_string forallb] in *.
    apply andb_true_iff in Hdomain as [H0 Hrest]. rewrite H0. cbn [andb].
    fold (allChars isDomainChar (p +:+ "." +:+ t +:+ rest)) in Hrest.
    rewrite allChars_append in Hrest. apply andb_true_iff in Hrest as [Hp _]. exact Hp.
  - exists (rest +:+ dropWhile isDomainChar r).
    set (tail := dropWhile isDomainChar r) in *. clearbody tail.
    rewrite Hs, Hr, Hd'.
    repeat first [rewrite LocationFacts.append_cons | rewrite LocationFacts.append_assoc
                 | rewrite LocationFacts.append_nil_l].
    reflexivity.
Qed.

Lemma emailMatchesFrom_inside (s : string) (skip : nat) (m : string) :
  m ∈ emailMatchesFrom skip s -> addressShape m /\ exists a b, s = a +:+ m +:+ b.
Proof.
  revert skip. induction s as [|c s IH]; intros skip Hin; [inversion Hin|].
  assert (Hlater : forall k, m ∈ emailMatchesFrom k s ->
                             addressShape m /\ exists a b, String c s = a +:+ m +:+ b).
  { intros k Hk. destruct (IH k Hk) as (Hshape & a & b & Hab).
    split; [exact Hshape|]. exists (String c a), b.
    rewrite LocationFacts.append_cons, <- Hab. reflexivity. }
  cbn [emailMatchesFrom] in Hin. destruct skip as [|k]; [|exact (Hlater k Hin)].
  destruct (emailAt (String c s)) as [m'|] eqn:Hat; [|exact (Hlater _ Hin)].
  apply elem_of_cons in Hin as [->|Hin]; [|exact (Hlater _ Hin)].
  destruct (emailAt_shape _ _ Hat) as (Hshape & rest & Hrest).
  split; [exact Hshape|]. exists "", rest. exact Hrest.
Qed.

(** X25: every match of the email pattern is a piece of the text and has
    the shape of an address: a local part that is not empty, the at
    sign, a domain that is not empty, a dot and a final label of two
    letters or more, each part made of the characters that the pattern
    allows there. *)
Theorem email_matches_have_address_shape (text m : string)
    (Hm : m ∈ emailMatches text) :
  JS.includes text m = true /\ addressShape m.
Proof.
  destruct (emailMatchesFrom_inside text 0 m Hm) as (Hshape & a & b & Hab).
  split; [|exact Hshape]. apply LocationFacts.includes_iff. exists a, b. exact Hab.
Qed.

Lemma email_matches_have_address_shape_witness :
  emailMatches "Write to info@acme.co.uk, or call." = ["info@acme.co.uk"]
  /\ JS.includes "Write to info@acme.co.uk, or call." "info@acme.co.uk" = true
  /\ addressShape "info@acme.co.uk".
Proof.
  split; [vm_compute; reflexivity|].
  apply (email_matches_have_address_shape "Write to info@acme.co.uk, or call."
           "info@acme.co.uk").
  vm_compute. left.
Defined.

End EmailShapeFacts.

(* ===================================================================== *)
(** ** What the enrichment handler writes, and the contact links *)
(* ===================================================================== *)

Module EnrichRouteValueFacts.
Import Enrich.

Lemma digitsAndPlus_cleanPhone (s : string) : digitsAndPlus s = Utils.cleanPhone s.
Proof.
  induction s as [|c s IH]; [reflexivity|]. cbn [digitsAndPlus Utils.cleanPhone].
  rewrite IH. reflexivity.
Qed.

Lemma cleanPhone_fixed (s : string) : Utils.cleanPhone (Utils.cleanPhone s) = Utils.cleanPhone s.
Proof.
  induction s as [|c s IH]; [reflexivity|]. cbn [Utils.cleanPhone].
  destruct (JS.isDigit c || Ascii.eqb c "+") eqn:Hc; [|exact IH].
  cbn [Utils.cleanPhone]. rewrite Hc, IH. reflexivity.
Qed.

Lemma head_map_filter {A B : Type} (g : A -> B) (p : B -> bool) (l : list A) (y : B) :
  head (List.filter p (map g l)) = Some y -> p y = true /\ exists x, x ∈ l /\ y = g x.
Proof.
  intros Hhead. apply EnrichedValueFacts.head_filter in Hhead as [Hp Hin].
  split; [exact Hp|]. apply list_elem_of_fmap in Hin as (x & -> & Hx). eauto.
Qed.

(** X26: whatever the crawled page contains, what the enrichment handler
    stores for a row is well formed and fits the contact links of the
    user interface: an email it stores is a match of the email pattern
    that the filter keeps; a phone it stores has 10 to 15 characters,
    digits and plus signs only, so that [cleanPhone] leaves it as it is;
    an Instagram address it stores is https://instagram.com/ and a handle
    that is not empty and not one of five reserved paths, for which
    [getInstagramDMUrl] gives the link to that handle.  Each is stored
    only into a column that was not populated. *)
Theorem enrich_route_writes_well_formed_values (env : Env) (lead : Lead) (text : string) :
  let updates := computeUpdates env lead text in
  (forall e, Upd.email updates = Some e ->
     JS.truthy (email lead) = false
     /\ keepEmail e = true /\ e ∈ Scrape.emailMatches text)
  /\ (forall p, Upd.phone updates = Some p ->
        JS.truthy (phone lead) = false
        /\ (10 <= String.length p <= 15)%nat /\ Utils.cleanPhone p = p)
  /\ (forall ig, Upd.instagram_url updates = Some ig ->
        JS.truthy (instagram_url lead) = false
        /\ exists handle,
             ig = "https://instagram.com/" +:+ handle /\ handle <> ""
             /\ (handle ∉ ["p"; "reel"; "stories"; "explore"; "accounts"])
             /\ Utils.getInstagramDMUrl ig
                = "https://ig.me/m/" +:+ JS.removeTrailingSlash handle).
Proof.
  intros updates. unfold updates, computeUpdates.
  split; [|split].
  - intros e. destruct (JS.truthy (email lead)) eqn:Hold; cbn [negb].
    + destruct (negb (JS.truthy (phone lead))); [destruct (extractPhones env text)|];
        (destruct (negb (JS.truthy (instagram_url lead)));
         [destruct (extractInstagram env text)|]); cbn; discriminate.
    + assert (He : forall e', head (extractEmails text) = Some e' ->
                              keepEmail e' = true /\ e' ∈ Scrape.emailMatches text).
      { intros e' Hhead. unfold extractEmails in Hhead.
        rewrite EnrichRouteFacts.head_fromSet in Hhead.
        apply EnrichedValueFacts.head_filter in Hhead. exact Hhead. }
      destruct (head (extractEmails text)) as [e0|];
        (destruct (negb (JS.truthy (phone lead))); [destruct (extractPhones env text)|]);
        (destruct (negb (JS.truthy (instagram_url lead)));
         [destruct (extractInstagram env text)|]); cbn;
        try discriminate; intros [= <-]; (split; [reflexivity|apply He; reflexivity]).
  - intros p. destruct (JS.truthy (phone lead)) eqn:Hold; cbn [negb].
    + destruct (negb (JS.truthy (email lead))); [destruct (head (extractEmails text))|];
        (destruct (negb (JS.truthy (instagram_url lead)));
         [destruct (extractInstagram env text)|]); cbn; discriminate.
    + assert (Hp : forall p', extractPhones env text = Some p' ->
                              (10 <= String.length p' <= 15)%nat /\ Utils.cleanPhone p' = p').
      { intros p'. unfold extractPhones.
        destruct (head _) as [q|] eqn:Hhead; [|discriminate].
        destruct (JS.truthy (Some q)); [|discriminate]. intros [= <-].
        apply head_map_filter in Hhead as (Hlen & raw & _ & ->).
        apply andb_true_iff in Hlen as [Hlo Hhi]. apply Nat.leb_le in Hlo, Hhi.
        split; [split; assumption|].
        replace (digitsAndPlus raw) with (Utils.cleanPhone raw)
          by (symmetry; apply digitsAndPlus_cleanPhone).
        apply cleanPhone_fixed. }
      destruct (extractPhones env text) as [p0|];
        (destruct (negb (JS.truthy (email lead))); [destruct (head (extractEmails text))|]);
        (destruct (negb (JS.truthy (instagram_url lead)));
         [destruct (extractInstagram env text)|]); cbn;
        try discriminate; intros [= <-]; (split; [reflexivity|apply Hp; reflexivity]).
  - intros ig. destruct (JS.truthy (instagram_url lead)) eqn:Hold; cbn [negb].
    + destruct (negb (JS.truthy (email lead))); [destruct (head (extractEmails text))|];
        (destruct (negb (JS.truthy (phone lead))); [destruct (extractPhones env text)|]);
        cbn; discriminate.
    + assert (Hi : forall ig', extractInstagram env text = Some ig' ->
                exists handle,
                  ig' = "https://instagram.com/" +:+ handle /\ handle <> ""
                  /\ (handle ∉ ["p"; "reel"; "stories"; "explore"; "accounts"])
                  /\ Utils.getInstagramDMUrl ig'
                     = "https://ig.me/m/" +:+ JS.removeTrailingSlash handle).
      { intros ig'. unfold extractInstagram.
        destruct (igRegexExec env text) as [h|]; [|discriminate].
        destruct (JS.truthy (Some h)) eqn:Hh; cbn [andb]; [|discriminate].
        destruct (existsb (String.eqb h) ["p"; "reel"; "stories"; "explore"; "accounts"])
          eqn:Hres; cbn [negb]; [discriminate|].
        intros [= <-]. exists h. split; [reflexivity|]. split; [|split].
        - intros ->. discriminate Hh.
        - intros Hin. apply list_elem_of_In in Hin.
          assert (Hex : existsb (String.eqb h) ["p"; "reel"; "stories"; "explore"; "accounts"]
                        = true).
          { apply existsb_exists. exists h. split; [exact Hin|apply String.eqb_refl]. }
          rewrite Hex in Hres. discriminate Hres.
        - unfold Utils.getInstagramDMUrl.
          rewrite UtilsFacts.removeInstagramPrefix_profile. reflexivity. }
      destruct (extractInstagram env text) as [i0|];
        (destruct (negb (JS.truthy (email lead))); [destruct (head (extractEmails text))|]);
        (destruct (negb (JS.truthy (phone lead))); [destruct (extractPhones env text)|]);
        cbn; try discriminate; intros [= <-]; (split; [reflexivity|apply Hi; reflexivity]).
Qed.

End EnrichRouteValueFacts.
